(** * Mangable: a shallow embedding of the comic-metadata service

    The development follows the layout of the application:
    - [app/models/models.py]   -> modules [User], [ApiKey], [Comic] and the store [Db];
    - [app/core/security.py]   -> [decode_access_token], [hash_api_key],
                                  [create_access_token], [generate_api_key];
    - [app/core/deps.py]       -> the credential resolver;
    - [app/api/auth.py], [app/api/api_keys.py], [app/api/comics.py] -> the handlers;
    - [app/services/comicinfo.py] -> the ComicInfo exporter;
    - [app/core/database.py]   -> [DATABASE_URL].

    Handlers are functions in a state-and-error monad over the store.  The
    clock ([datetime.now]), the random sources ([uuid4], [secrets.choice]) and
    the cryptographic library calls are inputs of the functions that use them. *)

From Stdlib Require Import ZArith List String Ascii Bool Lia Permutation Sorted DecimalString.
From Stdlib Require Import Floats.PrimFloat.
From Stdlib Require Floats.SpecFloat Floats.FloatAxioms.
Import ListNotations.

Local Open Scope string_scope.
Local Open Scope list_scope.
Local Open Scope Z_scope.

(** ** Python values *)

(** A [uuid.UUID] in its canonical textual form, and a timezone-aware
    [datetime] as microseconds since the epoch. *)
Definition uuid := string.
Definition datetime := Z.

(** Truthiness of the values the handlers test with [if x:] / [if not x:]. *)
Definition truthy_str (s : string) : bool := negb (String.eqb s "").
Definition truthy_int (z : Z) : bool := negb (Z.eqb z 0).

Definition truthy_opt {A : Type} (t : A -> bool) (o : option A) : bool :=
  match o with
  | None => false
  | Some a => t a
  end.

(** Instances of the mapped classes define neither [__bool__] nor [__len__]:
    an object is truthy, [None] is not. *)
Definition truthy_obj {A : Type} (o : option A) : bool :=
  match o with
  | None => false
  | Some _ => true
  end.

(** [a or b] on optional objects. *)
Definition py_or {A : Type} (a b : option A) : option A :=
  if truthy_obj a then a else b.

Definition opt_eqb {A : Type} (eqb : A -> A -> bool) (a b : option A) : bool :=
  match a, b with
  | Some x, Some y => eqb x y
  | None, None => true
  | _, _ => false
  end.

(** A [str] is held as its UTF-8 encoding: a character is one byte, or a
    lead byte and the continuation bytes (10xxxxxx) that follow it. *)
Definition continuation (c : ascii) : bool :=
  let n := N_of_ascii c in
  N.leb 128 n && N.ltb n 192.

(** [len(s)], the number of characters. *)
Fixpoint len (s : string) : nat :=
  match s with
  | EmptyString => O
  | String c s' => if continuation c then len s' else S (len s')
  end.

(** Whether a text has no NUL character; the store holds no text that has
    one, and takes none as a parameter. *)
Fixpoint nul_free (s : string) : bool :=
  match s with
  | EmptyString => true
  | String c s' => negb (Ascii.eqb c Ascii.zero) && nul_free s'
  end.

(** The range of a signed integer of 32 and of 64 bits. *)
Definition int32 (z : Z) : bool := (-2147483648 <=? z) && (z <=? 2147483647).
Definition int64 (z : Z) : bool :=
  (-9223372036854775808 <=? z) && (z <=? 9223372036854775807).

(** ** Outcomes of a request *)

(** Exceptions that no handler catches; the framework answers them with
    status 500.  [MultipleResultsFound] and [IntegrityError] are raised by
    the persistence layer, [DBAPIError] wraps the refusal of a value by the
    driver or the store, [ExpatError] is raised by the XML parser, and
    [ResponseValidationError] by the framework when what a handler returned
    fails the response model of its route. *)
Inductive exception : Type :=
| MultipleResultsFound
| IntegrityError
| DBAPIError
| ExpatError
| ResponseValidationError.

(** What a request ends in: the handler returns, raises [HTTPException],
    is never entered because the framework rejects a parameter (status 422),
    or lets an exception escape. *)
Inductive outcome (A : Type) : Type :=
| Ok (a : A)
| HTTPException (status_code : Z) (detail : string)
| RequestValidationError
| Unhandled (e : exception).

Arguments Ok {A} a.
Arguments HTTPException {A} status_code detail.
Arguments RequestValidationError {A}.
Arguments Unhandled {A} e.

Definition HTTP_401_UNAUTHORIZED : Z := 401.
Definition HTTP_403_FORBIDDEN : Z := 403.

(** ** The data model ([app/models/models.py]) *)

Module User.
Record t : Type := mk {
  id : uuid;
  username : string;
  email : string;
  hashed_password : string;
  is_active : bool;
  is_admin : bool;
  created_at : datetime;
  updated_at : datetime
}.
End User.

Module ApiKey.
Record t : Type := mk {
  id : uuid;
  user_id : uuid;
  name : string;
  key_hash : string;
  key_prefix : string;
  is_active : bool;
  last_used_at : option datetime;
  created_at : datetime;
  expires_at : option datetime
}.

Definition set_last_used_at (v : option datetime) (k : t) : t :=
  mk (id k) (user_id k) (name k) (key_hash k) (key_prefix k) (is_active k)
     v (created_at k) (expires_at k).

Definition set_is_active (v : bool) (k : t) : t :=
  mk (id k) (user_id k) (name k) (key_hash k) (key_prefix k) v
     (last_used_at k) (created_at k) (expires_at k).
End ApiKey.

(** The Python objects a validated request body carries. *)
Inductive value : Type :=
| VStr (s : string)
| VInt (z : Z)
| VFloat (f : float)
| VBool (b : bool).

(** The names of the attributes a PATCH body may carry: the fields of
  [ComicUpdate], in declaration order. *)
Module Attr.
Inductive t : Type :=
  | title
  | series
  | alternate_series
  | number
  | count
  | volume
  | alternate_number
  | alternate_count
  | summary
  | notes
  | year
  | month
  | day
  | publisher
  | imprint
  | writer
  | penciller
  | inker
  | colorist
  | letterer
  | cover_artist
  | editor
  | translator
  | genre
  | tags
  | web
  | age_rating
  | language_iso
  | format
  | is_bw
  | manga
  | community_rating
  | review
  | page_count
  | cover_url
  | isbn
  | barcode
  | series_group.

Definition all : list t :=
  [title; series; alternate_series; number; count; volume; alternate_number;
   alternate_count; summary; notes; year; month; day; publisher; imprint; writer;
   penciller; inker; colorist; letterer; cover_artist; editor; translator; genre; tags;
   web; age_rating; language_iso; format; is_bw; manga; community_rating; review;
   page_count; cover_url; isbn; barcode; series_group].
End Attr.

Module Comic.
Record t : Type := mk {
  id : uuid;
  title : string;
  series : option string;
  alternate_series : option string;
  number : option string;
  count : option Z;
  volume : option Z;
  alternate_number : option string;
  alternate_count : option Z;
  summary : option string;
  notes : option string;
  year : option Z;
  month : option Z;
  day : option Z;
  publisher : option string;
  imprint : option string;
  writer : option string;
  penciller : option string;
  inker : option string;
  colorist : option string;
  letterer : option string;
  cover_artist : option string;
  editor : option string;
  translator : option string;
  genre : option string;
  tags : option string;
  web : option string;
  age_rating : option string;
  language_iso : option string;
  format : option string;
  is_bw : option bool;
  manga : option string;
  community_rating : option float;
  review : option string;
  page_count : option Z;
  cover_url : option string;
  cover_image_path : option string;
  isbn : option string;
  barcode : option string;
  series_group : option string;
  created_at : datetime;
  updated_at : datetime;
  created_by : option uuid
}.

Definition set_title (v : string) (c : t) : t :=
  mk (id c) v (series c) (alternate_series c) (number c) (count c) (volume c)
    (alternate_number c) (alternate_count c) (summary c) (notes c) (year c) (month c) (day c)
    (publisher c) (imprint c) (writer c) (penciller c) (inker c) (colorist c) (letterer c)
    (cover_artist c) (editor c) (translator c) (genre c) (tags c) (web c) (age_rating c)
    (language_iso c) (format c) (is_bw c) (manga c) (community_rating c) (review c)
    (page_count c) (cover_url c) (cover_image_path c) (isbn c) (barcode c) (series_group c)
    (created_at c) (updated_at c) (created_by c).

Definition set_series (v : option string) (c : t) : t :=
  mk (id c) (title c) v (alternate_series c) (number c) (count c) (volume c)
    (alternate_number c) (alternate_count c) (summary c) (notes c) (year c) (month c) (day c)
    (publisher c) (imprint c) (writer c) (penciller c) (inker c) (colorist c) (letterer c)
    (cover_artist c) (editor c) (translator c) (genre c) (tags c) (web c) (age_rating c)
    (language_iso c) (format c) (is_bw c) (manga c) (community_rating c) (review c)
    (page_count c) (cover_url c) (cover_image_path c) (isbn c) (barcode c) (series_group c)
    (created_at c) (updated_at c) (created_by c).

Definition set_alternate_series (v : option string) (c : t) : t :=
  mk (id c) (title c) (series c) v (number c) (count c) (volume c) (alternate_number c)
    (alternate_count c) (summary c) (notes c) (year c) (month c) (day c) (publisher c)
    (imprint c) (writer c) (penciller c) (inker c) (colorist c) (letterer c) (cover_artist c)
    (editor c) (translator c) (genre c) (tags c) (web c) (age_rating c) (language_iso c)
    (format c) (is_bw c) (manga c) (community_rating c) (review c) (page_count c) (cover_url c)
    (cover_image_path c) (isbn c) (barcode c) (series_group c) (created_at c) (updated_at c)
    (created_by c).

Definition set_number (v : option string) (c : t) : t :=
  mk (id c) (title c) (series c) (alternate_series c) v (count c) (volume c)
    (alternate_number c) (alternate_count c) (summary c) (notes c) (year c) (month c) (day c)
    (publisher c) (imprint c) (writer c) (penciller c) (inker c) (colorist c) (letterer c)
    (cover_artist c) (editor c) (translator c) (genre c) (tags c) (web c) (age_rating c)
    (language_iso c) (format c) (is_bw c) (manga c) (community_rating c) (review c)
    (page_count c) (cover_url c) (cover_image_path c) (isbn c) (barcode c) (series_group c)
    (created_at c) (updated_at c) (created_by c).

Definition set_count (v : option Z) (c : t) : t :=
  mk (id c) (title c) (series c) (alternate_series c) (number c) v (volume c)
    (alternate_number c) (alternate_count c) (summary c) (notes c) (year c) (month c) (day c)
    (publisher c) (imprint c) (writer c) (penciller c) (inker c) (colorist c) (letterer c)
    (cover_artist c) (editor c) (translator c) (genre c) (tags c) (web c) (age_rating c)
    (language_iso c) (format c) (is_bw c) (manga c) (community_rating c) (review c)
    (page_count c) (cover_url c) (cover_image_path c) (isbn c) (barcode c) (series_group c)
    (created_at c) (updated_at c) (created_by c).

Definition set_volume (v : option Z) (c : t) : t :=
  mk (id c) (title c) (series c) (alternate_series c) (number c) (count c) v
    (alternate_number c) (alternate_count c) (summary c) (notes c) (year c) (month c) (day c)
    (publisher c) (imprint c) (writer c) (penciller c) (inker c) (colorist c) (letterer c)
    (cover_artist c) (editor c) (translator c) (genre c) (tags c) (web c) (age_rating c)
    (language_iso c) (format c) (is_bw c) (manga c) (community_rating c) (review c)
    (page_count c) (cover_url c) (cover_image_path c) (isbn c) (barcode c) (series_group c)
    (created_at c) (updated_at c) (created_by c).

Definition set_alternate_number (v : option string) (c : t) : t :=
  mk (id c) (title c) (series c) (alternate_series c) (number c) (count c) (volume c) v
    (alternate_count c) (summary c) (notes c) (year c) (month c) (day c) (publisher c)
    (imprint c) (writer c) (penciller c) (inker c) (colorist c) (letterer c) (cover_artist c)
    (editor c) (translator c) (genre c) (tags c) (web c) (age_rating c) (language_iso c)
    (format c) (is_bw c) (manga c) (community_rating c) (review c) (page_count c) (cover_url c)
    (cover_image_path c) (isbn c) (barcode c) (series_group c) (created_at c) (updated_at c)
    (created_by c).

Definition set_alternate_count (v : option Z) (c : t) : t :=
  mk (id c) (title c) (series c) (alternate_series c) (number c) (count c) (volume c)
    (alternate_number c) v (summary c) (notes c) (year c) (month c) (day c) (publisher c)
    (imprint c) (writer c) (penciller c) (inker c) (colorist c) (letterer c) (cover_artist c)
    (editor c) (translator c) (genre c) (tags c) (web c) (age_rating c) (language_iso c)
    (format c) (is_bw c) (manga c) (community_rating c) (review c) (page_count c) (cover_url c)
    (cover_image_path c) (isbn c) (barcode c) (series_group c) (created_at c) (updated_at c)
    (created_by c).

Definition set_summary (v : option string) (c : t) : t :=
  mk (id c) (title c) (series c) (alternate_series c) (number c) (count c) (volume c)
    (alternate_number c) (alternate_count c) v (notes c) (year c) (month c) (day c)
    (publisher c) (imprint c) (writer c) (penciller c) (inker c) (colorist c) (letterer c)
    (cover_artist c) (editor c) (translator c) (genre c) (tags c) (web c) (age_rating c)
    (language_iso c) (format c) (is_bw c) (manga c) (community_rating c) (review c)
    (page_count c) (cover_url c) (cover_image_path c) (isbn c) (barcode c) (series_group c)
    (created_at c) (updated_at c) (created_by c).

Definition set_notes (v : option string) (c : t) : t :=
  mk (id c) (title c) (series c) (alternate_series c) (number c) (count c) (volume c)
    (alternate_number c) (alternate_count c) (summary c) v (year c) (month c) (day c)
    (publisher c) (imprint c) (writer c) (penciller c) (inker c) (colorist c) (letterer c)
    (cover_artist c) (editor c) (translator c) (genre c) (tags c) (web c) (age_rating c)
    (language_iso c) (format c) (is_bw c) (manga c) (community_rating c) (review c)
    (page_count c) (cover_url c) (cover_image_path c) (isbn c) (barcode c) (series_group c)
    (created_at c) (updated_at c) (created_by c).

Definition set_year (v : option Z) (c : t) : t :=
  mk (id c) (title c) (series c) (alternate_series c) (number c) (count c) (volume c)
    (alternate_number c) (alternate_count c) (summary c) (notes c) v (month c) (day c)
    (publisher c) (imprint c) (writer c) (penciller c) (inker c) (colorist c) (letterer c)
    (cover_artist c) (editor c) (translator c) (genre c) (tags c) (web c) (age_rating c)
    (language_iso c) (format c) (is_bw c) (manga c) (community_rating c) (review c)
    (page_count c) (cover_url c) (cover_image_path c) (isbn c) (barcode c) (series_group c)
    (created_at c) (updated_at c) (created_by c).

Definition set_month (v : option Z) (c : t) : t :=
  mk (id c) (title c) (series c) (alternate_series c) (number c) (count c) (volume c)
    (alternate_number c) (alternate_count c) (summary c) (notes c) (year c) v (day c)
    (publisher c) (imprint c) (writer c) (penciller c) (inker c) (colorist c) (letterer c)
    (cover_artist c) (editor c) (translator c) (genre c) (tags c) (web c) (age_rating c)
    (language_iso c) (format c) (is_bw c) (manga c) (community_rating c) (review c)
    (page_count c) (cover_url c) (cover_image_path c) (isbn c) (barcode c) (series_group c)
    (created_at c) (updated_at c) (created_by c).

Definition set_day (v : option Z) (c : t) : t :=
  mk (id c) (title c) (series c) (alternate_series c) (number c) (count c) (volume c)
    (alternate_number c) (alternate_count c) (summary c) (notes c) (year c) (month c) v
    (publisher c) (imprint c) (writer c) (penciller c) (inker c) (colorist c) (letterer c)
    (cover_artist c) (editor c) (translator c) (genre c) (tags c) (web c) (age_rating c)
    (language_iso c) (format c) (is_bw c) (manga c) (community_rating c) (review c)
    (page_count c) (cover_url c) (cover_image_path c) (isbn c) (barcode c) (series_group c)
    (created_at c) (updated_at c) (created_by c).

Definition set_publisher (v : option string) (c : t) : t :=
  mk (id c) (title c) (series c) (alternate_series c) (number c) (count c) (volume c)
    (alternate_number c) (alternate_count c) (summary c) (notes c) (year c) (month c) (day c) v
    (imprint c) (writer c) (penciller c) (inker c) (colorist c) (letterer c) (cover_artist c)
    (editor c) (translator c) (genre c) (tags c) (web c) (age_rating c) (language_iso c)
    (format c) (is_bw c) (manga c) (community_rating c) (review c) (page_count c) (cover_url c)
    (cover_image_path c) (isbn c) (barcode c) (series_group c) (created_at c) (updated_at c)
    (created_by c).

Definition set_imprint (v : option string) (c : t) : t :=
  mk (id c) (title c) (series c) (alternate_series c) (number c) (count c) (volume c)
    (alternate_number c) (alternate_count c) (summary c) (notes c) (year c) (month c) (day c)
    (publisher c) v (writer c) (penciller c) (inker c) (colorist c) (letterer c)
    (cover_artist c) (editor c) (translator c) (genre c) (tags c) (web c) (age_rating c)
    (language_iso c) (format c) (is_bw c) (manga c) (community_rating c) (review c)
    (page_count c) (cover_url c) (cover_image_path c) (isbn c) (barcode c) (series_group c)
    (created_at c) (updated_at c) (created_by c).

Definition set_writer (v : option string) (c : t) : t :=
  mk (id c) (title c) (series c) (alternate_series c) (number c) (count c) (volume c)
    (alternate_number c) (alternate_count c) (summary c) (notes c) (year c) (month c) (day c)
    (publisher c) (imprint c) v (penciller c) (inker c) (colorist c) (letterer c)
    (cover_artist c) (editor c) (translator c) (genre c) (tags c) (web c) (age_rating c)
    (language_iso c) (format c) (is_bw c) (manga c) (community_rating c) (review c)
    (page_count c) (cover_url c) (cover_image_path c) (isbn c) (barcode c) (series_group c)
    (created_at c) (updated_at c) (created_by c).

Definition set_penciller (v : option string) (c : t) : t :=
  mk (id c) (title c) (series c) (alternate_series c) (number c) (count c) (volume c)
    (alternate_number c) (alternate_count c) (summary c) (notes c) (year c) (month c) (day c)
    (publisher c) (imprint c) (writer c) v (inker c) (colorist c) (letterer c) (cover_artist c)
    (editor c) (translator c) (genre c) (tags c) (web c) (age_rating c) (language_iso c)
    (format c) (is_bw c) (manga c) (community_rating c) (review c) (page_count c) (cover_url c)
    (cover_image_path c) (isbn c) (barcode c) (series_group c) (created_at c) (updated_at c)
    (created_by c).

Definition set_inker (v : option string) (c : t) : t :=
  mk (id c) (title c) (series c) (alternate_series c) (number c) (count c) (volume c)
    (alternate_number c) (alternate_count c) (summary c) (notes c) (year c) (month c) (day c)
    (publisher c) (imprint c) (writer c) (penciller c) v (colorist c) (letterer c)
    (cover_artist c) (editor c) (translator c) (genre c) (tags c) (web c) (age_rating c)
    (language_iso c) (format c) (is_bw c) (manga c) (community_rating c) (review c)
    (page_count c) (cover_url c) (cover_image_path c) (isbn c) (barcode c) (series_group c)
    (created_at c) (updated_at c) (created_by c).

Definition set_colorist (v : option string) (c : t) : t :=
  mk (id c) (title c) (series c) (alternate_series c) (number c) (count c) (volume c)
    (alternate_number c) (alternate_count c) (summary c) (notes c) (year c) (month c) (day c)
    (publisher c) (imprint c) (writer c) (penciller c) (inker c) v (letterer c) (cover_artist c)
    (editor c) (translator c) (genre c) (tags c) (web c) (age_rating c) (language_iso c)
    (format c) (is_bw c) (manga c) (community_rating c) (review c) (page_count c) (cover_url c)
    (cover_image_path c) (isbn c) (barcode c) (series_group c) (created_at c) (updated_at c)
    (created_by c).

Definition set_letterer (v : option string) (c : t) : t :=
  mk (id c) (title c) (series c) (alternate_series c) (number c) (count c) (volume c)
    (alternate_number c) (alternate_count c) (summary c) (notes c) (year c) (month c) (day c)
    (publisher c) (imprint c) (writer c) (penciller c) (inker c) (colorist c) v (cover_artist c)
    (editor c) (translator c) (genre c) (tags c) (web c) (age_rating c) (language_iso c)
    (format c) (is_bw c) (manga c) (community_rating c) (review c) (page_count c) (cover_url c)
    (cover_image_path c) (isbn c) (barcode c) (series_group c) (created_at c) (updated_at c)
    (created_by c).

Definition set_cover_artist (v : option string) (c : t) : t :=
  mk (id c) (title c) (series c) (alternate_series c) (number c) (count c) (volume c)
    (alternate_number c) (alternate_count c) (summary c) (notes c) (year c) (month c) (day c)
    (publisher c) (imprint c) (writer c) (penciller c) (inker c) (colorist c) (letterer c) v
    (editor c) (translator c) (genre c) (tags c) (web c) (age_rating c) (language_iso c)
    (format c) (is_bw c) (manga c) (community_rating c) (review c) (page_count c) (cover_url c)
    (cover_image_path c) (isbn c) (barcode c) (series_group c) (created_at c) (updated_at c)
    (created_by c).

Definition set_editor (v : option string) (c : t) : t :=
  mk (id c) (title c) (series c) (alternate_series c) (number c) (count c) (volume c)
    (alternate_number c) (alternate_count c) (summary c) (notes c) (year c) (month c) (day c)
    (publisher c) (imprint c) (writer c) (penciller c) (inker c) (colorist c) (letterer c)
    (cover_artist c) v (translator c) (genre c) (tags c) (web c) (age_rating c) (language_iso c)
    (format c) (is_bw c) (manga c) (community_rating c) (review c) (page_count c) (cover_url c)
    (cover_image_path c) (isbn c) (barcode c) (series_group c) (created_at c) (updated_at c)
    (created_by c).

Definition set_translator (v : option string) (c : t) : t :=
  mk (id c) (title c) (series c) (alternate_series c) (number c) (count c) (volume c)
    (alternate_number c) (alternate_count c) (summary c) (notes c) (year c) (month c) (day c)
    (publisher c) (imprint c) (writer c) (penciller c) (inker c) (colorist c) (letterer c)
    (cover_artist c) (editor c) v (genre c) (tags c) (web c) (age_rating c) (language_iso c)
    (format c) (is_bw c) (manga c) (community_rating c) (review c) (page_count c) (cover_url c)
    (cover_image_path c) (isbn c) (barcode c) (series_group c) (created_at c) (updated_at c)
    (created_by c).

Definition set_genre (v : option string) (c : t) : t :=
  mk (id c) (title c) (series c) (alternate_series c) (number c) (count c) (volume c)
    (alternate_number c) (alternate_count c) (summary c) (notes c) (year c) (month c) (day c)
    (publisher c) (imprint c) (writer c) (penciller c) (inker c) (colorist c) (letterer c)
    (cover_artist c) (editor c) (translator c) v (tags c) (web c) (age_rating c)
    (language_iso c) (format c) (is_bw c) (manga c) (community_rating c) (review c)
    (page_count c) (cover_url c) (cover_image_path c) (isbn c) (barcode c) (series_group c)
    (created_at c) (updated_at c) (created_by c).

Definition set_tags (v : option string) (c : t) : t :=
  mk (id c) (title c) (series c) (alternate_series c) (number c) (count c) (volume c)
    (alternate_number c) (alternate_count c) (summary c) (notes c) (year c) (month c) (day c)
    (publisher c) (imprint c) (writer c) (penciller c) (inker c) (colorist c) (letterer c)
    (cover_artist c) (editor c) (translator c) (genre c) v (web c) (age_rating c)
    (language_iso c) (format c) (is_bw c) (manga c) (community_rating c) (review c)
    (page_count c) (cover_url c) (cover_image_path c) (isbn c) (barcode c) (series_group c)
    (created_at c) (updated_at c) (created_by c).

Definition set_web (v : option string) (c : t) : t :=
  mk (id c) (title c) (series c) (alternate_series c) (number c) (count c) (volume c)
    (alternate_number c) (alternate_count c) (summary c) (notes c) (year c) (month c) (day c)
    (publisher c) (imprint c) (writer c) (penciller c) (inker c) (colorist c) (letterer c)
    (cover_artist c) (editor c) (translator c) (genre c) (tags c) v (age_rating c)
    (language_iso c) (format c) (is_bw c) (manga c) (community_rating c) (review c)
    (page_count c) (cover_url c) (cover_image_path c) (isbn c) (barcode c) (series_group c)
    (created_at c) (updated_at c) (created_by c).

Definition set_age_rating (v : option string) (c : t) : t :=
  mk (id c) (title c) (series c) (alternate_series c) (number c) (count c) (volume c)
    (alternate_number c) (alternate_count c) (summary c) (notes c) (year c) (month c) (day c)
    (publisher c) (imprint c) (writer c) (penciller c) (inker c) (colorist c) (letterer c)
    (cover_artist c) (editor c) (translator c) (genre c) (tags c) (web c) v (language_iso c)
    (format c) (is_bw c) (manga c) (community_rating c) (review c) (page_count c) (cover_url c)
    (cover_image_path c) (isbn c) (barcode c) (series_group c) (created_at c) (updated_at c)
    (created_by c).

Definition set_language_iso (v : option string) (c : t) : t :=
  mk (id c) (title c) (series c) (alternate_series c) (number c) (count c) (volume c)
    (alternate_number c) (alternate_count c) (summary c) (notes c) (year c) (month c) (day c)
    (publisher c) (imprint c) (writer c) (penciller c) (inker c) (colorist c) (letterer c)
    (cover_artist c) (editor c) (translator c) (genre c) (tags c) (web c) (age_rating c) v
    (format c) (is_bw c) (manga c) (community_rating c) (review c) (page_count c) (cover_url c)
    (cover_image_path c) (isbn c) (barcode c) (series_group c) (created_at c) (updated_at c)
    (created_by c).

Definition set_format (v : option string) (c : t) : t :=
  mk (id c) (title c) (series c) (alternate_series c) (number c) (count c) (volume c)
    (alternate_number c) (alternate_count c) (summary c) (notes c) (year c) (month c) (day c)
    (publisher c) (imprint c) (writer c) (penciller c) (inker c) (colorist c) (letterer c)
    (cover_artist c) (editor c) (translator c) (genre c) (tags c) (web c) (age_rating c)
    (language_iso c) v (is_bw c) (manga c) (community_rating c) (review c) (page_count c)
    (cover_url c) (cover_image_path c) (isbn c) (barcode c) (series_group c) (created_at c)
    (updated_at c) (created_by c).

Definition set_is_bw (v : option bool) (c : t) : t :=
  mk (id c) (title c) (series c) (alternate_series c) (number c) (count c) (volume c)
    (alternate_number c) (alternate_count c) (summary c) (notes c) (year c) (month c) (day c)
    (publisher c) (imprint c) (writer c) (penciller c) (inker c) (colorist c) (letterer c)
    (cover_artist c) (editor c) (translator c) (genre c) (tags c) (web c) (age_rating c)
    (language_iso c) (format c) v (manga c) (community_rating c) (review c) (page_count c)
    (cover_url c) (cover_image_path c) (isbn c) (barcode c) (series_group c) (created_at c)
    (updated_at c) (created_by c).

Definition set_manga (v : option string) (c : t) : t :=
  mk (id c) (title c) (series c) (alternate_series c) (number c) (count c) (volume c)
    (alternate_number c) (alternate_count c) (summary c) (notes c) (year c) (month c) (day c)
    (publisher c) (imprint c) (writer c) (penciller c) (inker c) (colorist c) (letterer c)
    (cover_artist c) (editor c) (translator c) (genre c) (tags c) (web c) (age_rating c)
    (language_iso c) (format c) (is_bw c) v (community_rating c) (review c) (page_count c)
    (cover_url c) (cover_image_path c) (isbn c) (barcode c) (series_group c) (created_at c)
    (updated_at c) (created_by c).

Definition set_community_rating (v : option float) (c : t) : t :=
  mk (id c) (title c) (series c) (alternate_series c) (number c) (count c) (volume c)
    (alternate_number c) (alternate_count c) (summary c) (notes c) (year c) (month c) (day c)
    (publisher c) (imprint c) (writer c) (penciller c) (inker c) (colorist c) (letterer c)
    (cover_artist c) (editor c) (translator c) (genre c) (tags c) (web c) (age_rating c)
    (language_iso c) (format c) (is_bw c) (manga c) v (review c) (page_count c) (cover_url c)
    (cover_image_path c) (isbn c) (barcode c) (series_group c) (created_at c) (updated_at c)
    (created_by c).

Definition set_review (v : option string) (c : t) : t :=
  mk (id c) (title c) (series c) (alternate_series c) (number c) (count c) (volume c)
    (alternate_number c) (alternate_count c) (summary c) (notes c) (year c) (month c) (day c)
    (publisher c) (imprint c) (writer c) (penciller c) (inker c) (colorist c) (letterer c)
    (cover_artist c) (editor c) (translator c) (genre c) (tags c) (web c) (age_rating c)
    (language_iso c) (format c) (is_bw c) (manga c) (community_rating c) v (page_count c)
    (cover_url c) (cover_image_path c) (isbn c) (barcode c) (series_group c) (created_at c)
    (updated_at c) (created_by c).

Definition set_page_count (v : option Z) (c : t) : t :=
  mk (id c) (title c) (series c) (alternate_series c) (number c) (count c) (volume c)
    (alternate_number c) (alternate_count c) (summary c) (notes c) (year c) (month c) (day c)
    (publisher c) (imprint c) (writer c) (penciller c) (inker c) (colorist c) (letterer c)
    (cover_artist c) (editor c) (translator c) (genre c) (tags c) (web c) (age_rating c)
    (language_iso c) (format c) (is_bw c) (manga c) (community_rating c) (review c) v
    (cover_url c) (cover_image_path c) (isbn c) (barcode c) (series_group c) (created_at c)
    (updated_at c) (created_by c).

Definition set_cover_url (v : option string) (c : t) : t :=
  mk (id c) (title c) (series c) (alternate_series c) (number c) (count c) (volume c)
    (alternate_number c) (alternate_count c) (summary c) (notes c) (year c) (month c) (day c)
    (publisher c) (imprint c) (writer c) (penciller c) (inker c) (colorist c) (letterer c)
    (cover_artist c) (editor c) (translator c) (genre c) (tags c) (web c) (age_rating c)
    (language_iso c) (format c) (is_bw c) (manga c) (community_rating c) (review c)
    (page_count c) v (cover_image_path c) (isbn c) (barcode c) (series_group c) (created_at c)
    (updated_at c) (created_by c).

Definition set_isbn (v : option string) (c : t) : t :=
  mk (id c) (title c) (series c) (alternate_series c) (number c) (count c) (volume c)
    (alternate_number c) (alternate_count c) (summary c) (notes c) (year c) (month c) (day c)
    (publisher c) (imprint c) (writer c) (penciller c) (inker c) (colorist c) (letterer c)
    (cover_artist c) (editor c) (translator c) (genre c) (tags c) (web c) (age_rating c)
    (language_iso c) (format c) (is_bw c) (manga c) (community_rating c) (review c)
    (page_count c) (cover_url c) (cover_image_path c) v (barcode c) (series_group c)
    (created_at c) (updated_at c) (created_by c).

Definition set_barcode (v : option string) (c : t) : t :=
  mk (id c) (title c) (series c) (alternate_series c) (number c) (count c) (volume c)
    (alternate_number c) (alternate_count c) (summary c) (notes c) (year c) (month c) (day c)
    (publisher c) (imprint c) (writer c) (penciller c) (inker c) (colorist c) (letterer c)
    (cover_artist c) (editor c) (translator c) (genre c) (tags c) (web c) (age_rating c)
    (language_iso c) (format c) (is_bw c) (manga c) (community_rating c) (review c)
    (page_count c) (cover_url c) (cover_image_path c) (isbn c) v (series_group c) (created_at c)
    (updated_at c) (created_by c).

Definition set_series_group (v : option string) (c : t) : t :=
  mk (id c) (title c) (series c) (alternate_series c) (number c) (count c) (volume c)
    (alternate_number c) (alternate_count c) (summary c) (notes c) (year c) (month c) (day c)
    (publisher c) (imprint c) (writer c) (penciller c) (inker c) (colorist c) (letterer c)
    (cover_artist c) (editor c) (translator c) (genre c) (tags c) (web c) (age_rating c)
    (language_iso c) (format c) (is_bw c) (manga c) (community_rating c) (review c)
    (page_count c) (cover_url c) (cover_image_path c) (isbn c) (barcode c) v (created_at c)
    (updated_at c) (created_by c).

Definition set_updated_at (v : datetime) (c : t) : t :=
  mk (id c) (title c) (series c) (alternate_series c) (number c) (count c) (volume c)
    (alternate_number c) (alternate_count c) (summary c) (notes c) (year c) (month c) (day c)
    (publisher c) (imprint c) (writer c) (penciller c) (inker c) (colorist c) (letterer c)
    (cover_artist c) (editor c) (translator c) (genre c) (tags c) (web c) (age_rating c)
    (language_iso c) (format c) (is_bw c) (manga c) (community_rating c) (review c)
    (page_count c) (cover_url c) (cover_image_path c) (isbn c) (barcode c) (series_group c)
    (created_at c) v (created_by c).

(** [getattr(comic, key)]: [None] is Python's [None]. *)
Definition getattr (c : t) (key : Attr.t) : option value :=
  match key with
  | Attr.title => Some (VStr (title c))
  | Attr.series => option_map VStr (series c)
  | Attr.alternate_series => option_map VStr (alternate_series c)
  | Attr.number => option_map VStr (number c)
  | Attr.count => option_map VInt (count c)
  | Attr.volume => option_map VInt (volume c)
  | Attr.alternate_number => option_map VStr (alternate_number c)
  | Attr.alternate_count => option_map VInt (alternate_count c)
  | Attr.summary => option_map VStr (summary c)
  | Attr.notes => option_map VStr (notes c)
  | Attr.year => option_map VInt (year c)
  | Attr.month => option_map VInt (month c)
  | Attr.day => option_map VInt (day c)
  | Attr.publisher => option_map VStr (publisher c)
  | Attr.imprint => option_map VStr (imprint c)
  | Attr.writer => option_map VStr (writer c)
  | Attr.penciller => option_map VStr (penciller c)
  | Attr.inker => option_map VStr (inker c)
  | Attr.colorist => option_map VStr (colorist c)
  | Attr.letterer => option_map VStr (letterer c)
  | Attr.cover_artist => option_map VStr (cover_artist c)
  | Attr.editor => option_map VStr (editor c)
  | Attr.translator => option_map VStr (translator c)
  | Attr.genre => option_map VStr (genre c)
  | Attr.tags => option_map VStr (tags c)
  | Attr.web => option_map VStr (web c)
  | Attr.age_rating => option_map VStr (age_rating c)
  | Attr.language_iso => option_map VStr (language_iso c)
  | Attr.format => option_map VStr (format c)
  | Attr.is_bw => option_map VBool (is_bw c)
  | Attr.manga => option_map VStr (manga c)
  | Attr.community_rating => option_map VFloat (community_rating c)
  | Attr.review => option_map VStr (review c)
  | Attr.page_count => option_map VInt (page_count c)
  | Attr.cover_url => option_map VStr (cover_url c)
  | Attr.isbn => option_map VStr (isbn c)
  | Attr.barcode => option_map VStr (barcode c)
  | Attr.series_group => option_map VStr (series_group c)
  end.

(** [setattr(comic, key, value)].  The values come from a validated
    [ComicUpdate], so a value always has the type of its column; on any
    other pair the model leaves the row as it is. *)
Definition setattr (c : t) (key : Attr.t) (v : value) : t :=
  match key, v with
  | Attr.title, VStr s => set_title s c
  | Attr.series, VStr s => set_series (Some s) c
  | Attr.alternate_series, VStr s => set_alternate_series (Some s) c
  | Attr.number, VStr s => set_number (Some s) c
  | Attr.count, VInt z => set_count (Some z) c
  | Attr.volume, VInt z => set_volume (Some z) c
  | Attr.alternate_number, VStr s => set_alternate_number (Some s) c
  | Attr.alternate_count, VInt z => set_alternate_count (Some z) c
  | Attr.summary, VStr s => set_summary (Some s) c
  | Attr.notes, VStr s => set_notes (Some s) c
  | Attr.year, VInt z => set_year (Some z) c
  | Attr.month, VInt z => set_month (Some z) c
  | Attr.day, VInt z => set_day (Some z) c
  | Attr.publisher, VStr s => set_publisher (Some s) c
  | Attr.imprint, VStr s => set_imprint (Some s) c
  | Attr.writer, VStr s => set_writer (Some s) c
  | Attr.penciller, VStr s => set_penciller (Some s) c
  | Attr.inker, VStr s => set_inker (Some s) c
  | Attr.colorist, VStr s => set_colorist (Some s) c
  | Attr.letterer, VStr s => set_letterer (Some s) c
  | Attr.cover_artist, VStr s => set_cover_artist (Some s) c
  | Attr.editor, VStr s => set_editor (Some s) c
  | Attr.translator, VStr s => set_translator (Some s) c
  | Attr.genre, VStr s => set_genre (Some s) c
  | Attr.tags, VStr s => set_tags (Some s) c
  | Attr.web, VStr s => set_web (Some s) c
  | Attr.age_rating, VStr s => set_age_rating (Some s) c
  | Attr.language_iso, VStr s => set_language_iso (Some s) c
  | Attr.format, VStr s => set_format (Some s) c
  | Attr.is_bw, VBool b => set_is_bw (Some b) c
  | Attr.manga, VStr s => set_manga (Some s) c
  | Attr.community_rating, VFloat f => set_community_rating (Some f) c
  | Attr.review, VStr s => set_review (Some s) c
  | Attr.page_count, VInt z => set_page_count (Some z) c
  | Attr.cover_url, VStr s => set_cover_url (Some s) c
  | Attr.isbn, VStr s => set_isbn (Some s) c
  | Attr.barcode, VStr s => set_barcode (Some s) c
  | Attr.series_group, VStr s => set_series_group (Some s) c
  | _, _ => c
  end.
End Comic.

(** [ComicUpdate] ([app/schemas/schemas.py]): every field optional.
  [model_fields_set] records which fields the body named, whether with a
  value or with [null]. *)
Module ComicUpdate.
Record t : Type := mk {
  title : option string;
  series : option string;
  alternate_series : option string;
  number : option string;
  count : option Z;
  volume : option Z;
  alternate_number : option string;
  alternate_count : option Z;
  summary : option string;
  notes : option string;
  year : option Z;
  month : option Z;
  day : option Z;
  publisher : option string;
  imprint : option string;
  writer : option string;
  penciller : option string;
  inker : option string;
  colorist : option string;
  letterer : option string;
  cover_artist : option string;
  editor : option string;
  translator : option string;
  genre : option string;
  tags : option string;
  web : option string;
  age_rating : option string;
  language_iso : option string;
  format : option string;
  is_bw : option bool;
  manga : option string;
  community_rating : option float;
  review : option string;
  page_count : option Z;
  cover_url : option string;
  isbn : option string;
  barcode : option string;
  series_group : option string;
  model_fields_set : list Attr.t
}.

Definition get (p : t) (key : Attr.t) : option value :=
  match key with
  | Attr.title => option_map VStr (title p)
  | Attr.series => option_map VStr (series p)
  | Attr.alternate_series => option_map VStr (alternate_series p)
  | Attr.number => option_map VStr (number p)
  | Attr.count => option_map VInt (count p)
  | Attr.volume => option_map VInt (volume p)
  | Attr.alternate_number => option_map VStr (alternate_number p)
  | Attr.alternate_count => option_map VInt (alternate_count p)
  | Attr.summary => option_map VStr (summary p)
  | Attr.notes => option_map VStr (notes p)
  | Attr.year => option_map VInt (year p)
  | Attr.month => option_map VInt (month p)
  | Attr.day => option_map VInt (day p)
  | Attr.publisher => option_map VStr (publisher p)
  | Attr.imprint => option_map VStr (imprint p)
  | Attr.writer => option_map VStr (writer p)
  | Attr.penciller => option_map VStr (penciller p)
  | Attr.inker => option_map VStr (inker p)
  | Attr.colorist => option_map VStr (colorist p)
  | Attr.letterer => option_map VStr (letterer p)
  | Attr.cover_artist => option_map VStr (cover_artist p)
  | Attr.editor => option_map VStr (editor p)
  | Attr.translator => option_map VStr (translator p)
  | Attr.genre => option_map VStr (genre p)
  | Attr.tags => option_map VStr (tags p)
  | Attr.web => option_map VStr (web p)
  | Attr.age_rating => option_map VStr (age_rating p)
  | Attr.language_iso => option_map VStr (language_iso p)
  | Attr.format => option_map VStr (format p)
  | Attr.is_bw => option_map VBool (is_bw p)
  | Attr.manga => option_map VStr (manga p)
  | Attr.community_rating => option_map VFloat (community_rating p)
  | Attr.review => option_map VStr (review p)
  | Attr.page_count => option_map VInt (page_count p)
  | Attr.cover_url => option_map VStr (cover_url p)
  | Attr.isbn => option_map VStr (isbn p)
  | Attr.barcode => option_map VStr (barcode p)
  | Attr.series_group => option_map VStr (series_group p)
  end.
End ComicUpdate.

(** ** The columns of [comics] ([app/models/models.py]) *)

(** The declared type of a column: [String(n)], [Text], [Integer], [Float]
    and [Boolean], under the names the store knows them by. *)
Inductive column_type : Type :=
| VARCHAR (n : nat)
| TEXT
| INTEGER
| FLOAT
| BOOLEAN.

(** The column behind each attribute a PATCH body may carry. *)
Definition column (key : Attr.t) : column_type :=
  match key with
  | Attr.title => VARCHAR 500
  | Attr.series => VARCHAR 500
  | Attr.alternate_series => VARCHAR 500
  | Attr.number => VARCHAR 50
  | Attr.count => INTEGER
  | Attr.volume => INTEGER
  | Attr.alternate_number => VARCHAR 50
  | Attr.alternate_count => INTEGER
  | Attr.summary => TEXT
  | Attr.notes => TEXT
  | Attr.year => INTEGER
  | Attr.month => INTEGER
  | Attr.day => INTEGER
  | Attr.publisher => VARCHAR 255
  | Attr.imprint => VARCHAR 255
  | Attr.writer => VARCHAR 500
  | Attr.penciller => VARCHAR 500
  | Attr.inker => VARCHAR 500
  | Attr.colorist => VARCHAR 500
  | Attr.letterer => VARCHAR 500
  | Attr.cover_artist => VARCHAR 500
  | Attr.editor => VARCHAR 500
  | Attr.translator => VARCHAR 500
  | Attr.genre => VARCHAR 500
  | Attr.tags => TEXT
  | Attr.web => VARCHAR 500
  | Attr.age_rating => VARCHAR 50
  | Attr.language_iso => VARCHAR 10
  | Attr.format => VARCHAR 100
  | Attr.is_bw => BOOLEAN
  | Attr.manga => VARCHAR 50
  | Attr.community_rating => FLOAT
  | Attr.review => TEXT
  | Attr.page_count => INTEGER
  | Attr.cover_url => VARCHAR 1000
  | Attr.isbn => VARCHAR 20
  | Attr.barcode => VARCHAR 50
  | Attr.series_group => VARCHAR 500
  end.

(** What a column takes: a text has no NUL character, [String(n)] holds at
    most [n] characters and [Integer] is a signed 32-bit number; [Float] and
    [Boolean] take every value of their type. *)
Definition fits (t : column_type) (v : value) : bool :=
  match t, v with
  | VARCHAR n, VStr s => nul_free s && Nat.leb (len s) n
  | TEXT, VStr s => nul_free s
  | INTEGER, VInt z => int32 z
  | FLOAT, VFloat _ => true
  | BOOLEAN, VBool _ => true
  | _, _ => false
  end.

Definition fits_String (n : nat) (v : option string) : bool :=
  match v with
  | Some s => fits (VARCHAR n) (VStr s)
  | None => true
  end.

Definition fits_Text (v : option string) : bool :=
  match v with
  | Some s => fits TEXT (VStr s)
  | None => true
  end.

Definition fits_Integer (v : option Z) : bool :=
  match v with
  | Some z => int32 z
  | None => true
  end.

(** A whole row, column by column in the order of the table. *)
Definition fits_columns (c : Comic.t) : bool :=
  fits_String 500 (Some (Comic.title c))
  && fits_String 500 (Comic.series c)
  && fits_String 500 (Comic.alternate_series c)
  && fits_String 50 (Comic.number c)
  && fits_Integer (Comic.count c)
  && fits_Integer (Comic.volume c)
  && fits_String 50 (Comic.alternate_number c)
  && fits_Integer (Comic.alternate_count c)
  && fits_Text (Comic.summary c)
  && fits_Text (Comic.notes c)
  && fits_Integer (Comic.year c)
  && fits_Integer (Comic.month c)
  && fits_Integer (Comic.day c)
  && fits_String 255 (Comic.publisher c)
  && fits_String 255 (Comic.imprint c)
  && fits_String 500 (Comic.writer c)
  && fits_String 500 (Comic.penciller c)
  && fits_String 500 (Comic.inker c)
  && fits_String 500 (Comic.colorist c)
  && fits_String 500 (Comic.letterer c)
  && fits_String 500 (Comic.cover_artist c)
  && fits_String 500 (Comic.editor c)
  && fits_String 500 (Comic.translator c)
  && fits_String 500 (Comic.genre c)
  && fits_Text (Comic.tags c)
  && fits_String 500 (Comic.web c)
  && fits_String 50 (Comic.age_rating c)
  && fits_String 10 (Comic.language_iso c)
  && fits_String 100 (Comic.format c)
  && fits_String 50 (Comic.manga c)
  && fits_Text (Comic.review c)
  && fits_Integer (Comic.page_count c)
  && fits_String 1000 (Comic.cover_url c)
  && fits_String 500 (Comic.cover_image_path c)
  && fits_String 20 (Comic.isbn c)
  && fits_String 50 (Comic.barcode c)
  && fits_String 500 (Comic.series_group c).

(** ** The persistence store

    One table per mapped class, rows in insertion order.  The store is the
    committed state: a handler that raises before its [commit] leaves it as
    it found it. *)

Record Db : Type := mkDb {
  users : list User.t;
  api_keys : list ApiKey.t;
  comics : list Comic.t
}.

Definition set_users (v : list User.t) (db : Db) : Db :=
  mkDb v (api_keys db) (comics db).

Definition set_api_keys (v : list ApiKey.t) (db : Db) : Db :=
  mkDb (users db) v (comics db).

Definition set_comics (v : list Comic.t) (db : Db) : Db :=
  mkDb (users db) (api_keys db) v.

(** ** The handler monad: state (the store) and errors *)

Definition M (A : Type) : Type := Db -> outcome A * Db.

Definition ret {A : Type} (a : A) : M A := fun db => (Ok a, db).

Definition bind {A B : Type} (m : M A) (k : A -> M B) : M B :=
  fun db =>
    match m db with
    | (Ok a, db') => k a db'
    | (HTTPException status_code detail, db') => (HTTPException status_code detail, db')
    | (RequestValidationError, db') => (RequestValidationError, db')
    | (Unhandled e, db') => (Unhandled e, db')
    end.

(** [raise HTTPException(status_code=..., detail=...)] *)
Definition raise {A : Type} (status_code : Z) (detail : string) : M A :=
  fun db => (HTTPException status_code detail, db).

Definition throw {A : Type} (e : exception) : M A :=
  fun db => (Unhandled e, db).

Declare Scope handler_scope.
Delimit Scope handler_scope with handler.

Notation "x <- m ;; k" := (bind m (fun x => k))
  (at level 61, m at next level, right associativity) : handler_scope.
Notation "m ;;; k" := (bind m (fun _ => k))
  (at level 61, right associativity) : handler_scope.

Local Open Scope handler_scope.

(** *** Queries *)

(** [db.execute(select(T).where(...))] on each table. *)
Definition select_users (where_ : User.t -> bool) : M (list User.t) :=
  fun db => (Ok (filter where_ (users db)), db).

Definition select_api_keys (where_ : ApiKey.t -> bool) : M (list ApiKey.t) :=
  fun db => (Ok (filter where_ (api_keys db)), db).

Definition select_comics (where_ : Comic.t -> bool) : M (list Comic.t) :=
  fun db => (Ok (filter where_ (comics db)), db).

(** [result.scalar_one_or_none()]: the row, [None] when there is none, and
    [MultipleResultsFound] when the query selected more than one. *)
Definition scalar_one_or_none {A : Type} (rows : list A) : M (option A) :=
  match rows with
  | [] => ret None
  | [r] => ret (Some r)
  | _ :: _ :: _ => throw MultipleResultsFound
  end.

(** *** Writes, as flushed by [db.commit()] *)

(** INSERT into [users]: primary key, unique [username], unique [email]. *)
Definition insert_user (u : User.t) : M unit :=
  fun db =>
    if existsb (fun x => String.eqb (User.id x) (User.id u)
                         || String.eqb (User.username x) (User.username u)
                         || String.eqb (User.email x) (User.email u)) (users db)
    then (Unhandled IntegrityError, db)
    else (Ok tt, set_users (users db ++ [u]) db).

(** The three texts of a row of [api_keys] in their columns: [String(100)],
    [String(64)] and [String(10)]. *)
Definition fits_key (k : ApiKey.t) : bool :=
  fits (VARCHAR 100) (VStr (ApiKey.name k))
  && fits (VARCHAR 64) (VStr (ApiKey.key_hash k))
  && fits (VARCHAR 10) (VStr (ApiKey.key_prefix k)).

(** INSERT into [api_keys]: the store refuses a row with a text that does
    not fit its column, then checks the primary key and the unique
    [key_hash]. *)
Definition insert_api_key (k : ApiKey.t) : M unit :=
  fun db =>
    if negb (fits_key k) then (Unhandled DBAPIError, db)
    else if existsb (fun x => String.eqb (ApiKey.id x) (ApiKey.id k)
                              || String.eqb (ApiKey.key_hash x) (ApiKey.key_hash k))
              (api_keys db)
    then (Unhandled IntegrityError, db)
    else (Ok tt, set_api_keys (api_keys db ++ [k]) db).

(** UPDATE of the row of [api_keys] with the primary key of [k]. *)
Definition update_api_key (k : ApiKey.t) : M unit :=
  fun db =>
    (Ok tt,
     set_api_keys
       (map (fun x => if String.eqb (ApiKey.id x) (ApiKey.id k) then k else x) (api_keys db))
       db).

(** DELETE of the row of [comics] with the primary key of [c]. *)
Definition delete_comic_row (c : Comic.t) : M unit :=
  fun db =>
    (Ok tt,
     set_comics
       (filter (fun x => negb (String.eqb (Comic.id x) (Comic.id c))) (comics db))
       db).

(** The uniqueness constraints the tables declare. *)
Record db_wf (db : Db) : Prop := mk_db_wf {
  wf_user_id : NoDup (map User.id (users db));
  wf_username : NoDup (map User.username (users db));
  wf_email : NoDup (map User.email (users db));
  wf_key_id : NoDup (map ApiKey.id (api_keys db));
  wf_key_hash : NoDup (map ApiKey.key_hash (api_keys db));
  wf_comic_id : NoDup (map Comic.id (comics db))
}.

(** ** Credentials ([app/core/security.py], [app/core/deps.py]) *)

(** A claim of a decoded token. *)
Inductive jvalue : Type :=
| JString (s : string)
| JNumber (n : Z).

(** The decoded claims, a [dict]. *)
Definition payload : Type := list (string * jvalue).

Fixpoint payload_get (key : string) (p : payload) : option jvalue :=
  match p with
  | [] => None
  | (k, v) :: p' => if String.eqb k key then Some v else payload_get key p'
  end.

Definition truthy_payload (p : payload) : bool :=
  match p with
  | [] => false
  | _ :: _ => true
  end.

Definition truthy_jvalue (v : jvalue) : bool :=
  match v with
  | JString s => truthy_str s
  | JNumber n => truthy_int n
  end.

(** [User.id == user_id], the subject of the token against the text of the
    primary key.  [login] mints string subjects only; a number is the text of
    no key. *)
Definition id_matches (id : uuid) (user_id : jvalue) : bool :=
  match user_id with
  | JString s => String.eqb id s
  | JNumber _ => false
  end.

Section Credentials.

(** [jwt.decode(token, settings.SECRET_KEY, algorithms=[settings.ALGORITHM])]
    of python-jose: the claims, or [None] where it raises [JWTError]. *)
Variable jwt_decode : string -> option payload.

(** [hashlib.sha256(s.encode()).hexdigest()]. *)
Variable sha256_hexdigest : string -> string.

Definition decode_access_token (token : string) : option payload :=
  match jwt_decode token with
  | Some payload => Some payload
  | None => None
  end.

Definition hash_api_key (api_key : string) : string :=
  sha256_hexdigest api_key.

(** [credentials] is the token of the [Authorization: Bearer] header, [None]
    when the request carries none. *)
Definition get_current_user_from_token (credentials : option string) : M (option User.t) :=
  match credentials with
  | None => ret None
  | Some token =>
    match decode_access_token token with
    | None => ret None
    | Some payload =>
      if negb (truthy_payload payload) then ret None
      else
        match payload_get "sub" payload with
        | None => ret None
        | Some user_id =>
          if negb (truthy_jvalue user_id) then ret None
          else
            result <- select_users
                        (fun u => id_matches (User.id u) user_id
                                  && Bool.eqb (User.is_active u) true) ;;
            scalar_one_or_none result
        end
    end
  end.

(** [api_key] is the value of the [X-API-Key] header; [now] is the reading of
    the clock the function takes. *)
Definition get_current_user_from_api_key (api_key : option string) (now : datetime)
  : M (option User.t) :=
  if negb (truthy_opt truthy_str api_key) then ret None
  else
    match api_key with
    | None => ret None
    | Some api_key =>
      let key_hash := hash_api_key api_key in
      result <- select_api_keys
                  (fun k => String.eqb (ApiKey.key_hash k) key_hash
                            && Bool.eqb (ApiKey.is_active k) true) ;;
      api_key_obj <- scalar_one_or_none result ;;
      match api_key_obj with
      | None => ret None
      | Some api_key_obj =>
        if match ApiKey.expires_at api_key_obj with
           | Some expires_at => expires_at <? now
           | None => false
           end
        then ret None
        else
          (* Update last_used_at *)
          let api_key_obj := ApiKey.set_last_used_at (Some now) api_key_obj in
          update_api_key api_key_obj ;;;
          (* Load user *)
          result <- select_users
                      (fun u => String.eqb (User.id u) (ApiKey.user_id api_key_obj)
                                && Bool.eqb (User.is_active u) true) ;;
          scalar_one_or_none result
      end
    end.

Definition get_current_user (token_user api_key_user : option User.t) : M User.t :=
  let user := py_or token_user api_key_user in
  match user with
  | None => raise HTTP_401_UNAUTHORIZED "Not authenticated"
  | Some user => ret user
  end.

Definition get_current_admin (current_user : User.t) : M User.t :=
  if negb (User.is_admin current_user)
  then raise HTTP_403_FORBIDDEN "Admin access required"
  else ret current_user.

(** The dependency graph of [Depends(get_current_user)] as the framework
    solves it: both sub-dependencies run, in parameter order, and then the
    function itself. *)
Definition current_user_dependency
    (credentials api_key : option string) (now : datetime) : M User.t :=
  token_user <- get_current_user_from_token credentials ;;
  api_key_user <- get_current_user_from_api_key api_key now ;;
  get_current_user token_user api_key_user.

End Credentials.

(** ** Registration ([app/api/auth.py]) *)

(** Request schemas of [app/schemas/schemas.py]; a value of these types has
    passed the validation of the schema. *)
Module UserRegister.
Record t : Type := mk {
  username : string;
  email : string;
  password : string
}.
End UserRegister.

Section Auth.

(** [pwd_context.hash] of passlib (bcrypt). *)
Variable hash_password : string -> string.

(** [new_id] is the [uuid4] drawn for the primary key and [now] the clock
    reading of the column defaults. *)
Definition register (payload : UserRegister.t) (new_id : uuid) (now : datetime)
  : M User.t :=
  (* Check uniqueness *)
  result <- select_users
              (fun u => String.eqb (User.username u) (UserRegister.username payload)
                        || String.eqb (User.email u) (UserRegister.email payload)) ;;
  existing <- scalar_one_or_none result ;;
  match existing with
  | Some existing =>
    if String.eqb (User.username existing) (UserRegister.username payload)
    then raise 400 "Username already taken"
    else raise 400 "Email already registered"
  | None =>
    let user :=
      User.mk new_id (UserRegister.username payload) (UserRegister.email payload)
        (hash_password (UserRegister.password payload)) true false now now in
    insert_user user ;;;
    ret user
  end.

End Auth.

(** ** API keys ([app/api/api_keys.py]) *)

Module ApiKeyCreate.
Record t : Type := mk {
  name : string;
  expires_at : option datetime
}.
End ApiKeyCreate.

(** [ApiKeyCreated]: the fields of [ApiKeyOut] and the full key. *)
Module ApiKeyCreated.
Record t : Type := mk {
  id : uuid;
  name : string;
  key_prefix : string;
  is_active : bool;
  last_used_at : option datetime;
  created_at : datetime;
  expires_at : option datetime;
  full_key : string
}.
End ApiKeyCreated.

(** [settings.API_KEY_PREFIX] ([app/core/config.py]). *)
Definition API_KEY_PREFIX : string := "mng_".

(** [generate_api_key]; [random_part] is the string of 48 characters drawn
    with [secrets.choice]. *)
Definition generate_api_key (random_part : string) : string :=
  API_KEY_PREFIX ++ random_part.

Section ApiKeys.

Variable sha256_hexdigest : string -> string.

Definition create_api_key (payload : ApiKeyCreate.t) (current_user : User.t)
    (random_part : string) (new_id : uuid) (now : datetime) : M ApiKeyCreated.t :=
  (* Limit to 10 active keys per user *)
  active_keys <- select_api_keys
                   (fun k => String.eqb (ApiKey.user_id k) (User.id current_user)
                             && Bool.eqb (ApiKey.is_active k) true) ;;
  if Nat.leb 10 (List.length active_keys)
  then raise 400 "Maximum 10 active API keys per user"
  else
    let full_key := generate_api_key random_part in
    let key_hash := hash_api_key sha256_hexdigest full_key in
    let api_key :=
      ApiKey.mk new_id (User.id current_user) (ApiKeyCreate.name payload) key_hash
        (substring 0 10 full_key) true None now (ApiKeyCreate.expires_at payload) in
    insert_api_key api_key ;;;
    ret (ApiKeyCreated.mk (ApiKey.id api_key) (ApiKey.name api_key)
           (ApiKey.key_prefix api_key) (ApiKey.is_active api_key)
           (ApiKey.last_used_at api_key) (ApiKey.created_at api_key)
           (ApiKey.expires_at api_key) full_key).

End ApiKeys.

Section Revocation.

(** The driver's reading of a text that is bound against a [UUID] column:
    the [uuid.UUID] the text spells, [None] where the driver refuses it. *)
Variable uuid_of_str : string -> option uuid.

(** A [str] compared with a [UUID(as_uuid=True)] column: the statement is
    not run when the driver refuses the text. *)
Definition bind_uuid (s : string) : M uuid :=
  match uuid_of_str s with
  | Some id => ret id
  | None => throw DBAPIError
  end.

(** [key_id] is the path parameter, declared [str]: the framework hands it
    on as it came. *)
Definition revoke_api_key (key_id : string) (current_user : User.t) : M unit :=
  id <- bind_uuid key_id ;;
  result <- select_api_keys
              (fun k => String.eqb (ApiKey.id k) id
                        && String.eqb (ApiKey.user_id k) (User.id current_user)) ;;
  api_key <- scalar_one_or_none result ;;
  match api_key with
  | None => raise 404 "API key not found"
  | Some api_key => update_api_key (ApiKey.set_is_active false api_key)
  end.

End Revocation.

(** ** The search query ([app/api/comics.py]) *)

Module SearchParams.
Record t : Type := mk {
  q : option string;
  series : option string;
  publisher : option string;
  writer : option string;
  genre : option string;
  year_from : option Z;
  year_to : option Z;
  language : option string;
  manga : option string;
  age_rating : option string;
  page : Z;
  page_size : Z;
  sort_by : string;
  sort_order : string
}.
End SearchParams.

(** *** The SQL expressions the compiler emits, and what the store makes of them *)

(** The text columns of [comics] that a filter names. *)
Inductive text_column : Type :=
| col_title
| col_series
| col_summary
| col_writer
| col_publisher
| col_genre
| col_language_iso
| col_manga
| col_age_rating.

Definition text_of (col : text_column) (c : Comic.t) : option string :=
  match col with
  | col_title => Some (Comic.title c)
  | col_series => Comic.series c
  | col_summary => Comic.summary c
  | col_writer => Comic.writer c
  | col_publisher => Comic.publisher c
  | col_genre => Comic.genre c
  | col_language_iso => Comic.language_iso c
  | col_manga => Comic.manga c
  | col_age_rating => Comic.age_rating c
  end.

#[warnings="-register-all"]
Inductive clause : Type :=
| ilike (col : text_column) (pattern : string)   (* col.ilike(pattern) *)
| or_ (clauses : list clause)                    (* or_(...) *)
| year_ge (v : Z)                                (* Comic.year >= v *)
| year_le (v : Z)                                (* Comic.year <= v *)
| eq_ (col : text_column) (v : string).          (* col == v *)

(** Whether a text starts at a character: it is empty, or its first byte is
    not a continuation byte. *)
Definition at_char (s : string) : bool :=
  match s with
  | EmptyString => true
  | String c _ => negb (continuation c)
  end.

(** What is left of a text after the continuation bytes at its head. *)
Fixpoint skip_continuation (s : string) : string :=
  match s with
  | EmptyString => EmptyString
  | String c s' => if continuation c then skip_continuation s' else s
  end.

(** [test] holds of what is left of [s] after some of its characters: of
    [s] itself if [here], or of the text from a later character on. *)
Fixpoint scan (test : string -> bool) (here : bool) (s : string) : bool :=
  (here && test s)
  || match s with
     | EmptyString => false
     | String _ s' => scan test (at_char s') s'
     end.

(** [s LIKE p]: in the pattern [%] stands for any run of characters, [_]
    for any one character, and a backslash makes the next character literal.
    The patterns of [build_search_query] end with [%], so none ends with a
    lone backslash, which the store refuses. *)
Fixpoint like_match (p s : string) : bool :=
  match p with
  | EmptyString =>
    match s with
    | EmptyString => true
    | String _ _ => false
    end
  | String c p' =>
    if Ascii.eqb c "%" then scan (like_match p') true s
    else if Ascii.eqb c "_" then
      match s with
      | EmptyString => false
      | String _ s' => like_match p' (skip_continuation s')
      end
    else if Ascii.eqb c "\" then
      match p' with
      | EmptyString => false
      | String c' p'' =>
        match s with
        | EmptyString => false
        | String x s' => Ascii.eqb c' x && like_match p'' s'
        end
      end
    else
      match s with
      | EmptyString => false
      | String x s' => Ascii.eqb c x && like_match p' s'
      end
  end.

Section Collation.

(** [lower()] of the store under the collation of the database. *)
Variable lower : string -> string.

(** [s ILIKE p]: the store folds both operands with [lower] and matches
    them with LIKE. *)
Definition ilike_match (p s : string) : bool := like_match (lower p) (lower s).

(** SQL's three-valued connectives; [None] is NULL. *)
Definition or3 (a b : option bool) : option bool :=
  match a, b with
  | Some true, _ => Some true
  | _, Some true => Some true
  | Some false, Some false => Some false
  | _, _ => None
  end.

Definition and3 (a b : option bool) : option bool :=
  match a, b with
  | Some false, _ => Some false
  | _, Some false => Some false
  | Some true, Some true => Some true
  | _, _ => None
  end.

Fixpoint eval (c : Comic.t) (e : clause) : option bool :=
  match e with
  | ilike col pattern => option_map (ilike_match pattern) (text_of col c)
  | or_ clauses =>
    (fix disj (l : list clause) : option bool :=
       match l with
       | [] => Some false
       | e' :: l' => or3 (eval c e') (disj l')
       end) clauses
  | year_ge v => option_map (fun y => v <=? y) (Comic.year c)
  | year_le v => option_map (fun y => y <=? v) (Comic.year c)
  | eq_ col v => option_map (fun s => String.eqb s v) (text_of col c)
  end.

(** [and_( *filters )] *)
Fixpoint and_ (c : Comic.t) (filters : list clause) : option bool :=
  match filters with
  | [] => Some true
  | e :: l => and3 (eval c e) (and_ c l)
  end.

(** A WHERE clause keeps the rows on which it is true (not false, not NULL). *)
Definition is_true (v : option bool) : bool :=
  match v with
  | Some true => true
  | _ => false
  end.

End Collation.

(** *** What the driver and the store take as parameters of a statement *)

(** The value bound in [Comic.year >= v] is an [Integer], a signed 32-bit
    number; a text is bound as it is, and the store takes it if it has no
    NUL character. *)
Fixpoint binds (e : clause) : bool :=
  match e with
  | ilike _ pattern => nul_free pattern
  | or_ clauses =>
    (fix all (l : list clause) : bool :=
       match l with
       | [] => true
       | e' :: l' => binds e' && all l'
       end) clauses
  | year_ge v => int32 v
  | year_le v => int32 v
  | eq_ _ v => nul_free v
  end.

(** *** [build_search_query] *)

Definition build_search_query (params : SearchParams.t) : list clause :=
  let filters := [] in
  let filters :=
    match SearchParams.q params with
    | Some v =>
      if truthy_str v then
        let q := ("%" ++ v ++ "%")%string in
        filters ++ [or_ [ilike col_title q;
                         ilike col_series q;
                         ilike col_summary q;
                         ilike col_writer q;
                         ilike col_publisher q]]
      else filters
    | None => filters
    end in
  let filters :=
    match SearchParams.series params with
    | Some v => if truthy_str v then filters ++ [ilike col_series ("%" ++ v ++ "%")%string] else filters
    | None => filters
    end in
  let filters :=
    match SearchParams.publisher params with
    | Some v => if truthy_str v then filters ++ [ilike col_publisher ("%" ++ v ++ "%")%string] else filters
    | None => filters
    end in
  let filters :=
    match SearchParams.writer params with
    | Some v => if truthy_str v then filters ++ [ilike col_writer ("%" ++ v ++ "%")%string] else filters
    | None => filters
    end in
  let filters :=
    match SearchParams.genre params with
    | Some v => if truthy_str v then filters ++ [ilike col_genre ("%" ++ v ++ "%")%string] else filters
    | None => filters
    end in
  let filters :=
    match SearchParams.year_from params with
    | Some v => if truthy_int v then filters ++ [year_ge v] else filters
    | None => filters
    end in
  let filters :=
    match SearchParams.year_to params with
    | Some v => if truthy_int v then filters ++ [year_le v] else filters
    | None => filters
    end in
  let filters :=
    match SearchParams.language params with
    | Some v => if truthy_str v then filters ++ [eq_ col_language_iso v] else filters
    | None => filters
    end in
  let filters :=
    match SearchParams.manga params with
    | Some v => if truthy_str v then filters ++ [eq_ col_manga v] else filters
    | None => filters
    end in
  let filters :=
    match SearchParams.age_rating params with
    | Some v => if truthy_str v then filters ++ [eq_ col_age_rating v] else filters
    | None => filters
    end in
  filters.

(** *** SELECT statements on [comics] *)

(** The value of a sort column in a row; [KNull] is NULL. *)
Inductive sort_key : Type :=
| KNull
| KStr (s : string)
| KInt (z : Z)
| KFloat (f : float).

Definition opt_key {A : Type} (k : A -> sort_key) (o : option A) : sort_key :=
  match o with
  | None => KNull
  | Some a => k a
  end.

(** [getattr(Comic, params.sort_by)] *)
Definition sort_column (sort_by : string) (c : Comic.t) : sort_key :=
  if String.eqb sort_by "title" then KStr (Comic.title c)
  else if String.eqb sort_by "year" then opt_key KInt (Comic.year c)
  else if String.eqb sort_by "publisher" then opt_key KStr (Comic.publisher c)
  else if String.eqb sort_by "community_rating" then opt_key KFloat (Comic.community_rating c)
  else if String.eqb sort_by "created_at" then KInt (Comic.created_at c)
  else KNull.

(** Ascending order of the store: NULL sorts after every value. *)
Definition key_leb (a b : sort_key) : bool :=
  match a, b with
  | _, KNull => true
  | KNull, _ => false
  | KStr x, KStr y => String.leb x y
  | KInt x, KInt y => x <=? y
  | KFloat x, KFloat y => PrimFloat.leb x y
  | _, _ => true
  end.

Inductive direction : Type :=
| asc
| desc.

Definition row_leb (sort_by : string) (d : direction) (a b : Comic.t) : bool :=
  match d with
  | asc => key_leb (sort_column sort_by a) (sort_column sort_by b)
  | desc => key_leb (sort_column sort_by b) (sort_column sort_by a)
  end.

Fixpoint insert_row (leb : Comic.t -> Comic.t -> bool) (x : Comic.t) (l : list Comic.t)
  : list Comic.t :=
  match l with
  | [] => [x]
  | y :: l' => if leb x y then x :: y :: l' else y :: insert_row leb x l'
  end.

(** ORDER BY.  Rows with equal keys stay in table order: the store promises
    no order among them, and this is one it may answer with. *)
Fixpoint sort_rows (leb : Comic.t -> Comic.t -> bool) (l : list Comic.t) : list Comic.t :=
  match l with
  | [] => []
  | x :: l' => insert_row leb x (sort_rows leb l')
  end.

(** A [select(Comic)] statement under construction. *)
Record Select : Type := mkSelect {
  where_clause : option (list clause);
  order_by_clause : option (string * direction);
  offset_clause : option Z;
  limit_clause : option Z
}.

Definition select_Comic : Select := mkSelect None None None None.

Definition where_ (filters : list clause) (s : Select) : Select :=
  mkSelect (Some filters) (order_by_clause s) (offset_clause s) (limit_clause s).

Definition order_by (sort_by : string) (d : direction) (s : Select) : Select :=
  mkSelect (where_clause s) (Some (sort_by, d)) (offset_clause s) (limit_clause s).

Definition offset (n : Z) (s : Select) : Select :=
  mkSelect (where_clause s) (order_by_clause s) (Some n) (limit_clause s).

Definition limit (n : Z) (s : Select) : Select :=
  mkSelect (where_clause s) (order_by_clause s) (offset_clause s) (Some n).

Section Statements.

(** [lower()] of the store, which ILIKE folds with. *)
Variable lower : string -> string.

(** The rows a statement selects, before ordering and paging. *)
Definition matching (s : Select) (rows : list Comic.t) : list Comic.t :=
  match where_clause s with
  | None => rows
  | Some filters => filter (fun c => is_true (and_ lower c filters)) rows
  end.

Definition ordered (s : Select) (rows : list Comic.t) : list Comic.t :=
  match order_by_clause s with
  | None => rows
  | Some (sort_by, d) => sort_rows (row_leb sort_by d) rows
  end.

Definition paged (s : Select) (rows : list Comic.t) : list Comic.t :=
  let rows :=
    match offset_clause s with
    | None => rows
    | Some n => skipn (Z.to_nat n) rows
    end in
  match limit_clause s with
  | None => rows
  | Some n => firstn (Z.to_nat n) rows
  end.

(** Whether driver and store take the parameters of a statement: the
    values bound in its WHERE clause, and an OFFSET and a LIMIT that are
    64-bit numbers and not negative. *)
Definition row_count (n : option Z) : bool :=
  match n with
  | None => true
  | Some n => (0 <=? n) && int64 n
  end.

Definition accepted (s : Select) : bool :=
  match where_clause s with
  | None => true
  | Some filters => forallb binds filters
  end
  && row_count (offset_clause s)
  && row_count (limit_clause s).

(** [(await db.execute(stmt)).scalars().all()]; a statement with a
    parameter that is refused raises and selects nothing. *)
Definition execute (s : Select) : M (list Comic.t) :=
  fun db =>
    if accepted s then (Ok (paged s (ordered s (matching s (comics db)))), db)
    else (Unhandled DBAPIError, db).

(** [(await db.execute(count_q)).scalar_one()] for
    [select(func.count(Comic.id))]: the primary key is never NULL, so every
    selected row counts. *)
Definition execute_count (s : Select) : M Z :=
  fun db =>
    if accepted s then (Ok (Z.of_nat (List.length (matching s (comics db)))), db)
    else (Unhandled DBAPIError, db).

End Statements.

(** *** Response schemas *)

Module ComicListOut.
Record t : Type := mk {
  id : uuid;
  title : string;
  series : option string;
  number : option string;
  year : option Z;
  publisher : option string;
  cover_url : option string;
  community_rating : option float
}.

Definition model_validate (c : Comic.t) : t :=
  mk (Comic.id c) (Comic.title c) (Comic.series c) (Comic.number c) (Comic.year c)
     (Comic.publisher c) (Comic.cover_url c) (Comic.community_rating c).
End ComicListOut.

Module PaginatedComics.
Record t : Type := mk {
  total : Z;
  page : Z;
  page_size : Z;
  results : list ComicListOut.t
}.
End PaginatedComics.

(** [ComicOut] is [ComicBase] with [id], the two timestamps and a
    [cover_url] that has no bound.  A row read from the store has the types
    of the fields; what validating it against the schema can refuse are the
    bounds [ComicBase] declares. *)
Module ComicOut.

(** [Field(None, max_length=n)] *)
Definition max_length (n : nat) (v : option string) : bool :=
  match v with
  | Some s => Nat.leb (len s) n
  | None => true
  end.

(** [Field(None, ge=lo)] and [Field(None, ge=lo, le=hi)] *)
Definition ge (lo : Z) (v : option Z) : bool :=
  match v with
  | Some z => lo <=? z
  | None => true
  end.

Definition ge_le (lo hi : Z) (v : option Z) : bool :=
  match v with
  | Some z => (lo <=? z) && (z <=? hi)
  | None => true
  end.

(** [Field(None, ge=0.0, le=5.0)]; NaN is within no bound. *)
Definition ge_le_float (lo hi : float) (v : option float) : bool :=
  match v with
  | Some f => PrimFloat.leb lo f && PrimFloat.leb f hi
  | None => true
  end.

Definition validates (c : Comic.t) : bool :=
  max_length 500 (Some (Comic.title c))
  && max_length 500 (Comic.series c)
  && ge_le 1800 2100 (Comic.year c)
  && ge_le 1 12 (Comic.month c)
  && ge_le 1 31 (Comic.day c)
  && max_length 255 (Comic.publisher c)
  && max_length 10 (Comic.language_iso c)
  && ge_le_float 0 5 (Comic.community_rating c)
  && ge 0 (Comic.page_count c).

End ComicOut.

(** [response_model=...] on a route: the framework validates what the
    handler returned against the model before it sends it, and raises if
    the value fails. *)
Definition response_model {A : Type} (validates : A -> bool) (endpoint : M A) : M A :=
  content <- endpoint ;;
  if validates content then ret content else throw ResponseValidationError.

(** *** [list_comics] *)

Definition default {A : Type} (d : A) (o : option A) : A :=
  match o with
  | None => d
  | Some a => a
  end.

(** [pattern=r"^(title|year|publisher|community_rating|created_at)$"] *)
Definition sort_by_pattern (s : string) : bool :=
  existsb (String.eqb s) ["title"; "year"; "publisher"; "community_rating"; "created_at"].

(** [pattern=r"^(asc|desc)$"] *)
Definition sort_order_pattern (s : string) : bool :=
  existsb (String.eqb s) ["asc"; "desc"].

Definition nonempty {A : Type} (l : list A) : bool :=
  match l with
  | [] => false
  | _ :: _ => true
  end.

(** The arguments are the query parameters as sent, [None] for one that is
    not; the declared defaults and bounds are those of the signature.
    [lower] is the case folding of the store the statements run on. *)
Definition list_comics (lower : string -> string)
    (q series publisher writer genre : option string)
    (year_from year_to : option Z)
    (language manga age_rating : option string)
    (page page_size : option Z)
    (sort_by sort_order : option string) : M PaginatedComics.t :=
  let page := default 1 page in
  let page_size := default 20 page_size in
  let sort_by := default "title" sort_by in
  let sort_order := default "asc" sort_order in
  if negb ((page >=? 1)
           && (page_size >=? 1) && (page_size <=? 100)
           && sort_by_pattern sort_by
           && sort_order_pattern sort_order)
  then fun db => (RequestValidationError, db)
  else
    let params :=
      SearchParams.mk q series publisher writer genre year_from year_to language manga
        age_rating page page_size sort_by sort_order in
    let filters := build_search_query params in

    let sort_col := SearchParams.sort_by params in
    let order_fn := if String.eqb (SearchParams.sort_order params) "asc" then asc else desc in

    (* Count *)
    let count_q := select_Comic in
    let count_q := if nonempty filters then where_ filters count_q else count_q in
    total <- execute_count lower count_q ;;

    (* Fetch *)
    let offset_ := (SearchParams.page params - 1) * SearchParams.page_size params in
    let data_q :=
      limit (SearchParams.page_size params)
        (offset offset_ (order_by sort_col order_fn select_Comic)) in
    let data_q := if nonempty filters then where_ filters data_q else data_q in

    comics <- execute lower data_q ;;

    ret (PaginatedComics.mk total (SearchParams.page params) (SearchParams.page_size params)
           (map ComicListOut.model_validate comics)).

(** *** [get_comic], [update_comic], [delete_comic] *)

Definition get_comic (comic_id : uuid) : M Comic.t :=
  result <- select_comics (fun c => String.eqb (Comic.id c) comic_id) ;;
  comic <- scalar_one_or_none result ;;
  match comic with
  | None => raise 404 "Comic not found"
  | Some comic => ret comic
  end.

(** Python's [==] on the values of a column. *)
Definition value_eqb (a b : value) : bool :=
  match a, b with
  | VStr x, VStr y => String.eqb x y
  | VInt x, VInt y => x =? y
  | VFloat x, VFloat y => PrimFloat.eqb x y
  | VBool x, VBool y => Bool.eqb x y
  | _, _ => false
  end.

(** [payload.model_dump(exclude_none=True)]: the fields that are not [None],
    in declaration order. *)
Definition model_dump_exclude_none (payload : ComicUpdate.t) : list (Attr.t * value) :=
  flat_map
    (fun key =>
       match ComicUpdate.get payload key with
       | Some v => [(key, v)]
       | None => []
       end)
    Attr.all.

(** Whether the session holds a net change of some column of the row. *)
Definition modified (loaded c : Comic.t) : bool :=
  existsb
    (fun key => negb (opt_eqb value_eqb (Comic.getattr loaded key) (Comic.getattr c key)))
    Attr.all.

(** Whether the store takes the values of an UPDATE of [loaded] into [c]:
    the statement sets the columns that changed, and each new value has to
    fit its column. *)
Definition update_fits (loaded c : Comic.t) : bool :=
  forallb
    (fun key =>
       opt_eqb value_eqb (Comic.getattr loaded key) (Comic.getattr c key)
       || match Comic.getattr c key with
          | Some v => fits (column key) v
          | None => true
          end)
    Attr.all.

(** UPDATE of the row of [comics] that was loaded as [loaded], into [c]. *)
Definition update_comic_row (loaded c : Comic.t) : M unit :=
  fun db =>
    if update_fits loaded c then
      (Ok tt,
       set_comics
         (map (fun x => if String.eqb (Comic.id x) (Comic.id c) then c else x) (comics db))
         db)
    else (Unhandled DBAPIError, db).

(** [db.commit()] with the row [loaded] changed into [c] in the session: an
    UPDATE is emitted if a column changed, and [updated_at] then takes its
    [onupdate] value. *)
Definition commit_comic (now : datetime) (loaded c : Comic.t) : M Comic.t :=
  if modified loaded c then
    let c := Comic.set_updated_at now c in
    update_comic_row loaded c ;;; ret c
  else ret c.

Definition update_comic (comic_id : uuid) (payload : ComicUpdate.t) (current_user : User.t)
    (now : datetime) : M Comic.t :=
  result <- select_comics (fun c => String.eqb (Comic.id c) comic_id) ;;
  comic <- scalar_one_or_none result ;;
  match comic with
  | None => raise 404 "Comic not found"
  | Some comic =>
    if negb (opt_eqb String.eqb (Comic.created_by comic) (Some (User.id current_user)))
       && negb (User.is_admin current_user)
    then raise 403 "Not allowed to edit this comic"
    else
      let update_data := model_dump_exclude_none payload in
      let comic' :=
        fold_left (fun c kv => Comic.setattr c (fst kv) (snd kv)) update_data comic in
      commit_comic now comic comic'
  end.

Definition delete_comic (comic_id : uuid) (current_user : User.t) : M unit :=
  result <- select_comics (fun c => String.eqb (Comic.id c) comic_id) ;;
  comic <- scalar_one_or_none result ;;
  match comic with
  | None => raise 404 "Comic not found"
  | Some comic =>
    if negb (opt_eqb String.eqb (Comic.created_by comic) (Some (User.id current_user)))
       && negb (User.is_admin current_user)
    then raise 403 "Not allowed to delete this comic"
    else delete_comic_row comic
  end.

(** ** The ComicInfo exporter ([app/services/comicinfo.py]) *)

(** [xml.etree.ElementTree.Element] *)
#[warnings="-register-all"]
Inductive Element : Type :=
| mkElement (tag : string) (attrib : list (string * string)) (text : option string)
            (children : list Element).

Definition tag (e : Element) : string :=
  match e with
  | mkElement t _ _ _ => t
  end.

Definition attrib (e : Element) : list (string * string) :=
  match e with
  | mkElement _ a _ _ => a
  end.

Definition text (e : Element) : option string :=
  match e with
  | mkElement _ _ x _ => x
  end.

Definition children (e : Element) : list Element :=
  match e with
  | mkElement _ _ _ l => l
  end.

(** [Element(tag)] *)
Definition new_Element (t : string) : Element := mkElement t [] None [].

(** [root.set(key, value)] with a key the element does not carry yet. *)
Definition set_attrib (key v : string) (e : Element) : Element :=
  mkElement (tag e) (attrib e ++ [(key, v)]) (text e) (children e).

(** [el = SubElement(parent, tag); el.text = s], seen from [parent]. *)
Definition SubElement_with_text (parent : Element) (t s : string) : Element :=
  mkElement (tag parent) (attrib parent) (text parent)
    (children parent ++ [mkElement t [] (Some s) []]).

(** [str] of an integer. *)
Definition str_int (z : Z) : string :=
  DecimalString.NilZero.string_of_int (Z.to_int z).

Section ComicInfo.

(** [str] of a float (its shortest round-tripping notation). *)
Variable str_float : float -> string.

(** [tostring(root, encoding="unicode")], and
    [minidom.parseString(raw).toprettyxml(indent=..., encoding=None)]:
    [None] where the parser raises [ExpatError], as it does on a document
    that holds a character XML does not allow. *)
Variable tostring : Element -> string.
Variable parseString_toprettyxml : string -> string -> option string.

Definition str (v : value) : string :=
  match v with
  | VStr s => s
  | VInt z => str_int z
  | VFloat f => str_float f
  | VBool b => if b then "True" else "False"
  end.

(** Add XML child element only if value is not None. *)
Definition _add_if_present (parent : Element) (t : string) (v : option value) : Element :=
  match v with
  | Some v => SubElement_with_text parent t (str v)
  | None => parent
  end.

(** The element tree [generate_comicinfo_xml] builds. *)
Definition comicinfo_root (comic : Comic.t) : Element :=
  let root := new_Element "ComicInfo" in
  let root := set_attrib "xmlns:xsi" "http://www.w3.org/2001/XMLSchema-instance" root in
  let root := set_attrib "xmlns:xsd" "http://www.w3.org/2001/XMLSchema" root in

  (* Identification *)
  let root := _add_if_present root "Title" (Some (VStr (Comic.title comic))) in
  let root := _add_if_present root "Series" (option_map VStr (Comic.series comic)) in
  let root := _add_if_present root "Number" (option_map VStr (Comic.number comic)) in
  let root := _add_if_present root "Count" (option_map VInt (Comic.count comic)) in
  let root := _add_if_present root "Volume" (option_map VInt (Comic.volume comic)) in
  let root := _add_if_present root "AlternateSeries"
                (option_map VStr (Comic.alternate_series comic)) in
  let root := _add_if_present root "AlternateNumber"
                (option_map VStr (Comic.alternate_number comic)) in
  let root := _add_if_present root "AlternateCount"
                (option_map VInt (Comic.alternate_count comic)) in
  let root := _add_if_present root "SeriesGroup" (option_map VStr (Comic.series_group comic)) in

  (* Summary & Notes *)
  let root := _add_if_present root "Summary" (option_map VStr (Comic.summary comic)) in
  let root := _add_if_present root "Notes" (option_map VStr (Comic.notes comic)) in

  (* Publication Date *)
  let root := _add_if_present root "Year" (option_map VInt (Comic.year comic)) in
  let root := _add_if_present root "Month" (option_map VInt (Comic.month comic)) in
  let root := _add_if_present root "Day" (option_map VInt (Comic.day comic)) in

  (* Publisher *)
  let root := _add_if_present root "Publisher" (option_map VStr (Comic.publisher comic)) in
  let root := _add_if_present root "Imprint" (option_map VStr (Comic.imprint comic)) in

  (* Creators *)
  let root := _add_if_present root "Writer" (option_map VStr (Comic.writer comic)) in
  let root := _add_if_present root "Penciller" (option_map VStr (Comic.penciller comic)) in
  let root := _add_if_present root "Inker" (option_map VStr (Comic.inker comic)) in
  let root := _add_if_present root "Colorist" (option_map VStr (Comic.colorist comic)) in
  let root := _add_if_present root "Letterer" (option_map VStr (Comic.letterer comic)) in
  let root := _add_if_present root "CoverArtist" (option_map VStr (Comic.cover_artist comic)) in
  let root := _add_if_present root "Editor" (option_map VStr (Comic.editor comic)) in
  let root := _add_if_present root "Translator" (option_map VStr (Comic.translator comic)) in

  (* Classification *)
  let root := _add_if_present root "Genre" (option_map VStr (Comic.genre comic)) in
  let root := _add_if_present root "Tags" (option_map VStr (Comic.tags comic)) in
  let root := _add_if_present root "Web" (option_map VStr (Comic.web comic)) in
  let root := _add_if_present root "Format" (option_map VStr (Comic.format comic)) in
  let root := _add_if_present root "AgeRating" (option_map VStr (Comic.age_rating comic)) in
  let root := _add_if_present root "LanguageISO" (option_map VStr (Comic.language_iso comic)) in
  let root := _add_if_present root "Manga" (option_map VStr (Comic.manga comic)) in

  let root :=
    match Comic.is_bw comic with
    | Some is_bw =>
      _add_if_present root "BlackAndWhite" (Some (VStr (if is_bw then "Yes" else "No")))
    | None => root
    end in

  (* Ratings & Review *)
  let root := _add_if_present root "CommunityRating"
                (option_map VFloat (Comic.community_rating comic)) in
  let root := _add_if_present root "Review" (option_map VStr (Comic.review comic)) in

  (* Page Info *)
  let root := _add_if_present root "PageCount" (option_map VInt (Comic.page_count comic)) in

  (* Identifiers *)
  let root :=
    if truthy_opt truthy_str (Comic.isbn comic)
    then _add_if_present root "ISBN" (option_map VStr (Comic.isbn comic))
    else root in
  let root :=
    if truthy_opt truthy_str (Comic.barcode comic)
    then _add_if_present root "Barcode" (option_map VStr (Comic.barcode comic))
    else root in
  root.

(** The document, or [None] where the function raises. *)
Definition generate_comicinfo_xml (comic : Comic.t) : option string :=
  let root := comicinfo_root comic in
  (* Pretty-print *)
  let raw := tostring root in
  parseString_toprettyxml raw "  ".

End ComicInfo.

(** ** Access tokens ([app/core/security.py], [app/core/config.py]) *)

(** A [timedelta], in microseconds like [datetime]; it is falsy when zero. *)
Definition timedelta := Z.

Definition timedelta_of_minutes (minutes : Z) : timedelta := minutes * 60 * 1000000.

Definition truthy_timedelta (d : timedelta) : bool := negb (Z.eqb d 0).

(** [settings.ACCESS_TOKEN_EXPIRE_MINUTES]: 7 days. *)
Definition ACCESS_TOKEN_EXPIRE_MINUTES : Z := 60 * 24 * 7.

(** The values of the claims handed to [jwt.encode]. *)
Inductive claim : Type :=
| CString (s : string)
| CNumber (n : Z)
| CDatetime (d : datetime).

(** The [dict] of claims, in insertion order. *)
Definition claims : Type := list (string * claim).

Fixpoint claims_get (key : string) (d : claims) : option claim :=
  match d with
  | [] => None
  | (k, v) :: d' => if String.eqb k key then Some v else claims_get key d'
  end.

(** [d.update({key: v})]: the value of an existing key is replaced where it
    stands, a new key goes last. *)
Fixpoint dict_update (key : string) (v : claim) (d : claims) : claims :=
  match d with
  | [] => [(key, v)]
  | (k, x) :: d' =>
    if String.eqb k key then (k, v) :: d' else (k, x) :: dict_update key v d'
  end.

Section Tokens.

(** [jwt.encode(claims, settings.SECRET_KEY, algorithm=settings.ALGORITHM)]
    of python-jose. *)
Variable jwt_encode : claims -> string.

(** [now] is the reading of the clock.  The sum is taken in the range of
    [datetime], which ends with the year 9999. *)
Definition create_access_token (data : claims) (expires_delta : option timedelta)
    (now : datetime) : string :=
  let to_encode := data in
  let expire :=
    now + match expires_delta with
          | Some d =>
            if truthy_timedelta d then d
            else timedelta_of_minutes ACCESS_TOKEN_EXPIRE_MINUTES
          | None => timedelta_of_minutes ACCESS_TOKEN_EXPIRE_MINUTES
          end in
  let to_encode := dict_update "exp" (CDatetime expire) to_encode in
  jwt_encode to_encode.

End Tokens.

(** ** Logging in ([app/api/auth.py]) *)

Module UserLogin.
Record t : Type := mk {
  username : string;
  password : string
}.
End UserLogin.

Module UserOut.
Record t : Type := mk {
  id : uuid;
  username : string;
  email : string;
  is_active : bool;
  is_admin : bool;
  created_at : datetime
}.

Definition model_validate (u : User.t) : t :=
  mk (User.id u) (User.username u) (User.email u) (User.is_active u) (User.is_admin u)
     (User.created_at u).
End UserOut.

Module Token.
Record t : Type := mk {
  access_token : string;
  token_type : string;
  user : UserOut.t
}.
End Token.

Section Login.

Variable jwt_encode : claims -> string.

(** [pwd_context.verify] of passlib (bcrypt): the plain password against the
    stored hash. *)
Variable verify_password : string -> string -> bool.

Definition login (payload : UserLogin.t) (now : datetime) : M Token.t :=
  result <- select_users
              (fun u => String.eqb (User.username u) (UserLogin.username payload)
                        && Bool.eqb (User.is_active u) true) ;;
  user <- scalar_one_or_none result ;;
  match user with
  | None => raise HTTP_401_UNAUTHORIZED "Incorrect username or password"
  | Some user =>
    if negb (verify_password (UserLogin.password payload) (User.hashed_password user))
    then raise HTTP_401_UNAUTHORIZED "Incorrect username or password"
    else
      let token := create_access_token jwt_encode [("sub", CString (User.id user))] None now in
      ret (Token.mk token "bearer" (UserOut.model_validate user))
  end.

End Login.

Definition get_me (current_user : User.t) : M User.t := ret current_user.

(** ** Listing keys ([app/api/api_keys.py]) *)

Fixpoint insert_key (leb : ApiKey.t -> ApiKey.t -> bool) (x : ApiKey.t) (l : list ApiKey.t)
  : list ApiKey.t :=
  match l with
  | [] => [x]
  | y :: l' => if leb x y then x :: y :: l' else y :: insert_key leb x l'
  end.

(** ORDER BY on [api_keys]; as for [comics], rows with equal keys stay in
    table order. *)
Definition sort_keys (leb : ApiKey.t -> ApiKey.t -> bool) (l : list ApiKey.t)
  : list ApiKey.t :=
  fold_right (insert_key leb) [] l.

(** [ApiKey.created_at.desc()]; the column holds no NULL. *)
Definition created_at_desc (a b : ApiKey.t) : bool :=
  ApiKey.created_at b <=? ApiKey.created_at a.

(** [db.execute(select(ApiKey).where(...).order_by(...))] *)
Definition select_api_keys_order_by (where_ : ApiKey.t -> bool)
    (leb : ApiKey.t -> ApiKey.t -> bool) : M (list ApiKey.t) :=
  fun db => (Ok (sort_keys leb (filter where_ (api_keys db))), db).

Definition list_api_keys (current_user : User.t) : M (list ApiKey.t) :=
  select_api_keys_order_by
    (fun k => String.eqb (ApiKey.user_id k) (User.id current_user))
    created_at_desc.

(** ** Creating a comic ([app/api/comics.py]) *)

(** [ComicCreate] ([app/schemas/schemas.py]): the fields of [ComicBase], in
    declaration order. *)
Module ComicCreate.
Record t : Type := mk {
  title : string;
  series : option string;
  alternate_series : option string;
  number : option string;
  count : option Z;
  volume : option Z;
  alternate_number : option string;
  alternate_count : option Z;
  summary : option string;
  notes : option string;
  year : option Z;
  month : option Z;
  day : option Z;
  publisher : option string;
  imprint : option string;
  writer : option string;
  penciller : option string;
  inker : option string;
  colorist : option string;
  letterer : option string;
  cover_artist : option string;
  editor : option string;
  translator : option string;
  genre : option string;
  tags : option string;
  web : option string;
  age_rating : option string;
  language_iso : option string;
  format : option string;
  is_bw : option bool;
  manga : option string;
  community_rating : option float;
  review : option string;
  page_count : option Z;
  cover_url : option string;
  isbn : option string;
  barcode : option string;
  series_group : option string
}.
End ComicCreate.

(** INSERT into [comics]: the store refuses a row with a value that does
    not fit its column ([fits_columns]), then checks the primary key and
    the foreign key of [created_by] into [users]. *)
Definition insert_comic (c : Comic.t) : M unit :=
  fun db =>
    if negb (fits_columns c) then (Unhandled DBAPIError, db)
    else if existsb (fun x => String.eqb (Comic.id x) (Comic.id c)) (comics db)
       || negb match Comic.created_by c with
               | Some user_id => existsb (fun u => String.eqb (User.id u) user_id) (users db)
               | None => true
               end
    then (Unhandled IntegrityError, db)
    else (Ok tt, set_comics (comics db ++ [c]) db).

(** The [Comic] made of the dumped body and [created_by]: every field of
    the body, [cover_image_path] left at [None]; [new_id] is the [uuid4]
    drawn for the primary key, [created_at] and [updated_at] the two
    readings of the clock the column defaults take. *)
Definition Comic_of_dump (payload : ComicCreate.t) (created_by : uuid)
    (new_id : uuid) (created_at updated_at : datetime) : Comic.t :=
  Comic.mk new_id (ComicCreate.title payload) (ComicCreate.series payload)
    (ComicCreate.alternate_series payload) (ComicCreate.number payload)
    (ComicCreate.count payload) (ComicCreate.volume payload)
    (ComicCreate.alternate_number payload) (ComicCreate.alternate_count payload)
    (ComicCreate.summary payload) (ComicCreate.notes payload) (ComicCreate.year payload)
    (ComicCreate.month payload) (ComicCreate.day payload) (ComicCreate.publisher payload)
    (ComicCreate.imprint payload) (ComicCreate.writer payload) (ComicCreate.penciller payload)
    (ComicCreate.inker payload) (ComicCreate.colorist payload) (ComicCreate.letterer payload)
    (ComicCreate.cover_artist payload) (ComicCreate.editor payload)
    (ComicCreate.translator payload) (ComicCreate.genre payload) (ComicCreate.tags payload)
    (ComicCreate.web payload) (ComicCreate.age_rating payload)
    (ComicCreate.language_iso payload) (ComicCreate.format payload)
    (ComicCreate.is_bw payload) (ComicCreate.manga payload)
    (ComicCreate.community_rating payload) (ComicCreate.review payload)
    (ComicCreate.page_count payload) (ComicCreate.cover_url payload) None
    (ComicCreate.isbn payload) (ComicCreate.barcode payload)
    (ComicCreate.series_group payload) created_at updated_at (Some created_by).

Definition create_comic (payload : ComicCreate.t) (current_user : User.t)
    (new_id : uuid) (created_at updated_at : datetime) : M Comic.t :=
  let comic := Comic_of_dump payload (User.id current_user) new_id created_at updated_at in
  insert_comic comic ;;;
  ret comic.

(** ** ComicInfo.xml download and cover URL ([app/api/comics.py]) *)

(** [fastapi.responses.Response] *)
Module Response.
Record t : Type := mk {
  content : string;
  media_type : string;
  headers : list (string * string)
}.
End Response.

(** The quotation mark around the file name of the [Content-Disposition]
    header. *)
Definition double_quote : string := String (ascii_of_nat 34) EmptyString.

Section Downloads.

Variable str_float : float -> string.
Variable tostring : Element -> string.
Variable parseString_toprettyxml : string -> string -> option string.

(** Download ComicInfo.xml for a comic. *)
Definition download_comicinfo (comic_id : uuid) : M Response.t :=
  result <- select_comics (fun c => String.eqb (Comic.id c) comic_id) ;;
  comic <- scalar_one_or_none result ;;
  match comic with
  | None => raise 404 "Comic not found"
  | Some comic =>
    match generate_comicinfo_xml str_float tostring parseString_toprettyxml comic with
    | None => throw ExpatError
    | Some xml_content =>
      let filename := ("ComicInfo-" ++ Comic.id comic ++ ".xml")%string in
      ret (Response.mk xml_content "application/xml"
             [("Content-Disposition",
               ("attachment; filename=" ++ double_quote ++ filename ++ double_quote)%string)])
    end
  end.

End Downloads.

(** Return the cover image URL for a comic: a [dict] of two entries, the
    second holding the column as it is. *)
Definition get_cover_url (comic_id : uuid) : M (list (string * option string)) :=
  result <- select_comics (fun c => String.eqb (Comic.id c) comic_id) ;;
  comic <- scalar_one_or_none result ;;
  match comic with
  | None => raise 404 "Comic not found"
  | Some comic =>
    if negb (truthy_opt truthy_str (Comic.cover_url comic))
    then raise 404 "No cover image set for this comic"
    else ret [("comic_id", Some comic_id); ("cover_url", Comic.cover_url comic)]
  end.

(** ** The database URL ([app/core/database.py]) *)

(** [s.replace(old, new)] for a non-empty [old]: the occurrences of [old]
    are taken from the left and do not overlap.  [skip] counts the
    characters of an occurrence that are still to pass. *)
Fixpoint replace_from (skip : nat) (old new s : string) : string :=
  match s with
  | EmptyString => EmptyString
  | String c s' =>
    match skip with
    | S skip' => replace_from skip' old new s'
    | O =>
      if prefix old s
      then (new ++ replace_from (String.length old - 1) old new s')%string
      else String c (replace_from 0 old new s')
    end
  end.

Definition replace (old new s : string) : string := replace_from 0 old new s.

(** What importing the module ends in: [DATABASE_URL] is bound, or
    [startswith] is called on the [None] that [os.getenv] returned. *)
Inductive module_import : Type :=
| Imported (DATABASE_URL : string)
| AttributeError.

(** [getenv] is [os.getenv("DATABASE_URL")]. *)
Definition DATABASE_URL (getenv : option string) : module_import :=
  match getenv with
  | None => AttributeError
  | Some url =>
    if prefix "postgres://" url
    then Imported (replace "postgres://" "postgresql+asyncpg://" url)
    else Imported url
  end.

(** ** The application ([app/main.py]): requests served one after another *)

(** [settings.APP_NAME] and [settings.APP_VERSION] ([app/core/config.py]). *)
Definition APP_NAME : string := "Mangable".
Definition APP_VERSION : string := "1.0.0".

(** The two routes [app/main.py] declares itself; each answers a [dict]. *)
Definition root : M (list (string * string)) :=
  ret [("name", APP_NAME); ("version", APP_VERSION); ("status", "ok")].

Definition health : M (list (string * string)) :=
  ret [("status", "healthy")].

(** The routes of the application, those of [main.py] and of the three
    routers it includes.  Each carries what the handler draws while it runs:
    the new primary key of an INSERT, the random part of a new API key, the
    second reading of the clock of a new comic.  A [comic_id] is declared
    [uuid.UUID] and comes as the framework has read it; a [key_id] is
    declared [str]. *)
Inductive request : Type :=
| GET_root
| GET_health
| POST_register (payload : UserRegister.t) (new_id : uuid)
| POST_login (payload : UserLogin.t)
| GET_me
| POST_api_keys (payload : ApiKeyCreate.t) (random_part : string) (new_id : uuid)
| GET_api_keys
| DELETE_api_key (key_id : string)
| GET_comics (q series publisher writer genre : option string)
             (year_from year_to : option Z)
             (language manga age_rating : option string)
             (page page_size : option Z)
             (sort_by sort_order : option string)
| POST_comics (payload : ComicCreate.t) (new_id : uuid) (updated_at : datetime)
| GET_comic (comic_id : uuid)
| PATCH_comic (comic_id : uuid) (payload : ComicUpdate.t)
| DELETE_comic (comic_id : uuid)
| GET_comicinfo (comic_id : uuid)
| GET_cover (comic_id : uuid).

(** A request with its two credential headers and the time it is served at. *)
Record call : Type := mkCall {
  credentials : option string;
  api_key : option string;
  now : datetime;
  route : request
}.

Section Application.

Variable jwt_decode : string -> option payload.
Variable jwt_encode : claims -> string.
Variable sha256_hexdigest : string -> string.
Variable hash_password : string -> string.
Variable verify_password : string -> string -> bool.
Variable uuid_of_str : string -> option uuid.
Variable lower : string -> string.
Variable str_float : float -> string.
Variable tostring : Element -> string.
Variable parseString_toprettyxml : string -> string -> option string.

(** The response is sent; what stays is the store. *)
Definition done {A : Type} (m : M A) : M unit := _ <- m ;; ret tt.

(** A route that declares [Depends(get_current_user)]: the dependency is
    solved first, then the handler runs with the user. *)
Definition authenticated (c : call) (handler : User.t -> M unit) : M unit :=
  current_user <- current_user_dependency jwt_decode sha256_hexdigest
                    (credentials c) (api_key c) (now c) ;;
  handler current_user.

Definition serve (c : call) : M unit :=
  match route c with
  | GET_root => done root
  | GET_health => done health
  | POST_register payload new_id =>
    done (register hash_password payload new_id (now c))
  | POST_login payload =>
    done (login jwt_encode verify_password payload (now c))
  | GET_me =>
    authenticated c (fun current_user => done (get_me current_user))
  | POST_api_keys payload random_part new_id =>
    authenticated c (fun current_user =>
      done (create_api_key sha256_hexdigest payload current_user random_part new_id (now c)))
  | GET_api_keys =>
    authenticated c (fun current_user => done (list_api_keys current_user))
  | DELETE_api_key key_id =>
    authenticated c (fun current_user => revoke_api_key uuid_of_str key_id current_user)
  | GET_comics q series publisher writer genre year_from year_to language manga
               age_rating page page_size sort_by sort_order =>
    authenticated c (fun _ =>
      done (list_comics lower q series publisher writer genre year_from year_to language
              manga age_rating page page_size sort_by sort_order))
  | POST_comics payload new_id updated_at =>
    authenticated c (fun current_user =>
      done (response_model ComicOut.validates
              (create_comic payload current_user new_id (now c) updated_at)))
  | GET_comic comic_id =>
    authenticated c (fun _ => done (response_model ComicOut.validates (get_comic comic_id)))
  | PATCH_comic comic_id payload =>
    authenticated c (fun current_user =>
      done (response_model ComicOut.validates
              (update_comic comic_id payload current_user (now c))))
  | DELETE_comic comic_id =>
    authenticated c (fun current_user => delete_comic comic_id current_user)
  | GET_comicinfo comic_id =>
    authenticated c (fun _ =>
      done (download_comicinfo str_float tostring parseString_toprettyxml comic_id))
  | GET_cover comic_id =>
    authenticated c (fun _ => done (get_cover_url comic_id))
  end.

(** The store after a sequence of requests, whatever each was answered. *)
Fixpoint run (calls : list call) (db : Db) : Db :=
  match calls with
  | [] => db
  | c :: calls' => run calls' (snd (serve c db))
  end.

End Application.

(** * Vocabulary of the statements

    What the properties below are stated with: views of the handlers'
    intermediate values, the filter a request stands for, the invariant of
    the table of keys, the table of exported fields. *)

(** ** Patching *)

(** The loop of [update_comic] over the items of the dumped payload. *)
Definition apply_items (items : list (Attr.t * value)) (c : Comic.t) : Comic.t :=
  fold_left (fun c kv => Comic.setattr c (fst kv) (snd kv)) items c.

Definition items_of (p : ComicUpdate.t) (keys : list Attr.t) : list (Attr.t * value) :=
  flat_map
    (fun key =>
       match ComicUpdate.get p key with
       | Some v => [(key, v)]
       | None => []
       end)
    keys.





(** The guard of [update_comic] and [delete_comic]. *)
Definition forbidden (c : Comic.t) (u : User.t) : bool :=
  negb (opt_eqb String.eqb (Comic.created_by c) (Some (User.id u)))
  && negb (User.is_admin u).

(** ** Filters *)

(** The clauses one parameter contributes. *)
Definition when_truthy {A : Type} (t : A -> bool) (o : option A) (f : A -> list clause)
  : list clause :=
  match o with
  | Some v => if t v then f v else []
  | None => []
  end.

(** The pattern [f"%{v}%"]. *)
Definition contains (v : string) : string := ("%" ++ v ++ "%")%string.

Section Filters.

(** [lower()] of the store. *)
Variable lower : string -> string.

(** Whether the WHERE clause built from [params] keeps the row [c]. *)
Definition selects (params : SearchParams.t) (c : Comic.t) : bool :=
  is_true (and_ lower c (build_search_query params)).

(** Some column among [cols] is not NULL and passes [test]. *)
Definition any_of (cols : list text_column) (test : string -> bool) (c : Comic.t) : bool :=
  existsb
    (fun col =>
       match text_of col c with
       | Some s => test s
       | None => false
       end)
    cols.

Definition year_is (test : Z -> bool) (c : Comic.t) : bool :=
  match Comic.year c with
  | Some y => test y
  | None => false
  end.

(** A filter applies when its parameter is there and truthy. *)
Definition on_truthy {A : Type} (t : A -> bool) (o : option A) (test : A -> bool) : bool :=
  match o with
  | Some v => if t v then test v else true
  | None => true
  end.

(** A filter applies when its parameter is there. *)
Definition on_present {A : Type} (o : option A) (test : A -> bool) : bool :=
  match o with
  | Some v => test v
  | None => true
  end.

Definition free_text_columns : list text_column :=
  [col_title; col_series; col_summary; col_writer; col_publisher].

(** The filter the handler applies: the parameters that are truthy, text
    matched by ILIKE against the pattern [%v%]. *)
Definition applied_filter (params : SearchParams.t) (c : Comic.t) : bool :=
  on_truthy truthy_str (SearchParams.q params)
    (fun v => any_of free_text_columns (ilike_match lower (contains v)) c)
  && on_truthy truthy_str (SearchParams.series params)
       (fun v => any_of [col_series] (ilike_match lower (contains v)) c)
  && on_truthy truthy_str (SearchParams.publisher params)
       (fun v => any_of [col_publisher] (ilike_match lower (contains v)) c)
  && on_truthy truthy_str (SearchParams.writer params)
       (fun v => any_of [col_writer] (ilike_match lower (contains v)) c)
  && on_truthy truthy_str (SearchParams.genre params)
       (fun v => any_of [col_genre] (ilike_match lower (contains v)) c)
  && on_truthy truthy_int (SearchParams.year_from params)
       (fun v => year_is (fun y => v <=? y) c)
  && on_truthy truthy_int (SearchParams.year_to params)
       (fun v => year_is (fun y => y <=? v) c)
  && on_truthy truthy_str (SearchParams.language params)
       (fun v => any_of [col_language_iso] (fun s => String.eqb s v) c)
  && on_truthy truthy_str (SearchParams.manga params)
       (fun v => any_of [col_manga] (fun s => String.eqb s v) c)
  && on_truthy truthy_str (SearchParams.age_rating params)
       (fun v => any_of [col_age_rating] (fun s => String.eqb s v) c).

(** [needle] is a substring of [s]: it is found at a character of [s]. *)
Definition substring_of (needle s : string) : bool := scan (prefix needle) true s.

(** Case-insensitive substring test, by the words of the specification:
    substring once both texts are folded. *)
Definition contains_ci (needle s : string) : bool :=
  substring_of (lower needle) (lower s).

(** The filter as the specification words it: every parameter that is
    present applies, and text is matched as a case-insensitive substring. *)
Definition claimed_filter (params : SearchParams.t) (c : Comic.t) : bool :=
  on_present (SearchParams.q params)
    (fun v => any_of free_text_columns (contains_ci v) c)
  && on_present (SearchParams.series params) (fun v => any_of [col_series] (contains_ci v) c)
  && on_present (SearchParams.publisher params)
       (fun v => any_of [col_publisher] (contains_ci v) c)
  && on_present (SearchParams.writer params) (fun v => any_of [col_writer] (contains_ci v) c)
  && on_present (SearchParams.genre params) (fun v => any_of [col_genre] (contains_ci v) c)
  && on_present (SearchParams.year_from params) (fun v => year_is (fun y => v <=? y) c)
  && on_present (SearchParams.year_to params) (fun v => year_is (fun y => y <=? v) c)
  && on_present (SearchParams.language params)
       (fun v => any_of [col_language_iso] (fun s => String.eqb s v) c)
  && on_present (SearchParams.manga params)
       (fun v => any_of [col_manga] (fun s => String.eqb s v) c)
  && on_present (SearchParams.age_rating params)
       (fun v => any_of [col_age_rating] (fun s => String.eqb s v) c).

End Filters.

(** A string without the characters ILIKE reads as wildcards or escapes. *)
Fixpoint wildcard_free (s : string) : bool :=
  match s with
  | EmptyString => true
  | String a s' =>
    negb (Ascii.eqb a "%") && negb (Ascii.eqb a "_") && negb (Ascii.eqb a "\")
    && wildcard_free s'
  end.

(** [None] for a parameter that is absent or falsy. *)
Definition drop_falsy {A : Type} (t : A -> bool) (o : option A) : option A :=
  match o with
  | Some v => if t v then Some v else None
  | None => None
  end.

(** Every parameter that is present is truthy, and the text of a substring
    filter holds no [%], [_] or backslash. *)
Definition plain (params : SearchParams.t) : bool :=
  on_present (SearchParams.q params) (fun v => truthy_str v && wildcard_free v)
  && on_present (SearchParams.series params) (fun v => truthy_str v && wildcard_free v)
  && on_present (SearchParams.publisher params) (fun v => truthy_str v && wildcard_free v)
  && on_present (SearchParams.writer params) (fun v => truthy_str v && wildcard_free v)
  && on_present (SearchParams.genre params) (fun v => truthy_str v && wildcard_free v)
  && on_present (SearchParams.year_from params) truthy_int
  && on_present (SearchParams.year_to params) truthy_int
  && on_present (SearchParams.language params) truthy_str
  && on_present (SearchParams.manga params) truthy_str
  && on_present (SearchParams.age_rating params) truthy_str.

(** The parameters of a list request are such as the store takes: a text
    that is applied has no NUL character, a year bound that is applied is a
    signed 32-bit number, and the offset [(page - 1) * page_size] a signed
    64-bit number. *)
Definition in_range (params : SearchParams.t) : bool :=
  on_truthy truthy_str (SearchParams.q params) nul_free
  && on_truthy truthy_str (SearchParams.series params) nul_free
  && on_truthy truthy_str (SearchParams.publisher params) nul_free
  && on_truthy truthy_str (SearchParams.writer params) nul_free
  && on_truthy truthy_str (SearchParams.genre params) nul_free
  && on_truthy truthy_int (SearchParams.year_from params) int32
  && on_truthy truthy_int (SearchParams.year_to params) int32
  && on_truthy truthy_str (SearchParams.language params) nul_free
  && on_truthy truthy_str (SearchParams.manga params) nul_free
  && on_truthy truthy_str (SearchParams.age_rating params) nul_free
  && int64 ((SearchParams.page params - 1) * SearchParams.page_size params).

(** ** The table of keys *)

(** The test of [create_api_key]: the key belongs to [uid] and is active. *)
Definition owns_active (uid : uuid) (k : ApiKey.t) : bool :=
  String.eqb (ApiKey.user_id k) uid && Bool.eqb (ApiKey.is_active k) true.

Definition active_keys (uid : uuid) (db : Db) : list ApiKey.t :=
  filter (owns_active uid) (api_keys db).

(** At most ten active keys per user, on a table with a primary key. *)
Definition keys_inv (db : Db) : Prop :=
  NoDup (map ApiKey.id (api_keys db))
  /\ forall uid, (List.length (active_keys uid db) <= 10)%nat.

Definition preserves {A : Type} (m : M A) : Prop :=
  forall db, keys_inv db -> keys_inv (snd (m db)).

(** A handler that leaves the table of keys alone. *)
Definition keeps_keys {A : Type} (m : M A) : Prop :=
  forall db, api_keys (snd (m db)) = api_keys db.

(** The UPDATE of one row, as [update_api_key] writes it. *)
Definition replaced (k' : ApiKey.t) (l : list ApiKey.t) : list ApiKey.t :=
  map (fun x => if String.eqb (ApiKey.id x) (ApiKey.id k') then k' else x) l.

(** ** The exported document *)

(** A child element as the exporter makes them: a tag and a text. *)
Definition leaf (t s : string) : Element := mkElement t [] (Some s) [].

Definition entry (tv : string * option string) : list Element :=
  match snd tv with
  | Some s => [leaf (fst tv) s]
  | None => []
  end.

Definition yes_no (b : bool) : string := if b then "Yes" else "No".

(** [v is not None] *)
Definition is_set {A : Type} (v : option A) : bool :=
  match v with
  | Some _ => true
  | None => false
  end.

(** The tag, attributes and text of an element. *)
Definition head (e : Element) : string * list (string * string) * option string :=
  (tag e, attrib e, text e).

Section ExportTable.

Variable str_float : float -> string.

(** The exported fields in the order of the document, each with the text it
    is written with, [None] for a field that is left out. *)
Definition exported (c : Comic.t) : list (string * option string) :=
  [ ("Title", Some (Comic.title c));
    ("Series", Comic.series c);
    ("Number", Comic.number c);
    ("Count", option_map str_int (Comic.count c));
    ("Volume", option_map str_int (Comic.volume c));
    ("AlternateSeries", Comic.alternate_series c);
    ("AlternateNumber", Comic.alternate_number c);
    ("AlternateCount", option_map str_int (Comic.alternate_count c));
    ("SeriesGroup", Comic.series_group c);
    ("Summary", Comic.summary c);
    ("Notes", Comic.notes c);
    ("Year", option_map str_int (Comic.year c));
    ("Month", option_map str_int (Comic.month c));
    ("Day", option_map str_int (Comic.day c));
    ("Publisher", Comic.publisher c);
    ("Imprint", Comic.imprint c);
    ("Writer", Comic.writer c);
    ("Penciller", Comic.penciller c);
    ("Inker", Comic.inker c);
    ("Colorist", Comic.colorist c);
    ("Letterer", Comic.letterer c);
    ("CoverArtist", Comic.cover_artist c);
    ("Editor", Comic.editor c);
    ("Translator", Comic.translator c);
    ("Genre", Comic.genre c);
    ("Tags", Comic.tags c);
    ("Web", Comic.web c);
    ("Format", Comic.format c);
    ("AgeRating", Comic.age_rating c);
    ("LanguageISO", Comic.language_iso c);
    ("Manga", Comic.manga c);
    ("BlackAndWhite", option_map yes_no (Comic.is_bw c));
    ("CommunityRating", option_map str_float (Comic.community_rating c));
    ("Review", Comic.review c);
    ("PageCount", option_map str_int (Comic.page_count c));
    ("ISBN", drop_falsy truthy_str (Comic.isbn c));
    ("Barcode", drop_falsy truthy_str (Comic.barcode c)) ].

End ExportTable.

(** ** Registration *)

(** The constraints of [UserRegister] on [username] and [password]
    ([min_length], [max_length], [pattern]); the syntax of the address is
    left to [EmailStr]. *)
Definition username_char (c : ascii) : bool :=
  let n := N_of_ascii c in
  (N.leb 97 n && N.leb n 122) || (N.leb 65 n && N.leb n 90) || (N.leb 48 n && N.leb n 57)
  || Ascii.eqb c "_" || Ascii.eqb c "-".

Definition valid_register (p : UserRegister.t) : bool :=
  Nat.leb 3 (String.length (UserRegister.username p))
  && Nat.leb (String.length (UserRegister.username p)) 50
  && forallb username_char (list_ascii_of_string (UserRegister.username p))
  && Nat.leb 8 (String.length (UserRegister.password p)).

(** ** Ratings *)

(** A float that is not NaN: it is equal to itself. *)
Definition is_number (f : float) : bool := PrimFloat.eqb f f.


(** The body sets no rating of zero.  [0.0] and [-0.0] are two values that
    Python and the store take as equal. *)
Definition rating_not_zero (p : ComicUpdate.t) : bool :=
  match ComicUpdate.community_rating p with
  | Some f => negb (PrimFloat.eqb f 0)
  | None => true
  end.

(** ** Answers *)

(** The response of [download_comicinfo] for the comic [c] whose document is
    [xml]. *)
Definition attachment (c : Comic.t) (xml : string) : Response.t :=
  Response.mk xml "application/xml"
    [("Content-Disposition",
      ("attachment; filename=" ++ double_quote ++ ("ComicInfo-" ++ Comic.id c ++ ".xml")
       ++ double_quote)%string)].


(** ** Constraints *)

(** A handler that leaves the uniqueness constraints in force, whatever it
    answers. *)
Definition keeps_constraints {A : Type} (m : M A) : Prop :=
  forall db, db_wf db -> db_wf (snd (m db)).

(** ** Text *)

(** [old in s] *)
Fixpoint occurs (old s : string) : bool :=
  prefix old s
  || match s with
     | EmptyString => false
     | String _ s' => occurs old s'
     end.

(** ** Tokens *)

(** The token of the user [u] minted at [now]: a bearer token over the
    user's id as subject and an expiry seven days ahead, with the public
    fields of the user. *)
Definition minted (jwt_encode : claims -> string) (u : User.t) (now : datetime) : Token.t :=
  Token.mk
    (jwt_encode
       [("sub", CString (User.id u));
        ("exp", CDatetime (now + 7 * 24 * 60 * 60 * 1000000))])
    "bearer"
    (UserOut.mk (User.id u) (User.username u) (User.email u) (User.is_active u)
       (User.is_admin u) (User.created_at u)).

(** * Sample data

    A small store and stand-ins for the library calls, on which the
    statements below are exercised. *)

Module Sample.

(** Stand-ins for [jwt.decode], [sha256] and [bcrypt]: only their being
    functions matters to the handlers. *)
Definition jwt_decode (token : string) : option payload :=
  if String.eqb token "token-of-alice"
  then Some [("sub", JString "u-alice"); ("exp", JNumber 2000)]
  else None.

Definition sha256_hexdigest (s : string) : string := ("sha256:" ++ s)%string.

Definition hash_password (s : string) : string := ("bcrypt:" ++ s)%string.

Definition str_float (f : float) : string := "4.5".

(** [lower()] under the collation [C]: the letters A to Z are folded and
    every other byte is kept. *)
Definition lower_byte (c : ascii) : ascii :=
  let n := N_of_ascii c in
  if N.leb 65 n && N.leb n 90 then ascii_of_N (n + 32) else c.

Fixpoint lower (s : string) : string :=
  match s with
  | EmptyString => EmptyString
  | String c s' => String (lower_byte c) (lower s')
  end.

(** A stand-in for the driver's reading of a UUID.  The ids of the sample
    rows are short names; a name is read whatever the case of its letters, and
    a text with a space in it is refused. *)
Definition uuid_of_str (s : string) : option uuid :=
  if existsb (Ascii.eqb " ") (list_ascii_of_string s) then None else Some (lower s).

Definition alice : User.t :=
  User.mk "u-alice" "alice" "alice@example.org" "bcrypt:correct horse" true false 10 10.

Definition bob : User.t :=
  User.mk "u-bob" "bob" "bob@example.org" "bcrypt:battery staple" true true 11 11.

Definition carol : User.t :=
  User.mk "u-carol" "carol" "carol@example.org" "bcrypt:hunter22222" false false 12 12.

Definition dave : User.t :=
  User.mk "u-dave" "dave" "dave@example.org" "bcrypt:dave-dave" true false 13 13.

(** A live key of bob, an expired key of alice, a revoked key of dave and a
    live key of the deactivated carol. *)
Definition key_bob : ApiKey.t :=
  ApiKey.mk "k-1" "u-bob" "laptop" "sha256:mng_bob" "mng_bob" true None 20 None.

Definition key_expired : ApiKey.t :=
  ApiKey.mk "k-2" "u-alice" "old" "sha256:mng_old" "mng_old" true None 21 (Some 50).

Definition key_revoked : ApiKey.t :=
  ApiKey.mk "k-3" "u-dave" "revoked" "sha256:mng_off" "mng_off" false None 22 None.

Definition key_carol : ApiKey.t :=
  ApiKey.mk "k-4" "u-carol" "carol" "sha256:mng_carol" "mng_carol" true None 23 None.

(** A comic as [create_comic] stores it from a body with a title only. *)
Definition titled (id : uuid) (title : string) (created_by : option uuid) : Comic.t :=
  Comic.mk id title None None None None None None None None None None None None None None
    None None None None None None None None None None None None None None None None None
    None None None None None None None 30 30 created_by.

Definition watchmen : Comic.t := titled "c-1" "Watchmen" (Some "u-alice").

Definition akira : Comic.t :=
  Comic.set_year (Some 1988)
    (Comic.set_series (Some "Akira")
       (Comic.set_manga (Some "Yes") (titled "c-2" "Akira, Vol. 1" (Some "u-dave")))).

(** A comic whose [series] and [isbn] are empty strings and that has a cover. *)
Definition oddity : Comic.t :=
  Comic.set_isbn (Some "")
    (Comic.set_series (Some "")
       (Comic.set_cover_url (Some "https://covers.example.com/c-3.png")
          (titled "c-3" "Watchmen" None))).

Definition db : Db :=
  mkDb [alice; bob; carol; dave]
       [key_bob; key_expired; key_revoked; key_carol]
       [watchmen; akira].

(** A PATCH body [{"summary": "Who watches the watchmen?"}]. *)
Definition only_summary : ComicUpdate.t :=
  ComicUpdate.mk None None None None None None None None
    (Some "Who watches the watchmen?")
    None None None None None None None None None None None None None None None None None
    None None None None None None None None None None None None
    [Attr.summary].

(** "Watchmen" after that body is applied at time 500, and the store then. *)
Definition patched_watchmen : Comic.t :=
  Comic.set_updated_at 500
    (Comic.set_summary (Some "Who watches the watchmen?") watchmen).

Definition db_after_patch : Db := set_comics [patched_watchmen; akira] db.

(** A store of fifty comics of which the forty-five titled "Saga" match the
    query [q=saga]. *)
Definition numbered (title : string) (i : nat) : Comic.t :=
  titled (str_int (Z.of_nat i)) title None.

Definition db50 : Db :=
  mkDb [] [] (map (numbered "Saga") (seq 1 45) ++ map (numbered "Other") (seq 46 5)).

(** Ten live keys of dave. *)
Definition key_of_dave (i : nat) : ApiKey.t :=
  ApiKey.mk (str_int (Z.of_nat i)) "u-dave" "key"
    ("sha256:mng_" ++ str_int (Z.of_nat i)) "mng_" true None 40 None.

Definition db_full : Db :=
  mkDb [alice; bob; carol; dave] (map key_of_dave (seq 1 10)) [].

End Sample.

(** More sample data: stand-ins for the password check and the token codec,
    and request bodies. *)
Module Demo.

(** Verifies against [Sample.hash_password]. *)
Definition verify_password (plain hashed : string) : bool :=
  String.eqb hashed (Sample.hash_password plain).

(** A codec that writes the subject and the expiry in seconds into the
    token, and reads the one token of alice that the statements use. *)
Definition jwt_encode (c : claims) : string :=
  match claims_get "sub" c, claims_get "exp" c with
  | Some (CString sub), Some (CDatetime exp) =>
    ("jwt:" ++ sub ++ ":" ++ str_int (exp / 1000000))%string
  | _, _ => "jwt:"
  end.

Definition jwt_decode (token : string) : option payload :=
  if String.eqb token "jwt:u-alice:604900"
  then Some [("sub", JString "u-alice"); ("exp", JNumber 604900)]
  else None.

(** A codec whose tokens are their subjects. *)
Definition jwt_plain (token : string) : option payload :=
  Some [("sub", JString token); ("exp", JNumber 604900)].

(** One hundred seconds after the epoch. *)
Definition now : datetime := 100000000.

Definition erin : UserRegister.t :=
  UserRegister.mk "erin" "erin@example.org" "tr0ub4dor-3".

(** Forty-eight characters of [ascii_letters + digits]. *)
Definition random_part : string :=
  "abcdefghijklmnopqrstuvwxyzABCDEFGHIJKLMNOP012345".

(** A body for [create_comic]. *)
Definition saga : ComicCreate.t :=
  ComicCreate.mk "Saga" (Some "Saga") None (Some "1") None None None None None None
    (Some 2012) None None (Some "Image") None None None None None None None None None None
    None None None (Some "en") None None None None None None None None None None.

(** A PATCH body that sets the cover, and one that sets it to the empty
    string. *)
Definition with_cover : ComicUpdate.t :=
  ComicUpdate.mk None None None None None None None None None None None None None None None
    None None None None None None None None None None None None None None None None None
    None None (Some "https://covers.example.com/c-1.png") None None None [Attr.cover_url].

Definition without_cover : ComicUpdate.t :=
  ComicUpdate.mk None None None None None None None None None None None None None None None
    None None None None None None None None None None None None None None None None None
    None None (Some "") None None None [Attr.cover_url].



(** A text with a NUL character in it: [a], NUL, [b]. *)
Definition nul_text : string := String "a"%char (String Ascii.zero "b").




(** Stand-ins for the two steps of the serialisation. *)
Definition tostring (root : Element) : string := tag root.

Definition parseString_toprettyxml (raw indent : string) : option string :=
  Some (indent ++ raw)%string.

(** A parser that takes no document. *)
Definition parseString_raises (raw indent : string) : option string := None.

(** erin as [register] stores her at [now], and the store then. *)
Definition user_erin : User.t :=
  User.mk "u-erin" "erin" "erin@example.org" "bcrypt:tr0ub4dor-3" true false now now.

Definition db_with_erin : Db := set_users (users Sample.db ++ [user_erin]) Sample.db.

(** The key [create_api_key] stores for alice from [random_part], the
    response, and the store then. *)
Definition key_ci : ApiKey.t :=
  ApiKey.mk "k-9" "u-alice" "ci"
    "sha256:mng_abcdefghijklmnopqrstuvwxyzABCDEFGHIJKLMNOP012345" "mng_abcdef"
    true None now None.

Definition created_ci : ApiKeyCreated.t :=
  ApiKeyCreated.mk "k-9" "ci" "mng_abcdef" true None now None
    "mng_abcdefghijklmnopqrstuvwxyzABCDEFGHIJKLMNOP012345".

Definition db_with_key : Db := set_api_keys (api_keys Sample.db ++ [key_ci]) Sample.db.

(** The store after bob has revoked his key. *)
Definition db_revoked : Db :=
  set_api_keys
    [ApiKey.set_is_active false Sample.key_bob; Sample.key_expired; Sample.key_revoked;
     Sample.key_carol]
    Sample.db.

(** The store of dave's ten keys after he has revoked the first. *)
Definition db_nine : Db :=
  set_api_keys
    (ApiKey.set_is_active false (Sample.key_of_dave 1) :: map Sample.key_of_dave (seq 2 9))
    Sample.db_full.

(** The comic [create_comic] stores for alice from [saga], and the store
    then. *)
Definition comic_saga : Comic.t := Comic_of_dump saga "u-alice" "c-9" 150 151.

Definition db_with_saga : Db := set_comics (comics Sample.db ++ [comic_saga]) Sample.db.

(** "Watchmen" after [with_cover] and after [without_cover], at time 500. *)
Definition covered_watchmen : Comic.t :=
  Comic.set_updated_at 500
    (Comic.set_cover_url (Some "https://covers.example.com/c-1.png") Sample.watchmen).

Definition uncovered_watchmen : Comic.t :=
  Comic.set_updated_at 500 (Comic.set_cover_url (Some "") Sample.watchmen).

(** A session: erin registers, alice logs in, bob creates a key, asks for a
    listing the store refuses and revokes his first key; alice patches and
    then deletes her comic, creates another and downloads its document. *)
Definition session : list call :=
  [ mkCall None None 100 (POST_register erin "u-erin");
    mkCall None None 105 (POST_login (UserLogin.mk "alice" "correct horse"));
    mkCall None (Some "mng_bob") 110
      (POST_api_keys (ApiKeyCreate.mk "ci" None) random_part "k-9");
    mkCall None (Some "mng_bob") 115
      (GET_comics None None None None None None (Some 2147483648) None None None None
         None None None);
    mkCall None (Some "mng_bob") 120 (DELETE_api_key "K-1");
    mkCall (Some "token-of-alice") None 130 (PATCH_comic "c-1" Sample.only_summary);
    mkCall (Some "token-of-alice") None 140 (DELETE_comic "c-1");
    mkCall (Some "token-of-alice") None 150 (POST_comics saga "c-9" 151);
    mkCall (Some "token-of-alice") None 160 (GET_comicinfo "c-9") ].

End Demo.

(** * Properties *)

(** ** Selecting on a unique column *)

Section UniqueKey.

Context {A : Type}.
Variable key : A -> string.
Variable cond : A -> bool.

Let on_key (v : string) (x : A) : bool := String.eqb (key x) v && cond x.

Lemma select_absent_key (v : string) (l : list A) :
  ~ In v (map key l) -> filter (on_key v) l = [].
Proof.
  induction l as [|a l IH]; simpl; intros Hnot; [reflexivity|].
  unfold on_key at 1.
  destruct (String.eqb_spec (key a) v) as [E|_]; simpl.
  - exfalso. apply Hnot. now left.
  - apply IH. intros Hin. apply Hnot. now right.
Qed.

Lemma select_unique_key (l : list A) (x : A) :
  NoDup (map key l) -> In x l ->
  filter (on_key (key x)) l = if cond x then [x] else [].
Proof.
  induction l as [|a l IH]; simpl; intros Hnd Hin; [contradiction|].
  inversion Hnd as [|? ? Hnotin Hnd']; subst.
  destruct Hin as [->|Hin].
  - unfold on_key at 1. rewrite String.eqb_refl. simpl.
    rewrite (select_absent_key (key x) l Hnotin).
    now destruct (cond x).
  - unfold on_key at 1.
    destruct (String.eqb_spec (key a) (key x)) as [E|_]; simpl.
    + exfalso. apply Hnotin. rewrite E. now apply in_map.
    + now apply IH.
Qed.

(** A query on a unique column selects no row or one. *)
Lemma select_at_most_one (v : string) (l : list A) :
  NoDup (map key l) ->
  filter (on_key v) l = [] \/ exists x, In x l /\ key x = v /\ filter (on_key v) l = [x].
Proof.
  intros Hnd.
  destruct (in_dec string_dec v (map key l)) as [Hin|Hnot].
  - apply in_map_iff in Hin. destruct Hin as [x [Hk Hx]].
    pose proof (select_unique_key l x Hnd Hx) as E. rewrite Hk in E.
    destruct (cond x).
    + right. exists x. auto.
    + now left.
  - left. now apply select_absent_key.
Qed.

End UniqueKey.

Lemma existsb_pointwise {A : Type} (f g : A -> bool) (l : list A) :
  (forall x, f x = g x) -> existsb f l = existsb g l.
Proof.
  intros Hfg. induction l as [|a l IH]; simpl; [reflexivity|].
  now rewrite Hfg, IH.
Qed.

Lemma forallb_pointwise {A : Type} (f g : A -> bool) (l : list A) :
  (forall x, f x = g x) -> forallb f l = forallb g l.
Proof.
  intros Hfg. induction l as [|a l IH]; simpl; [reflexivity|].
  now rewrite Hfg, IH.
Qed.

Section PrimaryKey.

Context {A : Type}.
Variable key : A -> string.

Lemma select_by_key_present (l : list A) (x : A) :
  NoDup (map key l) -> In x l ->
  filter (fun y => String.eqb (key y) (key x)) l = [x].
Proof.
  intros Hnd Hin.
  rewrite (filter_ext _ (fun y => String.eqb (key y) (key x) && true)).
  - apply (select_unique_key key (fun _ => true) l x Hnd Hin).
  - intros y. now rewrite andb_true_r.
Qed.

Lemma select_by_key_absent (v : string) (l : list A) :
  (forall y, In y l -> key y <> v) ->
  filter (fun y => String.eqb (key y) v) l = [].
Proof.
  intros Hnone.
  rewrite (filter_ext _ (fun y => String.eqb (key y) v && true)).
  - apply (select_absent_key key (fun _ => true)).
    intros Hin. apply in_map_iff in Hin. destruct Hin as [y [Hy Hl]].
    exact (Hnone y Hl Hy).
  - intros y. now rewrite andb_true_r.
Qed.

End PrimaryKey.

(** ** The monad *)

Lemma bind_ok {A B : Type} (m : M A) (k : A -> M B) (db db' : Db) (a : A) :
  m db = (Ok a, db') -> bind m k db = k a db'.
Proof. unfold bind. now intros ->. Qed.


(** ** The credential resolver *)

Section CredentialFacts.

Variable jwt_decode : string -> option payload.
Variable sha256_hexdigest : string -> string.

Let from_token := get_current_user_from_token jwt_decode.
Let from_api_key := get_current_user_from_api_key sha256_hexdigest.
Let dependency := current_user_dependency jwt_decode sha256_hexdigest.

(** Reading a token does not write to the store. *)
Lemma from_token_reads_only (credentials : option string) (db : Db) :
  snd (from_token credentials db) = db.
Proof.
  unfold from_token, get_current_user_from_token.
  destruct credentials as [token|]; [|reflexivity].
  destruct (decode_access_token jwt_decode token) as [p|]; [|reflexivity].
  destruct (truthy_payload p); [|reflexivity]. simpl.
  destruct (payload_get "sub" p) as [user_id|]; [|reflexivity].
  destruct (truthy_jvalue user_id); [|reflexivity]. simpl.
  unfold bind, select_users.
  match goal with |- context [filter ?f ?l] => destruct (filter f l) as [|x [|y l']] end;
    reflexivity.
Qed.

(** A token whose subject is the key of an active user resolves to that user. *)
Lemma from_token_resolves (token uid : string) (p : payload) (u : User.t) (db : Db) :
  NoDup (map User.id (users db)) ->
  jwt_decode token = Some p ->
  payload_get "sub" p = Some (JString uid) ->
  uid <> "" ->
  In u (users db) -> User.id u = uid -> User.is_active u = true ->
  from_token (Some token) db = (Ok (Some u), db).
Proof.
  intros Hnd Hdec Hsub Hne Hin Hid Hact.
  unfold from_token, get_current_user_from_token, decode_access_token.
  rewrite Hdec.
  assert (Hp : truthy_payload p = true).
  { destruct p; [discriminate Hsub | reflexivity]. }
  rewrite Hp, Hsub. simpl.
  assert (Ht : truthy_str uid = true).
  { unfold truthy_str. destruct (String.eqb_spec uid ""); [contradiction | reflexivity]. }
  rewrite Ht. simpl.
  unfold bind, select_users.
  pose proof (select_unique_key User.id (fun x => Bool.eqb (User.is_active x) true)
                (users db) u Hnd Hin) as E.
  cbv beta in E. rewrite Hid, Hact in E. simpl in E. rewrite E.
  reflexivity.
Qed.

(** On a store that honours its uniqueness constraints the key lookup never
    raises, and it writes to [api_keys] only. *)
Lemma from_api_key_returns (api_key : option string) (now : datetime) (db : Db) :
  db_wf db ->
  exists r db', from_api_key api_key now db = (Ok r, db')
                /\ users db' = users db /\ comics db' = comics db.
Proof.
  intros Hwf.
  unfold from_api_key, get_current_user_from_api_key.
  destruct api_key as [s|]; simpl; [|now exists None, db].
  destruct (truthy_str s); simpl; [|now exists None, db].
  unfold bind, select_api_keys.
  destruct (select_at_most_one ApiKey.key_hash (fun k => Bool.eqb (ApiKey.is_active k) true)
              (hash_api_key sha256_hexdigest s) (api_keys db) (wf_key_hash db Hwf))
    as [E | [k [_ [_ E]]]]; cbv beta in E; rewrite E; simpl.
  - now exists None, db.
  - destruct (ApiKey.expires_at k) as [e|].
    + destruct (e <? now); [now exists None, db|].
      unfold bind, update_api_key, select_users. simpl.
      destruct (select_at_most_one User.id (fun x => Bool.eqb (User.is_active x) true)
                  (ApiKey.user_id k) (users db) (wf_user_id db Hwf))
        as [E' | [u [_ [_ E']]]]; cbv beta in E'; rewrite E'; simpl;
        unfold ret; do 2 eexists; repeat split; reflexivity.
    + unfold bind, update_api_key, select_users. simpl.
      destruct (select_at_most_one User.id (fun x => Bool.eqb (User.is_active x) true)
                  (ApiKey.user_id k) (users db) (wf_user_id db Hwf))
        as [E' | [u [_ [_ E']]]]; cbv beta in E'; rewrite E'; simpl;
        unfold ret; do 2 eexists; repeat split; reflexivity.
Qed.

(** C1. A request carries a bearer token and an API-key header.  When the
    token decodes to a subject that is the key of an active user, the
    dependency resolves to that user, whatever the key resolves to; when
    both lookups return no user, the request is refused with status 401,
    "Not authenticated". *)
Theorem token_principal_takes_precedence
    (token api_key : string) (now : datetime) (db : Db) :
  db_wf db ->
  (forall (p : payload) (uid : string) (u : User.t),
      jwt_decode token = Some p ->
      payload_get "sub" p = Some (JString uid) ->
      uid <> "" ->
      In u (users db) -> User.id u = uid -> User.is_active u = true ->
      from_token (Some token) db = (Ok (Some u), db)
      /\ (forall key_user : option User.t,
             get_current_user (Some u) key_user db = (Ok u, db))
      /\ fst (dependency (Some token) (Some api_key) now db) = Ok u)
  /\ (forall db1 db2 : Db,
         from_token (Some token) db = (Ok None, db1) ->
         from_api_key (Some api_key) now db1 = (Ok None, db2) ->
         dependency (Some token) (Some api_key) now db
         = (HTTPException 401 "Not authenticated", db2)).
Proof.
  intros Hwf. split.
  - intros p uid u Hdec Hsub Hne Hin Hid Hact.
    pose proof (from_token_resolves token uid p u db (wf_user_id db Hwf)
                  Hdec Hsub Hne Hin Hid Hact) as Htok.
    split; [exact Htok|].
    split; [reflexivity|].
    unfold dependency, current_user_dependency.
    fold from_token. rewrite (bind_ok _ _ _ _ _ Htok).
    destruct (from_api_key_returns (Some api_key) now db Hwf) as [r [db' [E _]]].
    fold from_api_key. rewrite (bind_ok _ _ _ _ _ E).
    reflexivity.
  - intros db1 db2 Htok Hkey.
    unfold dependency, current_user_dependency.
    fold from_token. rewrite (bind_ok _ _ _ _ _ Htok).
    fold from_api_key. rewrite (bind_ok _ _ _ _ _ Hkey).
    reflexivity.
Qed.

(** C2. The header hashes to the [key_hash] of a stored key.  If that key is
    inactive, or its [expires_at] lies before the current time, or its owner
    is inactive, the lookup returns [None]. *)
Theorem revoked_expired_or_orphaned_key_resolves_to_none
    (api_key : string) (now : datetime) (db : Db) (k : ApiKey.t) :
  db_wf db ->
  In k (api_keys db) ->
  ApiKey.key_hash k = hash_api_key sha256_hexdigest api_key ->
  ApiKey.is_active k = false
  \/ (exists e, ApiKey.expires_at k = Some e /\ e < now)
  \/ (exists u, In u (users db) /\ User.id u = ApiKey.user_id k
                /\ User.is_active u = false) ->
  fst (from_api_key (Some api_key) now db) = Ok None.
Proof.
  intros Hwf Hin Hhash Hcase.
  unfold from_api_key, get_current_user_from_api_key. simpl.
  destruct (truthy_str api_key); simpl; [|reflexivity].
  unfold bind, select_api_keys.
  pose proof (select_unique_key ApiKey.key_hash
                (fun x => Bool.eqb (ApiKey.is_active x) true)
                (api_keys db) k (wf_key_hash db Hwf) Hin) as E.
  cbv beta in E. rewrite Hhash in E. rewrite E. clear E.
  destruct (ApiKey.is_active k) eqn:Hact; simpl; [|reflexivity].
  destruct Hcase as [Hoff | [[e [He Hlt]] | [u [Hu [Hid Hinactive]]]]].
  - discriminate Hoff.
  - rewrite He. apply Z.ltb_lt in Hlt. rewrite Hlt. reflexivity.
  - destruct (match ApiKey.expires_at k with
              | Some expires_at => expires_at <? now
              | None => false
              end); [reflexivity|].
    unfold update_api_key, select_users. simpl.
    pose proof (select_unique_key User.id (fun x => Bool.eqb (User.is_active x) true)
                  (users db) u (wf_user_id db Hwf) Hu) as E.
    cbv beta in E. rewrite Hid, Hinactive in E. simpl in E. rewrite E. reflexivity.
Qed.

End CredentialFacts.

(** ** Reading and writing the attributes of a comic *)

Lemma Attr_all_complete (a : Attr.t) : In a Attr.all.
Proof. destruct a; simpl; tauto. Qed.

Lemma Attr_all_NoDup : NoDup Attr.all.
Proof.
  unfold Attr.all.
  repeat (constructor; [simpl; intuition discriminate|]).
  constructor.
Qed.

(** What a validated payload holds for an attribute has the type of the
    column, so assigning it is read back. *)
Lemma getattr_setattr_same (p : ComicUpdate.t) (c : Comic.t) (key : Attr.t) (v : value) :
  ComicUpdate.get p key = Some v ->
  Comic.getattr (Comic.setattr c key v) key = Some v.
Proof.
  destruct key; simpl;
    match goal with
    | |- option_map _ ?f = _ -> _ => destruct f; simpl
    end;
    intros H; inversion H; reflexivity.
Qed.

Lemma getattr_setattr_other (c : Comic.t) (key key' : Attr.t) (v : value) :
  key <> key' ->
  Comic.getattr (Comic.setattr c key v) key' = Comic.getattr c key'.
Proof.
  intros Hne.
  destruct key, v; try reflexivity; destruct key'; try reflexivity; congruence.
Qed.

(** Assignment touches none of the columns a payload cannot name. *)
Lemma setattr_keeps_unpatchable (c : Comic.t) (key : Attr.t) (v : value) :
  Comic.id (Comic.setattr c key v) = Comic.id c
  /\ Comic.cover_image_path (Comic.setattr c key v) = Comic.cover_image_path c
  /\ Comic.created_at (Comic.setattr c key v) = Comic.created_at c
  /\ Comic.updated_at (Comic.setattr c key v) = Comic.updated_at c
  /\ Comic.created_by (Comic.setattr c key v) = Comic.created_by c.
Proof. destruct key, v; repeat split; reflexivity. Qed.

Lemma apply_items_keeps_unpatchable (items : list (Attr.t * value)) (c : Comic.t) :
  Comic.id (apply_items items c) = Comic.id c
  /\ Comic.cover_image_path (apply_items items c) = Comic.cover_image_path c
  /\ Comic.created_at (apply_items items c) = Comic.created_at c
  /\ Comic.updated_at (apply_items items c) = Comic.updated_at c
  /\ Comic.created_by (apply_items items c) = Comic.created_by c.
Proof.
  revert c. induction items as [|[key v] items IH]; intros c; simpl.
  - repeat split.
  - destruct (IH (Comic.setattr c key v)) as [H1 [H2 [H3 [H4 H5]]]].
    destruct (setattr_keeps_unpatchable c key v) as [G1 [G2 [G3 [G4 G5]]]].
    unfold apply_items in *.
    rewrite H1, H2, H3, H4, H5. auto.
Qed.

Lemma apply_items_outside (p : ComicUpdate.t) (keys : list Attr.t) (c : Comic.t)
    (key : Attr.t) :
  ~ In key keys ->
  Comic.getattr (apply_items (items_of p keys) c) key = Comic.getattr c key.
Proof.
  revert c. induction keys as [|k keys IH]; intros c Hnot; [reflexivity|].
  simpl in Hnot. unfold items_of. simpl. fold (items_of p keys).
  unfold apply_items. rewrite fold_left_app. fold (apply_items (items_of p keys)).
  rewrite IH by tauto.
  destruct (ComicUpdate.get p k); simpl; [|reflexivity].
  apply getattr_setattr_other. intros ->. tauto.
Qed.

Lemma apply_items_inside (p : ComicUpdate.t) (keys : list Attr.t) (c : Comic.t)
    (key : Attr.t) :
  NoDup keys -> In key keys ->
  Comic.getattr (apply_items (items_of p keys) c) key
  = match ComicUpdate.get p key with
    | Some v => Some v
    | None => Comic.getattr c key
    end.
Proof.
  revert c. induction keys as [|k keys IH]; intros c Hnd Hin; [contradiction|].
  inversion Hnd as [|? ? Hfresh Hnd']; subst.
  unfold items_of. simpl. fold (items_of p keys).
  unfold apply_items. rewrite fold_left_app. fold (apply_items (items_of p keys)).
  destruct Hin as [->|Hin].
  - rewrite apply_items_outside by assumption.
    destruct (ComicUpdate.get p key) eqn:E; simpl; [|reflexivity].
    now apply (getattr_setattr_same p).
  - rewrite IH by assumption.
    destruct (ComicUpdate.get p key) eqn:E; [reflexivity|].
    destruct (ComicUpdate.get p k); simpl; [|reflexivity].
    apply getattr_setattr_other. intros ->. contradiction.
Qed.

(** The loop of [update_comic] over [model_dump(exclude_none=True)]. *)
Lemma patch_getattr (p : ComicUpdate.t) (c : Comic.t) (key : Attr.t) :
  Comic.getattr (apply_items (model_dump_exclude_none p) c) key
  = match ComicUpdate.get p key with
    | Some v => Some v
    | None => Comic.getattr c key
    end.
Proof.
  apply (apply_items_inside p Attr.all c key Attr_all_NoDup (Attr_all_complete key)).
Qed.

(** ** Updating and deleting a comic *)

Lemma opt_eqb_string_spec (a : option string) (s : string) :
  opt_eqb String.eqb a (Some s) = true <-> a = Some s.
Proof.
  destruct a as [x|]; simpl.
  - rewrite String.eqb_eq. split; congruence.
  - split; discriminate.
Qed.


Lemma forbidden_false (c : Comic.t) (u : User.t) :
  forbidden c u = false
  <-> Comic.created_by c = Some (User.id u) \/ User.is_admin u = true.
Proof.
  unfold forbidden.
  rewrite andb_false_iff, !negb_false_iff, opt_eqb_string_spec. tauto.
Qed.

Lemma getattr_set_updated_at (now : datetime) (c : Comic.t) (key : Attr.t) :
  Comic.getattr (Comic.set_updated_at now c) key = Comic.getattr c key.
Proof. destruct key; reflexivity. Qed.

Lemma modified_set_updated_at (now : datetime) (c c' : Comic.t) :
  modified c (Comic.set_updated_at now c') = modified c c'.
Proof.
  unfold modified. apply existsb_pointwise. intros key.
  now rewrite getattr_set_updated_at.
Qed.

(** Both handlers start with the same lookup. *)
Lemma lookup_absent (comic_id : uuid) (db : Db) :
  (forall c, In c (comics db) -> Comic.id c <> comic_id) ->
  bind (select_comics (fun c => String.eqb (Comic.id c) comic_id)) scalar_one_or_none db
  = (Ok None, db).
Proof.
  intros Hnone. unfold bind, select_comics.
  now rewrite (select_by_key_absent Comic.id comic_id (comics db) Hnone).
Qed.

Lemma lookup_present (c : Comic.t) (db : Db) :
  db_wf db -> In c (comics db) ->
  bind (select_comics (fun x => String.eqb (Comic.id x) (Comic.id c))) scalar_one_or_none db
  = (Ok (Some c), db).
Proof.
  intros Hwf Hin. unfold bind, select_comics.
  now rewrite (select_by_key_present Comic.id (comics db) c (wf_comic_id db Hwf) Hin).
Qed.

Lemma update_comic_unfold (comic_id : uuid) (payload : ComicUpdate.t) (u : User.t)
    (now : datetime) (db : Db) :
  update_comic comic_id payload u now db
  = match bind (select_comics (fun c => String.eqb (Comic.id c) comic_id))
                scalar_one_or_none db with
    | (Ok None, db') => (HTTPException 404 "Comic not found", db')
    | (Ok (Some c), db') =>
      if forbidden c u then (HTTPException 403 "Not allowed to edit this comic", db')
      else commit_comic now c (apply_items (model_dump_exclude_none payload) c) db'
    | (HTTPException s d, db') => (HTTPException s d, db')
    | (RequestValidationError, db') => (RequestValidationError, db')
    | (Unhandled e, db') => (Unhandled e, db')
    end.
Proof.
  unfold update_comic, bind, select_comics.
  destruct (filter _ (comics db)) as [|c [|c' l]]; try reflexivity.
  simpl. unfold forbidden.
  now destruct (negb _ && negb _).
Qed.

Lemma delete_comic_unfold (comic_id : uuid) (u : User.t) (db : Db) :
  delete_comic comic_id u db
  = match bind (select_comics (fun c => String.eqb (Comic.id c) comic_id))
                scalar_one_or_none db with
    | (Ok None, db') => (HTTPException 404 "Comic not found", db')
    | (Ok (Some c), db') =>
      if forbidden c u then (HTTPException 403 "Not allowed to delete this comic", db')
      else delete_comic_row c db'
    | (HTTPException s d, db') => (HTTPException s d, db')
    | (RequestValidationError, db') => (RequestValidationError, db')
    | (Unhandled e, db') => (Unhandled e, db')
    end.
Proof.
  unfold delete_comic, bind, select_comics.
  destruct (filter _ (comics db)) as [|c [|c' l]]; try reflexivity.
  simpl. unfold forbidden.
  now destruct (negb _ && negb _).
Qed.

Lemma update_fits_set_updated_at (now : datetime) (c c' : Comic.t) :
  update_fits c (Comic.set_updated_at now c') = update_fits c c'.
Proof.
  unfold update_fits. apply forallb_pointwise. intros key.
  now rewrite getattr_set_updated_at.
Qed.

(** Without a change there is no value for the store to refuse. *)
Lemma unmodified_fits (c c' : Comic.t) : modified c c' = false -> update_fits c c' = true.
Proof.
  unfold modified, update_fits. intros Hm.
  apply forallb_forall. intros key Hkey.
  destruct (opt_eqb value_eqb (Comic.getattr c key) (Comic.getattr c' key)) eqn:E;
    [reflexivity|].
  exfalso. rewrite <- not_true_iff_false in Hm. apply Hm.
  apply existsb_exists. exists key. split; [exact Hkey | now rewrite E].
Qed.

(** What [db.commit()] does: nothing without a change; with one, the UPDATE
    is refused, or the row is written with the time of the update. *)
Lemma commit_comic_runs (now : datetime) (c c' : Comic.t) (db : Db) :
  commit_comic now c c' db
  = if update_fits c c' then
      if modified c c' then
        (Ok (Comic.set_updated_at now c'),
         set_comics
           (map (fun x => if String.eqb (Comic.id x) (Comic.id c')
                          then Comic.set_updated_at now c' else x) (comics db))
           db)
      else (Ok c', db)
    else (Unhandled DBAPIError, db).
Proof.
  unfold commit_comic. destruct (modified c c') eqn:Hm.
  - cbv zeta. unfold bind, update_comic_row.
    rewrite update_fits_set_updated_at.
    now destruct (update_fits c c').
  - now rewrite (unmodified_fits c c' Hm).
Qed.



(** C5, as the code has it.  After a successful PATCH every attribute the
    body gave a value holds that value and every other attribute of the
    comic, [title] included, holds what it held; [id], [cover_image_path],
    [created_at] and [created_by] are kept; [updated_at] is kept when no
    attribute changed and is the time of the update when one did; the other
    rows and tables are as they were; and a payload that names a field with
    [null] does what the payload without that field does. *)
Theorem patch_changes_supplied_fields_and_updated_at
    (comic_id : uuid) (payload : ComicUpdate.t) (u : User.t) (now : datetime)
    (db db' : Db) (c c' : Comic.t) :
  db_wf db ->
  In c (comics db) -> Comic.id c = comic_id ->
  update_comic comic_id payload u now db = (Ok c', db') ->
  (forall key : Attr.t,
      Comic.getattr c' key
      = match ComicUpdate.get payload key with
        | Some v => Some v
        | None => Comic.getattr c key
        end)
  /\ Comic.id c' = Comic.id c
  /\ Comic.cover_image_path c' = Comic.cover_image_path c
  /\ Comic.created_at c' = Comic.created_at c
  /\ Comic.created_by c' = Comic.created_by c
  /\ Comic.updated_at c' = (if modified c c' then now else Comic.updated_at c)
  /\ users db' = users db
  /\ api_keys db' = api_keys db
  /\ (forall x, Comic.id x <> comic_id -> (In x (comics db') <-> In x (comics db)))
  /\ (forall payload' : ComicUpdate.t,
         (forall key, ComicUpdate.get payload' key = ComicUpdate.get payload key) ->
         update_comic comic_id payload' u now db = (Ok c', db')).
Proof.
  intros Hwf Hin Hid Hrun. subst comic_id.
  assert (Hdump : forall payload' : ComicUpdate.t,
             (forall key, ComicUpdate.get payload' key = ComicUpdate.get payload key) ->
             model_dump_exclude_none payload' = model_dump_exclude_none payload).
  { intros payload' Hsame. unfold model_dump_exclude_none.
    apply flat_map_ext. intros key. now rewrite Hsame. }
  assert (Hnull : forall payload' : ComicUpdate.t,
             (forall key, ComicUpdate.get payload' key = ComicUpdate.get payload key) ->
             update_comic (Comic.id c) payload' u now db = (Ok c', db')).
  { intros payload' Hsame. rewrite <- Hrun.
    rewrite !update_comic_unfold. now rewrite (Hdump payload' Hsame). }
  rewrite update_comic_unfold, (lookup_present c db Hwf Hin) in Hrun.
  destruct (forbidden c u); [discriminate Hrun|].
  set (patched := apply_items (model_dump_exclude_none payload) c) in *.
  destruct (apply_items_keeps_unpatchable (model_dump_exclude_none payload) c)
    as [K1 [K2 [K3 [K4 K5]]]].
  fold patched in K1, K2, K3, K4, K5.
  rewrite commit_comic_runs in Hrun.
  destruct (update_fits c patched); [|discriminate Hrun].
  destruct (modified c patched) eqn:Hmod.
  - (* an UPDATE is emitted *)
    inversion Hrun; subst c' db'; clear Hrun.
    rewrite modified_set_updated_at, Hmod.
    repeat split; try assumption; try reflexivity.
    + intros key. rewrite getattr_set_updated_at. apply patch_getattr.
    + simpl. rewrite in_map_iff. intros [y [Hy Hin']].
      destruct (String.eqb_spec (Comic.id y) (Comic.id patched)) as [E|_].
      * subst x. simpl in H. rewrite K1 in H. contradiction.
      * now subst y.
    + simpl. intros Hx. apply in_map_iff. exists x. split; [|assumption].
      destruct (String.eqb_spec (Comic.id x) (Comic.id patched)) as [E|_];
        [|reflexivity].
      rewrite K1 in E. contradiction.
  - (* nothing to flush *)
    inversion Hrun; subst c' db'; clear Hrun.
    rewrite Hmod.
    repeat split; try assumption; try reflexivity; try tauto.
    intros key. apply patch_getattr.
Qed.

(** ** The compiled filter *)

Lemma append_when_truthy {A : Type} (t : A -> bool) (o : option A)
    (f : A -> list clause) (l : list clause) :
  match o with
  | Some v => if t v then l ++ f v else l
  | None => l
  end = l ++ when_truthy t o f.
Proof.
  destruct o as [v|]; simpl; [destruct (t v)|]; now rewrite ?app_nil_r.
Qed.

(** [build_search_query] parameter by parameter. *)
Lemma build_search_query_segments (params : SearchParams.t) :
  build_search_query params
  = when_truthy truthy_str (SearchParams.q params)
      (fun v => [or_ [ilike col_title (contains v); ilike col_series (contains v);
                      ilike col_summary (contains v); ilike col_writer (contains v);
                      ilike col_publisher (contains v)]])
    ++ when_truthy truthy_str (SearchParams.series params)
         (fun v => [ilike col_series (contains v)])
    ++ when_truthy truthy_str (SearchParams.publisher params)
         (fun v => [ilike col_publisher (contains v)])
    ++ when_truthy truthy_str (SearchParams.writer params)
         (fun v => [ilike col_writer (contains v)])
    ++ when_truthy truthy_str (SearchParams.genre params)
         (fun v => [ilike col_genre (contains v)])
    ++ when_truthy truthy_int (SearchParams.year_from params) (fun v => [year_ge v])
    ++ when_truthy truthy_int (SearchParams.year_to params) (fun v => [year_le v])
    ++ when_truthy truthy_str (SearchParams.language params)
         (fun v => [eq_ col_language_iso v])
    ++ when_truthy truthy_str (SearchParams.manga params) (fun v => [eq_ col_manga v])
    ++ when_truthy truthy_str (SearchParams.age_rating params)
         (fun v => [eq_ col_age_rating v]).
Proof.
  cbv beta delta [build_search_query].
  (* one statement of the function at a time, so that the list built so far
     is never copied into the three branches of the next test *)
  repeat lazymatch goal with
         | |- (let filters := ?X in @?rest filters) = ?rhs =>
           let X' := eval cbv zeta in X in
           lazymatch X' with
           | match ?o with
             | Some v => if ?t v then ?l ++ @?f v else ?l
             | None => ?l
             end =>
             change (rest X' = rhs); rewrite (append_when_truthy t o f l); cbv beta
           | _ => change (rest X' = rhs); cbv beta
           end
         end.
  rewrite <- !app_assoc. reflexivity.
Qed.

(** *** Three-valued logic under WHERE *)

Lemma is_true_or3 (a b : option bool) : is_true (or3 a b) = is_true a || is_true b.
Proof. destruct a as [[|]|], b as [[|]|]; reflexivity. Qed.

Lemma is_true_and3 (a b : option bool) : is_true (and3 a b) = is_true a && is_true b.
Proof. destruct a as [[|]|], b as [[|]|]; reflexivity. Qed.

Lemma on_truthy_ext {A : Type} (t : A -> bool) (o : option A) (f g : A -> bool) :
  (forall v, f v = g v) -> on_truthy t o f = on_truthy t o g.
Proof. intros E. destruct o as [v|]; simpl; [now rewrite E | reflexivity]. Qed.

Lemma any_of_app (l1 l2 : list text_column) (test : string -> bool) (c : Comic.t) :
  any_of (l1 ++ l2) test c = any_of l1 test c || any_of l2 test c.
Proof. unfold any_of. apply existsb_app. Qed.

Section Where.

Variable lower : string -> string.

Lemma is_true_and_app (c : Comic.t) (l1 l2 : list clause) :
  is_true (and_ lower c (l1 ++ l2))
  = is_true (and_ lower c l1) && is_true (and_ lower c l2).
Proof.
  induction l1 as [|e l1 IH]; simpl; [reflexivity|].
  now rewrite !is_true_and3, IH, andb_assoc.
Qed.

Lemma is_true_and_one (c : Comic.t) (e : clause) :
  is_true (and_ lower c [e]) = is_true (eval lower c e).
Proof. simpl. now rewrite is_true_and3, andb_true_r. Qed.

Lemma is_true_when_truthy {A : Type} (t : A -> bool) (o : option A)
    (f : A -> list clause) (c : Comic.t) :
  is_true (and_ lower c (when_truthy t o f))
  = on_truthy t o (fun v => is_true (and_ lower c (f v))).
Proof. destruct o as [v|]; simpl; [destruct (t v)|]; reflexivity. Qed.

(** *** The clauses, one kind at a time *)

Lemma eval_ilike (c : Comic.t) (col : text_column) (pattern : string) :
  is_true (eval lower c (ilike col pattern)) = any_of [col] (ilike_match lower pattern) c.
Proof.
  simpl. destruct (text_of col c) as [s|]; simpl;
    [destruct (ilike_match lower pattern s)|]; reflexivity.
Qed.

Lemma eval_eq (c : Comic.t) (col : text_column) (v : string) :
  is_true (eval lower c (eq_ col v)) = any_of [col] (fun s => String.eqb s v) c.
Proof.
  simpl. destruct (text_of col c) as [s|]; simpl; [destruct (String.eqb s v)|];
    reflexivity.
Qed.

Lemma eval_year_ge (c : Comic.t) (v : Z) :
  is_true (eval lower c (year_ge v)) = year_is (fun y => v <=? y) c.
Proof.
  unfold year_is. simpl.
  destruct (Comic.year c) as [y|]; simpl; [destruct (v <=? y)|]; reflexivity.
Qed.

Lemma eval_year_le (c : Comic.t) (v : Z) :
  is_true (eval lower c (year_le v)) = year_is (fun y => y <=? v) c.
Proof.
  unfold year_is. simpl.
  destruct (Comic.year c) as [y|]; simpl; [destruct (y <=? v)|]; reflexivity.
Qed.

Lemma eval_free_text (c : Comic.t) (pattern : string) :
  is_true (eval lower c (or_ (map (fun col => ilike col pattern) free_text_columns)))
  = any_of free_text_columns (ilike_match lower pattern) c.
Proof.
  change (is_true (or3 (eval lower c (ilike col_title pattern))
                    (or3 (eval lower c (ilike col_series pattern))
                       (or3 (eval lower c (ilike col_summary pattern))
                          (or3 (eval lower c (ilike col_writer pattern))
                             (or3 (eval lower c (ilike col_publisher pattern))
                                (Some false))))))
          = any_of ([col_title] ++ [col_series] ++ [col_summary] ++ [col_writer]
                    ++ [col_publisher]) (ilike_match lower pattern) c).
  rewrite !is_true_or3, !any_of_app, !eval_ilike.
  simpl (is_true (Some false)). now rewrite orb_false_r.
Qed.

(** The compiled filter is the conjunction of the filters whose parameter is
    truthy. *)
Lemma selects_applied_filter (params : SearchParams.t) (c : Comic.t) :
  selects lower params c = applied_filter lower params c.
Proof.
  unfold selects, applied_filter.
  rewrite build_search_query_segments.
  rewrite !is_true_and_app, !is_true_when_truthy, <- !andb_assoc.
  repeat (f_equal; [apply on_truthy_ext; intros v; rewrite is_true_and_one;
                    first [ apply eval_ilike | apply eval_eq | apply eval_year_ge
                          | apply eval_year_le | apply (eval_free_text c (contains v)) ]|]).
  apply on_truthy_ext; intros v; rewrite is_true_and_one. apply eval_eq.
Qed.

End Where.

(** ** Listing: ordering and paging *)

Section Ordering.

Variable leb : Comic.t -> Comic.t -> bool.

Lemma insert_row_perm (x : Comic.t) (l : list Comic.t) :
  Permutation (insert_row leb x l) (x :: l).
Proof.
  induction l as [|y l IH]; simpl.
  - apply Permutation_refl.
  - destruct (leb x y).
    + apply Permutation_refl.
    + apply perm_trans with (y :: x :: l).
      * now apply perm_skip.
      * apply perm_swap.
Qed.

(** ORDER BY rearranges the selected rows and does nothing else. *)
Lemma sort_rows_perm (l : list Comic.t) : Permutation (sort_rows leb l) l.
Proof.
  induction l as [|x l IH]; simpl.
  - apply perm_nil.
  - apply perm_trans with (x :: sort_rows leb l).
    + apply insert_row_perm.
    + now apply perm_skip.
Qed.

End Ordering.

(** OFFSET then LIMIT cut a list in three. *)
Lemma page_split {A : Type} (k n : nat) (l : list A) :
  l = firstn k l ++ firstn n (skipn k l) ++ skipn n (skipn k l)
  /\ List.length (firstn k l) = Nat.min k (List.length l)
  /\ List.length (firstn n (skipn k l)) = Nat.min n (List.length l - k).
Proof.
  repeat split.
  - now rewrite (firstn_skipn n (skipn k l)), (firstn_skipn k l).
  - apply length_firstn.
  - now rewrite length_firstn, length_skipn.
Qed.

(** *** The parameters that reach the store *)

Lemma nul_free_app (a b : string) : nul_free (a ++ b) = nul_free a && nul_free b.
Proof.
  induction a as [|c a IH]; simpl; [reflexivity|].
  now rewrite IH, andb_assoc.
Qed.

Lemma binds_when_truthy {A : Type} (t : A -> bool) (o : option A) (f : A -> list clause) :
  forallb binds (when_truthy t o f) = on_truthy t o (fun v => forallb binds (f v)).
Proof. destruct o as [v|]; simpl; [destruct (t v)|]; reflexivity. Qed.

(** The values [build_search_query] binds, parameter by parameter. *)
Lemma binds_build_search_query (params : SearchParams.t) :
  forallb binds (build_search_query params)
  = on_truthy truthy_str (SearchParams.q params) nul_free
    && on_truthy truthy_str (SearchParams.series params) nul_free
    && on_truthy truthy_str (SearchParams.publisher params) nul_free
    && on_truthy truthy_str (SearchParams.writer params) nul_free
    && on_truthy truthy_str (SearchParams.genre params) nul_free
    && on_truthy truthy_int (SearchParams.year_from params) int32
    && on_truthy truthy_int (SearchParams.year_to params) int32
    && on_truthy truthy_str (SearchParams.language params) nul_free
    && on_truthy truthy_str (SearchParams.manga params) nul_free
    && on_truthy truthy_str (SearchParams.age_rating params) nul_free.
Proof.
  rewrite build_search_query_segments.
  rewrite !forallb_app, !binds_when_truthy.
  rewrite !andb_assoc.
  repeat first
    [ apply on_truthy_ext; intros v; simpl; rewrite ?nul_free_app; simpl;
      (now destruct (nul_free v)) || apply andb_true_r
    | f_equal ].
Qed.

Section Statement.

Variable lower : string -> string.

Lemma where_nothing (rows : list Comic.t) :
  filter (fun c => is_true (and_ lower c [])) rows = rows.
Proof.
  change (filter (fun _ : Comic.t => true) rows = rows).
  induction rows as [|c rows IH]; simpl; [reflexivity | now rewrite IH].
Qed.

(** With or without a WHERE clause the statement selects the rows on which
    the conjunction of the filters is true. *)
Lemma matching_filters (filters : list clause) (s : Select) (rows : list Comic.t) :
  matching lower (if nonempty filters then where_ filters s else s) rows
  = match where_clause s with
    | None => filter (fun c => is_true (and_ lower c filters)) rows
    | Some f => if nonempty filters
                then filter (fun c => is_true (and_ lower c filters)) rows
                else filter (fun c => is_true (and_ lower c f)) rows
    end.
Proof.
  destruct filters as [|e filters].
  - cbv [nonempty]. unfold matching. destruct (where_clause s); [reflexivity|].
    symmetry. apply where_nothing.
  - unfold matching. simpl. now destruct (where_clause s).
Qed.

(** What the two statements of [list_comics] select. *)
Lemma count_query_rows (filters : list clause) (rows : list Comic.t) :
  matching lower (if nonempty filters then where_ filters select_Comic else select_Comic)
    rows
  = filter (fun c => is_true (and_ lower c filters)) rows.
Proof. now rewrite matching_filters. Qed.

Lemma data_query_rows (filters : list clause) (sort_by : string) (d : direction)
    (off lim : Z) (rows : list Comic.t) :
  let base := limit lim (offset off (order_by sort_by d select_Comic)) in
  let s := if nonempty filters then where_ filters base else base in
  paged s (ordered s (matching lower s rows))
  = firstn (Z.to_nat lim)
      (skipn (Z.to_nat off)
         (sort_rows (row_leb sort_by d)
            (filter (fun c => is_true (and_ lower c filters)) rows))).
Proof.
  intros base s.
  assert (Hm : matching lower s rows
               = filter (fun c => is_true (and_ lower c filters)) rows).
  { unfold s. now rewrite matching_filters. }
  rewrite Hm. unfold s. now destruct filters.
Qed.

(** What the two statements bind. *)
Lemma count_query_accepted (filters : list clause) :
  accepted (if nonempty filters then where_ filters select_Comic else select_Comic)
  = forallb binds filters.
Proof. destruct filters as [|e filters]; unfold accepted; simpl; now rewrite ?andb_true_r. Qed.

Lemma data_query_accepted (filters : list clause) (sort_by : string) (d : direction)
    (off lim : Z) :
  let base := limit lim (offset off (order_by sort_by d select_Comic)) in
  accepted (if nonempty filters then where_ filters base else base)
  = forallb binds filters && row_count (Some off) && row_count (Some lim).
Proof. destruct filters as [|e filters]; reflexivity. Qed.

End Statement.

Lemma valid_page (p n : Z) (by_ dir : string) :
  (p >=? 1) && (n >=? 1) && (n <=? 100) && sort_by_pattern by_ && sort_order_pattern dir
  = true ->
  1 <= p /\ 1 <= n <= 100.
Proof.
  rewrite !andb_true_iff, !Z.geb_le, Z.leb_le. lia.
Qed.

Lemma row_count_page (p n : Z) :
  1 <= p -> 1 <= n <= 100 ->
  row_count (Some ((p - 1) * n)) = int64 ((p - 1) * n) /\ row_count (Some n) = true.
Proof.
  intros Hp Hn. unfold row_count, int64. split.
  - assert (H0 : (0 <=? (p - 1) * n) = true) by (apply Z.leb_le; nia).
    now rewrite H0.
  - rewrite !andb_true_iff, !Z.leb_le. lia.
Qed.

Section Listing.

Variable lower : string -> string.
Variables q series publisher writer genre : option string.
Variables year_from year_to : option Z.
Variables language manga age_rating : option string.
Variables page page_size : option Z.
Variables sort_by sort_order : option string.
Variable db : Db.

Let p : Z := default 1 page.
Let n : Z := default 20 page_size.
Let by_ : string := default "title" sort_by.
Let dir : string := default "asc" sort_order.

Let params : SearchParams.t :=
  SearchParams.mk q series publisher writer genre year_from year_to language manga
    age_rating p n by_ dir.

(** The records that match the filters, in table order. *)
Let hits : list Comic.t :=
  filter (fun c => is_true (and_ lower c (build_search_query params))) (comics db).

(** The same records as the data query orders them. *)
Let in_order : list Comic.t :=
  sort_rows (row_leb by_ (if String.eqb dir "asc" then asc else desc)) hits.

Let run : outcome PaginatedComics.t * Db :=
  list_comics lower q series publisher writer genre year_from year_to language manga
    age_rating page page_size sort_by sort_order db.

Lemma list_comics_rejects :
  (p >=? 1) && (n >=? 1) && (n <=? 100) && sort_by_pattern by_ && sort_order_pattern dir
  = false ->
  run = (RequestValidationError, db).
Proof.
  intros Hbad. unfold run, list_comics.
  fold p n by_ dir. now rewrite Hbad.
Qed.

(** A request that passes the validation of its parameters reaches the
    store, which answers it, or refuses a number of it. *)
Lemma list_comics_reaches_the_store :
  (p >=? 1) && (n >=? 1) && (n <=? 100) && sort_by_pattern by_ && sort_order_pattern dir
  = true ->
  run = if forallb binds (build_search_query params) && int64 ((p - 1) * n)
        then (Ok (PaginatedComics.mk (Z.of_nat (List.length hits)) p n
                    (map ComicListOut.model_validate
                       (firstn (Z.to_nat n) (skipn (Z.to_nat ((p - 1) * n)) in_order)))),
              db)
        else (Unhandled DBAPIError, db).
Proof.
  intros Hgood. destruct (valid_page _ _ _ _ Hgood) as [Hp Hn].
  destruct (row_count_page p n Hp Hn) as [Hoff Hlim].
  unfold run, list_comics.
  fold p n by_ dir. rewrite Hgood.
  change (negb true) with false. cbv iota.
  fold params.
  unfold bind, execute_count, execute, ret.
  rewrite count_query_accepted.
  destruct (forallb binds (build_search_query params)) eqn:Hbinds; [|reflexivity].
  rewrite (data_query_accepted (build_search_query params)).
  cbv zeta. rewrite Hbinds.
  change (SearchParams.page params) with p.
  change (SearchParams.page_size params) with n.
  rewrite Hoff, Hlim, andb_true_r. simpl andb.
  destruct (int64 ((p - 1) * n)); [|reflexivity].
  rewrite count_query_rows.
  rewrite (data_query_rows lower (build_search_query params)).
  reflexivity.
Qed.

Lemma in_range_binds :
  in_range params = forallb binds (build_search_query params) && int64 ((p - 1) * n).
Proof. unfold in_range. now rewrite binds_build_search_query. Qed.

Lemma list_comics_answers :
  (p >=? 1) && (n >=? 1) && (n <=? 100) && sort_by_pattern by_ && sort_order_pattern dir
  = true ->
  in_range params = true ->
  run = (Ok (PaginatedComics.mk (Z.of_nat (List.length hits)) p n
               (map ComicListOut.model_validate
                  (firstn (Z.to_nat n) (skipn (Z.to_nat ((p - 1) * n)) in_order)))),
         db).
Proof.
  intros Hgood Hrange. rewrite (list_comics_reaches_the_store Hgood).
  rewrite in_range_binds in Hrange. now rewrite Hrange.
Qed.

Lemma list_comics_refused :
  (p >=? 1) && (n >=? 1) && (n <=? 100) && sort_by_pattern by_ && sort_order_pattern dir
  = true ->
  in_range params = false ->
  run = (Unhandled DBAPIError, db).
Proof.
  intros Hgood Hrange. rewrite (list_comics_reaches_the_store Hgood).
  rewrite in_range_binds in Hrange. now rewrite Hrange.
Qed.

(** C3, as the code has it.  A page or page size outside [page >= 1],
    [1 <= page_size <= 100] is refused before the handler runs.  Inside, the
    request reaches the store.  The store refuses, unhandled, a request with
    an applied text filter that has a NUL character, an applied year bound
    outside the signed 32-bit range or an offset [(page-1)*page_size]
    outside the signed 64-bit range.  Every other request is answered: the answer skips the first [(page-1)*page_size]
    matching records (all of them if there are fewer), returns the next
    [page_size] (fewer if fewer remain), and its [total] counts every
    matching record.  With 45 matching records, page 2 of size 20 is records
    21 to 40 and the total is 45. *)
Theorem list_comics_pagination :
  sort_by_pattern by_ = true ->
  sort_order_pattern dir = true ->
  (1 <= p /\ 1 <= n <= 100 ->
   (in_range params = false -> run = (Unhandled DBAPIError, db))
   /\ (in_range params = true ->
       exists (r : PaginatedComics.t) (ordered skipped returned rest : list Comic.t),
         run = (Ok r, db)
         /\ Permutation ordered hits
         /\ ordered = skipped ++ returned ++ rest
         /\ Z.of_nat (List.length skipped)
            = Z.min ((p - 1) * n) (Z.of_nat (List.length hits))
         /\ Z.of_nat (List.length returned)
            = Z.min n (Z.of_nat (List.length hits) - Z.of_nat (List.length skipped))
         /\ PaginatedComics.results r = map ComicListOut.model_validate returned
         /\ PaginatedComics.total r = Z.of_nat (List.length hits)
         /\ PaginatedComics.page r = p
         /\ PaginatedComics.page_size r = n
         /\ (p = 2 -> n = 20 -> List.length hits = 45%nat ->
             List.length skipped = 20%nat /\ List.length returned = 20%nat
             /\ List.length rest = 5%nat /\ PaginatedComics.total r = 45)))
  /\ (~ (1 <= p /\ 1 <= n <= 100) -> run = (RequestValidationError, db)).
Proof.
  intros Hby Hdir. split.
  - intros [Hp [Hn1 Hn2]].
    assert (Hgood : (p >=? 1) && (n >=? 1) && (n <=? 100)
                    && sort_by_pattern by_ && sort_order_pattern dir = true).
    { rewrite Hby, Hdir, !andb_true_r, !andb_true_iff.
      rewrite !Z.geb_le, Z.leb_le. lia. }
    split; [exact (list_comics_refused Hgood)|].
    intros Hrange.
    pose proof (sort_rows_perm (row_leb by_ (if String.eqb dir "asc" then asc else desc))
                  hits) as Hperm.
    fold in_order in Hperm.
    pose proof (Permutation_length Hperm) as Hlen.
    destruct (page_split (Z.to_nat ((p - 1) * n)) (Z.to_nat n) in_order)
      as [Hcut [Hskip Hret]].
    eexists _, in_order, _, _, _.
    split; [apply (list_comics_answers Hgood Hrange)|].
    split; [exact Hperm|].
    split; [exact Hcut|].
    assert (Hs : Z.of_nat (List.length (firstn (Z.to_nat ((p - 1) * n)) in_order))
                 = Z.min ((p - 1) * n) (Z.of_nat (List.length hits))).
    { rewrite Hskip, Hlen. nia. }
    assert (Hr : Z.of_nat (List.length
                             (firstn (Z.to_nat n) (skipn (Z.to_nat ((p - 1) * n)) in_order)))
                 = Z.min n (Z.of_nat (List.length hits)
                            - Z.of_nat (List.length
                                          (firstn (Z.to_nat ((p - 1) * n)) in_order)))).
    { rewrite Hs, Hret, Hlen. nia. }
    split; [exact Hs|]. split; [exact Hr|].
    do 4 (split; [reflexivity|]).
    intros Hp2 Hn20 H45.
    pose proof (f_equal (@List.length Comic.t) Hcut) as Hsum.
    rewrite !length_app, Hlen, H45 in Hsum.
    rewrite H45 in Hs, Hr. rewrite Hp2, Hn20 in Hs, Hr, Hsum |- *.
    simpl PaginatedComics.total. rewrite H45.
    repeat split; lia.
  - intros Hbad. apply list_comics_rejects.
    rewrite Hby, Hdir, !andb_true_r.
    destruct (p >=? 1) eqn:E1; [|reflexivity].
    destruct (n >=? 1) eqn:E2; [|reflexivity].
    destruct (n <=? 100) eqn:E3; [|reflexivity].
    exfalso. apply Hbad.
    rewrite Z.geb_le in E1, E2. rewrite Z.leb_le in E3. lia.
Qed.

End Listing.

(** *** LIKE against [%v%] *)

Lemma scan_ext (f g : string -> bool) (here : bool) (s : string) :
  (forall t, f t = g t) -> scan f here s = scan g here s.
Proof.
  intros E. revert here. induction s as [|x s IH]; intros here; simpl; rewrite E;
    [reflexivity | now rewrite IH].
Qed.

(** A test that holds of the empty text is met at the last character. *)
Lemma scan_to_the_end (f : string -> bool) (here : bool) (x : ascii) (s : string) :
  f EmptyString = true -> scan f here (String x s) = true.
Proof.
  intros Hend. revert here x. induction s as [|y s IH]; intros here x.
  - simpl. rewrite Hend. apply orb_true_r.
  - change (scan f here (String x (String y s)))
      with ((here && f (String x (String y s)))
            || scan f (at_char (String y s)) (String y s)).
    rewrite IH. apply orb_true_r.
Qed.

Lemma like_literal_step (a : ascii) (p s : string) :
  negb (Ascii.eqb a "%") && negb (Ascii.eqb a "_") && negb (Ascii.eqb a "\") = true ->
  like_match (String a p) s
  = match s with
    | EmptyString => false
    | String x s' => Ascii.eqb a x && like_match p s'
    end.
Proof.
  rewrite !andb_true_iff, !negb_true_iff. intros [[H1 H2] H3].
  simpl. now rewrite H1, H2, H3.
Qed.

Lemma like_percent_all (s : string) : like_match "%" s = true.
Proof.
  change (scan (like_match EmptyString) true s = true).
  destruct s as [|x s]; [reflexivity | now apply scan_to_the_end].
Qed.

Lemma like_prefix (v s : string) :
  wildcard_free v = true -> like_match (v ++ "%") s = prefix v s.
Proof.
  revert s. induction v as [|a v IH]; intros s Hfree.
  - rewrite like_percent_all. now destruct s.
  - simpl in Hfree. apply andb_true_iff in Hfree. destruct Hfree as [Ha Hv].
    change (String a v ++ "%")%string with (String a (v ++ "%")).
    rewrite (like_literal_step a _ s Ha).
    destruct s as [|x s]; [reflexivity|].
    simpl. destruct (ascii_dec a x) as [->|Hne].
    + rewrite Ascii.eqb_refl. now apply IH.
    + apply Ascii.eqb_neq in Hne. now rewrite Hne.
Qed.

(** Without wildcards in [v], matching [%v%] is the substring test. *)
Lemma like_contains (v s : string) :
  wildcard_free v = true -> like_match (contains v) s = substring_of v s.
Proof.
  intros Hfree. unfold contains, substring_of.
  change (scan (like_match (v ++ "%")) true s = scan (prefix v) true s).
  apply scan_ext. intros t. now apply like_prefix.
Qed.

Lemma any_of_ext (cols : list text_column) (f g : string -> bool) (c : Comic.t) :
  (forall s, f s = g s) -> any_of cols f c = any_of cols g c.
Proof.
  intros E. unfold any_of. apply existsb_pointwise. intros col.
  destruct (text_of col c); [apply E | reflexivity].
Qed.

Lemma on_truthy_present {A : Type} (t ok : A -> bool) (o : option A) (f g : A -> bool) :
  on_present o ok = true ->
  (forall v, ok v = true -> t v = true /\ f v = g v) ->
  on_truthy t o f = on_present o g.
Proof.
  intros Hok Hfg. destruct o as [v|]; simpl in *; [|reflexivity].
  destruct (Hfg v Hok) as [Ht E]. now rewrite Ht.
Qed.

Lemma exact_filter {A : Type} (t : A -> bool) (o : option A) (f : A -> bool) :
  on_present o t = true -> on_truthy t o f = on_present o f.
Proof.
  intros Hok. apply (on_truthy_present _ _ _ _ _ Hok). intros v Hv. now split.
Qed.

(** *** ILIKE under the case folding of the store *)

Section Folding.

(** [lower()] of the store.  It folds a pattern [%v%] into [%] around the
    folded [v], and makes [%], [_] or a backslash of no other character. *)
Variable lower : string -> string.

Hypothesis lower_contains : forall v, lower (contains v) = contains (lower v).

Hypothesis lower_wildcard_free :
  forall v, wildcard_free v = true -> wildcard_free (lower v) = true.

Lemma ilike_contains (v s : string) :
  wildcard_free v = true -> ilike_match lower (contains v) s = contains_ci lower v s.
Proof.
  intros Hfree. unfold ilike_match, contains_ci.
  rewrite lower_contains. apply like_contains. now apply lower_wildcard_free.
Qed.

Lemma substring_filter (o : option string) (cols : list text_column) (c : Comic.t) :
  on_present o (fun v => truthy_str v && wildcard_free v) = true ->
  on_truthy truthy_str o (fun v => any_of cols (ilike_match lower (contains v)) c)
  = on_present o (fun v => any_of cols (contains_ci lower v) c).
Proof.
  intros Hok. apply (on_truthy_present _ _ _ _ _ Hok).
  intros v Hv. apply andb_true_iff in Hv. destruct Hv as [Ht Hfree].
  split; [exact Ht|]. apply any_of_ext. intros s. now apply ilike_contains.
Qed.

(** C9, as the code has it.  A row is selected exactly when it passes every
    filter whose parameter is present and truthy: [q] as the ILIKE pattern
    [%q%] on one of title, series, summary, writer, publisher (in the
    pattern, [%] and [_] of [q] are wildcards and a backslash an escape);
    [year_from] and [year_to] as inclusive bounds on a year that is not
    NULL; [language], [manga] and [age_rating] as equalities.  ILIKE folds
    both texts with the [lower] of the store, whatever its collation; it is
    taken to fold [%q%] into [%] around the folded [q] and to make none of
    the three characters.  For a text without those three characters the
    match is the substring test on the folded texts, so on requests whose
    parameters are truthy and free of them the compiled filter is the one
    the specification words. *)
Theorem compiled_filter_is_conjunction_of_truthy_filters :
  (forall params c, selects lower params c = applied_filter lower params c)
  /\ (forall v s,
         wildcard_free v = true ->
         ilike_match lower (contains v) s = contains_ci lower v s)
  /\ (forall params c,
         plain params = true -> selects lower params c = claimed_filter lower params c).
Proof.
  split; [exact (selects_applied_filter lower)|].
  split; [exact ilike_contains|].
  intros params c Hplain.
  rewrite selects_applied_filter.
  unfold plain in Hplain. rewrite !andb_true_iff in Hplain.
  destruct Hplain as [[[[[[[[[H1 H2] H3] H4] H5] H6] H7] H8] H9] H10].
  unfold applied_filter, claimed_filter.
  rewrite !substring_filter by assumption.
  now rewrite !exact_filter by assumption.
Qed.

End Folding.

(** The query [q=_] selects "Watchmen", which holds no underscore; and with
    [year_from=0] present, a comic without a year is still selected. *)
Lemma compiled_filter_differs_from_claimed :
  let underscore :=
    SearchParams.mk (Some "_") None None None None None None None None None 1 20 "title" "asc" in
  let year_zero :=
    SearchParams.mk None None None None None (Some 0) None None None None 1 20 "title" "asc" in
  (selects Sample.lower underscore Sample.watchmen = true
   /\ claimed_filter Sample.lower underscore Sample.watchmen = false)
  /\ (selects Sample.lower year_zero Sample.watchmen = true
      /\ claimed_filter Sample.lower year_zero Sample.watchmen = false).
Proof. vm_compute. repeat split. Qed.

(** The folding of the collation [C] is one the statement applies to. *)
Lemma lower_C_app (a b : string) :
  Sample.lower (a ++ b) = (Sample.lower a ++ Sample.lower b)%string.
Proof. induction a as [|x a IH]; simpl; [reflexivity | now rewrite IH]. Qed.

Lemma lower_C_contains (v : string) :
  Sample.lower (contains v) = contains (Sample.lower v).
Proof. unfold contains. now rewrite !lower_C_app. Qed.

Lemma lower_C_wildcard_free (v : string) :
  wildcard_free v = true -> wildcard_free (Sample.lower v) = true.
Proof.
  induction v as [|x v IH]; simpl; [reflexivity|].
  rewrite !andb_true_iff. intros [Hx Hv]. split; [|now apply IH].
  revert Hx. clear. destruct x as [[|] [|] [|] [|] [|] [|] [|] [|]]; vm_compute; tauto.
Qed.

Lemma compiled_filter_is_conjunction_of_truthy_filters_witness :
  let params :=
    SearchParams.mk (Some "WATCH") None None None None None None None None None 1 20
      "title" "asc" in
  wildcard_free "WATCH" = true
  /\ ilike_match Sample.lower (contains "WATCH") "Watchmen"
     = contains_ci Sample.lower "WATCH" "Watchmen"
  /\ plain params = true
  /\ selects Sample.lower params Sample.watchmen
     = claimed_filter Sample.lower params Sample.watchmen
  /\ selects Sample.lower params Sample.watchmen = true.
Proof.
  intros params.
  destruct (compiled_filter_is_conjunction_of_truthy_filters Sample.lower
              lower_C_contains lower_C_wildcard_free) as [_ [Hlike Hplain]].
  split; [reflexivity|].
  split; [apply Hlike; reflexivity|].
  split; [reflexivity|].
  split; [apply Hplain; reflexivity | reflexivity].
Defined.

(** *** Falsy parameters *)

Lemma when_truthy_drop_falsy {A : Type} (t : A -> bool) (o : option A)
    (f : A -> list clause) :
  when_truthy t (drop_falsy t o) f = when_truthy t o f.
Proof.
  destruct o as [v|]; simpl; [|reflexivity].
  destruct (t v) eqn:E; simpl; [now rewrite E | reflexivity].
Qed.

Lemma when_truthy_same {A : Type} (t : A -> bool) (o o' : option A)
    (f : A -> list clause) :
  drop_falsy t o = drop_falsy t o' -> when_truthy t o f = when_truthy t o' f.
Proof.
  intros E. now rewrite <- (when_truthy_drop_falsy t o), E, when_truthy_drop_falsy.
Qed.

Section FalsyParameters.

Variables q series publisher writer genre : option string.
Variables year_from year_to : option Z.
Variables language manga age_rating : option string.
Variables q' series' publisher' writer' genre' : option string.
Variables year_from' year_to' : option Z.
Variables language' manga' age_rating' : option string.
Variables page page_size : option Z.
Variables sort_by sort_order : option string.

Hypothesis same_q : drop_falsy truthy_str q = drop_falsy truthy_str q'.
Hypothesis same_series : drop_falsy truthy_str series = drop_falsy truthy_str series'.
Hypothesis same_publisher :
  drop_falsy truthy_str publisher = drop_falsy truthy_str publisher'.
Hypothesis same_writer : drop_falsy truthy_str writer = drop_falsy truthy_str writer'.
Hypothesis same_genre : drop_falsy truthy_str genre = drop_falsy truthy_str genre'.
Hypothesis same_year_from : drop_falsy truthy_int year_from = drop_falsy truthy_int year_from'.
Hypothesis same_year_to : drop_falsy truthy_int year_to = drop_falsy truthy_int year_to'.
Hypothesis same_language : drop_falsy truthy_str language = drop_falsy truthy_str language'.
Hypothesis same_manga : drop_falsy truthy_str manga = drop_falsy truthy_str manga'.
Hypothesis same_age_rating :
  drop_falsy truthy_str age_rating = drop_falsy truthy_str age_rating'.

Lemma same_filters (p n : Z) (by_ dir : string) :
  build_search_query
    (SearchParams.mk q series publisher writer genre year_from year_to language manga
       age_rating p n by_ dir)
  = build_search_query
      (SearchParams.mk q' series' publisher' writer' genre' year_from' year_to' language'
         manga' age_rating' p n by_ dir).
Proof.
  rewrite !build_search_query_segments. simpl.
  repeat (f_equal; [now apply when_truthy_same|]).
  now apply when_truthy_same.
Qed.

(** C10. Two list requests whose filter parameters differ only in that one
    sends a falsy value (the empty string, the integer 0) where the other
    sends nothing compile to the same filters and get the same answer from
    every store. *)
Theorem falsy_parameter_is_absent_parameter (lower : string -> string) (db : Db) :
  (forall p n by_ dir,
      build_search_query
        (SearchParams.mk q series publisher writer genre year_from year_to language manga
           age_rating p n by_ dir)
      = build_search_query
          (SearchParams.mk q' series' publisher' writer' genre' year_from' year_to'
             language' manga' age_rating' p n by_ dir))
  /\ list_comics lower q series publisher writer genre year_from year_to language manga
       age_rating page page_size sort_by sort_order db
     = list_comics lower q' series' publisher' writer' genre' year_from' year_to'
         language' manga' age_rating' page page_size sort_by sort_order db.
Proof.
  split; [exact same_filters|].
  destruct ((default 1 page >=? 1) && (default 20 page_size >=? 1)
            && (default 20 page_size <=? 100)
            && sort_by_pattern (default "title" sort_by)
            && sort_order_pattern (default "asc" sort_order)) eqn:Hvalid.
  - rewrite !(list_comics_reaches_the_store lower _ _ _ _ _ _ _ _ _ _ _ _ _ _ _ Hvalid).
    now rewrite same_filters.
  - now rewrite !(list_comics_rejects lower _ _ _ _ _ _ _ _ _ _ _ _ _ _ _ Hvalid).
Qed.

End FalsyParameters.

Lemma falsy_parameter_is_absent_parameter_witness :
  list_comics Sample.lower (Some "") (Some "") None None None (Some 0) None None None
    (Some "") None None None None Sample.db
  = list_comics Sample.lower None None None None None None None None None None
      None None None None Sample.db
  /\ (forall q, list_comics Sample.lower (Some "") None None None None None None None None
                  None q q None None Sample.db50
                = list_comics Sample.lower None None None None None None None None None
                    None q q None None Sample.db50).
Proof.
  split.
  - apply (falsy_parameter_is_absent_parameter
             (Some "") (Some "") None None None (Some 0) None None None (Some "")
             None None None None None None None None None None
             None None None None); reflexivity.
  - intros q.
    apply (falsy_parameter_is_absent_parameter
             (Some "") None None None None None None None None None
             None None None None None None None None None None
             q q None None); reflexivity.
Defined.

(** ** The cap on active API keys *)

Lemma keys_inv_same_table (db db' : Db) :
  api_keys db' = api_keys db -> keys_inv db -> keys_inv db'.
Proof. unfold keys_inv, active_keys. now intros ->. Qed.

Lemma keeps_keys_preserves {A : Type} (m : M A) : keeps_keys m -> preserves m.
Proof. intros Hk db Hinv. exact (keys_inv_same_table db _ (Hk db) Hinv). Qed.

Lemma preserves_bind {A B : Type} (m : M A) (k : A -> M B) :
  preserves m -> (forall a, preserves (k a)) -> preserves (bind m k).
Proof.
  intros Hm Hk db Hinv. unfold bind.
  specialize (Hm db Hinv).
  destruct (m db) as [[a|s d| |e] db']; simpl in *; try assumption.
  now apply Hk.
Qed.

Lemma keeps_keys_bind {A B : Type} (m : M A) (k : A -> M B) :
  keeps_keys m -> (forall a, keeps_keys (k a)) -> keeps_keys (bind m k).
Proof.
  intros Hm Hk db. unfold bind.
  specialize (Hm db).
  destruct (m db) as [[a|s d| |e] db']; simpl in *; try assumption.
  now rewrite Hk.
Qed.

Lemma keeps_keys_scalar {A : Type} (rows : list A) : keeps_keys (scalar_one_or_none rows).
Proof. intros db. now destruct rows as [|x [|y r]]. Qed.

Lemma keeps_keys_insert_user (u : User.t) : keeps_keys (insert_user u).
Proof. intros db. unfold insert_user. now destruct (existsb _ _). Qed.

(** Breaks a handler into its statements; what remains are writes to
    [api_keys]. *)
Ltac keeps_keys_steps :=
  repeat first
    [ apply keeps_keys_bind; [|intros ?]
    | apply keeps_keys_scalar
    | apply keeps_keys_insert_user
    | match goal with
      | |- keeps_keys (match ?x with _ => _ end) => destruct x
      | |- keeps_keys (fun _ => _) => intros ?; reflexivity
      | |- keeps_keys (ret _) => intros ?; reflexivity
      | |- keeps_keys (raise _ _) => intros ?; reflexivity
      | |- keeps_keys (throw _) => intros ?; reflexivity
      | |- keeps_keys (select_users _) => intros ?; reflexivity
      | |- keeps_keys (select_api_keys _) => intros ?; reflexivity
      | |- keeps_keys (select_api_keys_order_by _ _) => intros ?; reflexivity
      | |- keeps_keys (select_comics _) => intros ?; reflexivity
      | |- keeps_keys (delete_comic_row _) => intros ?; reflexivity
      | |- keeps_keys (update_comic_row ?a ?b) =>
        intros ?; unfold update_comic_row; destruct (update_fits a b); reflexivity
      | |- keeps_keys (insert_comic ?c) =>
        intros ?; unfold insert_comic; destruct (negb (fits_columns c));
        [|destruct (_ || _)]; reflexivity
      | |- keeps_keys (execute ?f ?s) =>
        intros ?; unfold execute; destruct (accepted s); reflexivity
      | |- keeps_keys (execute_count ?f ?s) =>
        intros ?; unfold execute_count; destruct (accepted s); reflexivity
      end ].

Lemma keeps_keys_register (hash_password : string -> string) (payload : UserRegister.t)
    (new_id : uuid) (now : datetime) :
  keeps_keys (register hash_password payload new_id now).
Proof. unfold register. keeps_keys_steps. Qed.

Lemma keeps_keys_from_token (jwt_decode : string -> option payload)
    (credentials : option string) :
  keeps_keys (get_current_user_from_token jwt_decode credentials).
Proof. unfold get_current_user_from_token. keeps_keys_steps. Qed.

Lemma keeps_keys_get_current_user (token_user api_key_user : option User.t) :
  keeps_keys (get_current_user token_user api_key_user).
Proof. unfold get_current_user. cbv zeta. keeps_keys_steps. Qed.

Lemma keeps_keys_get_comic (comic_id : uuid) : keeps_keys (get_comic comic_id).
Proof. unfold get_comic. keeps_keys_steps. Qed.

Lemma keeps_keys_update_comic (comic_id : uuid) (payload : ComicUpdate.t) (u : User.t)
    (now : datetime) :
  keeps_keys (update_comic comic_id payload u now).
Proof. unfold update_comic, commit_comic. cbv zeta. keeps_keys_steps. Qed.

Lemma keeps_keys_delete_comic (comic_id : uuid) (u : User.t) :
  keeps_keys (delete_comic comic_id u).
Proof. unfold delete_comic. keeps_keys_steps. Qed.

Lemma keeps_keys_list_comics (lower : string -> string)
    (q series publisher writer genre : option string) (year_from year_to : option Z)
    (language manga age_rating : option string) (page page_size : option Z)
    (sort_by sort_order : option string) :
  keeps_keys (list_comics lower q series publisher writer genre year_from year_to language
                manga age_rating page page_size sort_by sort_order).
Proof.
  intros db.
  destruct ((default 1 page >=? 1) && (default 20 page_size >=? 1)
            && (default 20 page_size <=? 100)
            && sort_by_pattern (default "title" sort_by)
            && sort_order_pattern (default "asc" sort_order)) eqn:Hvalid.
  - rewrite (list_comics_reaches_the_store lower _ _ _ _ _ _ _ _ _ _ _ _ _ _ _ Hvalid).
    now destruct (forallb binds _ && int64 _).
  - now rewrite (list_comics_rejects lower _ _ _ _ _ _ _ _ _ _ _ _ _ _ _ Hvalid).
Qed.

Lemma keeps_keys_login (jwt_encode : claims -> string)
    (verify_password : string -> string -> bool) (payload : UserLogin.t) (now : datetime) :
  keeps_keys (login jwt_encode verify_password payload now).
Proof. unfold login. keeps_keys_steps. Qed.

Lemma keeps_keys_list_api_keys (u : User.t) : keeps_keys (list_api_keys u).
Proof. unfold list_api_keys. keeps_keys_steps. Qed.

Lemma keeps_keys_create_comic (payload : ComicCreate.t) (u : User.t) (new_id : uuid)
    (created_at updated_at : datetime) :
  keeps_keys (create_comic payload u new_id created_at updated_at).
Proof. unfold create_comic. cbv zeta. keeps_keys_steps. Qed.

Lemma keeps_keys_download_comicinfo (str_float : float -> string)
    (tostring : Element -> string)
    (parseString_toprettyxml : string -> string -> option string) (comic_id : uuid) :
  keeps_keys (download_comicinfo str_float tostring parseString_toprettyxml comic_id).
Proof. unfold download_comicinfo. keeps_keys_steps. Qed.

Lemma keeps_keys_get_cover_url (comic_id : uuid) : keeps_keys (get_cover_url comic_id).
Proof. unfold get_cover_url. keeps_keys_steps. Qed.

Lemma keeps_keys_response_model {A : Type} (validates : A -> bool) (m : M A) :
  keeps_keys m -> keeps_keys (response_model validates m).
Proof.
  intros Hm. unfold response_model. apply keeps_keys_bind; [exact Hm|].
  intros a. keeps_keys_steps.
Qed.

(** *** Writes to the table of keys *)

Lemma same_id_same_row (l : list ApiKey.t) (k x : ApiKey.t) :
  NoDup (map ApiKey.id l) -> In k l -> In x l -> ApiKey.id x = ApiKey.id k -> x = k.
Proof.
  induction l as [|a l IH]; simpl; intros Hnd Hk Hx Hid; [contradiction|].
  inversion Hnd as [|? ? Hfresh Hnd']; subst.
  destruct Hk as [->|Hk], Hx as [->|Hx]; try reflexivity.
  - exfalso. apply Hfresh. rewrite <- Hid. now apply in_map.
  - exfalso. apply Hfresh. rewrite Hid. now apply in_map.
  - now apply IH.
Qed.

Lemma replaced_ids (k' : ApiKey.t) (l : list ApiKey.t) :
  map ApiKey.id (replaced k' l) = map ApiKey.id l.
Proof.
  unfold replaced. rewrite map_map. apply map_ext. intros x.
  destruct (String.eqb_spec (ApiKey.id x) (ApiKey.id k')); congruence.
Qed.

Lemma replaced_length (k' : ApiKey.t) (l : list ApiKey.t) :
  List.length (replaced k' l) = List.length l.
Proof. apply length_map. Qed.

Lemma replaced_absent (k' : ApiKey.t) (l : list ApiKey.t) :
  ~ In (ApiKey.id k') (map ApiKey.id l) -> replaced k' l = l.
Proof.
  induction l as [|a l IH]; simpl; intros Hnot; [reflexivity|].
  destruct (String.eqb_spec (ApiKey.id a) (ApiKey.id k')) as [E|_].
  - exfalso. apply Hnot. now left.
  - f_equal. apply IH. tauto.
Qed.

(** A row that does not become active for a user adds to no user's count. *)
Lemma replaced_count_le (p : ApiKey.t -> bool) (k k' : ApiKey.t) (l : list ApiKey.t) :
  NoDup (map ApiKey.id l) -> In k l -> ApiKey.id k' = ApiKey.id k ->
  (p k' = true -> p k = true) ->
  (List.length (filter p (replaced k' l)) <= List.length (filter p l))%nat.
Proof.
  intros Hnd Hk Hid Hp.
  assert (Hall : forall l0, (forall x, In x l0 -> In x l) ->
             (List.length (filter p (replaced k' l0)) <= List.length (filter p l0))%nat).
  { induction l0 as [|a l0 IH]; intros Hsub; simpl; [lia|].
    assert (IH' := IH (fun x Hx => Hsub x (or_intror Hx))).
    destruct (String.eqb_spec (ApiKey.id a) (ApiKey.id k')) as [E|_].
    - assert (a = k) as ->.
      { apply (same_id_same_row l); auto; [apply Hsub; now left | congruence]. }
      destruct (p k') eqn:Ek'; [rewrite (Hp eq_refl)|destruct (p k)]; simpl; lia.
    - destruct (p a); simpl; lia. }
  apply Hall. auto.
Qed.

(** Revoking an active key takes one off its owner's count. *)
Lemma replaced_count_pred (p : ApiKey.t -> bool) (k k' : ApiKey.t) (l : list ApiKey.t) :
  NoDup (map ApiKey.id l) -> In k l -> ApiKey.id k' = ApiKey.id k ->
  p k = true -> p k' = false ->
  S (List.length (filter p (replaced k' l))) = List.length (filter p l).
Proof.
  intros Hnd Hk Hid Hpk Hpk'.
  induction l as [|a l IH]; [contradiction|].
  inversion Hnd as [|? ? Hfresh Hnd']; subst.
  simpl. destruct Hk as [->|Hk].
  - rewrite Hid, String.eqb_refl, Hpk', Hpk. simpl.
    rewrite replaced_absent; [reflexivity | now rewrite Hid].
  - destruct (String.eqb_spec (ApiKey.id a) (ApiKey.id k')) as [E|_].
    + exfalso. apply Hfresh. rewrite E, Hid. now apply in_map.
    + destruct (p a); simpl; now rewrite <- (IH Hnd' Hk).
Qed.

Lemma update_api_key_inv (k k' : ApiKey.t) (db : Db) :
  keys_inv db -> In k (api_keys db) ->
  ApiKey.id k' = ApiKey.id k -> ApiKey.user_id k' = ApiKey.user_id k ->
  (ApiKey.is_active k' = true -> ApiKey.is_active k = true) ->
  keys_inv (snd (update_api_key k' db)).
Proof.
  intros [Hnd Hcap] Hk Hid Huser Hactive. unfold update_api_key. simpl.
  fold (replaced k' (api_keys db)). split; simpl.
  - now rewrite replaced_ids.
  - intros uid. unfold active_keys. simpl.
    apply Nat.le_trans with (List.length (filter (owns_active uid) (api_keys db)));
      [|apply Hcap].
    apply (replaced_count_le _ k); auto.
    unfold owns_active. rewrite Huser, !andb_true_iff.
    intros [Hu Ha]. split; [exact Hu|].
    destruct (ApiKey.is_active k'); [now rewrite Hactive | discriminate Ha].
Qed.

Lemma insert_api_key_inv (k : ApiKey.t) (db : Db) :
  keys_inv db ->
  (List.length (active_keys (ApiKey.user_id k) db) < 10)%nat ->
  keys_inv (snd (insert_api_key k db)).
Proof.
  intros [Hnd Hcap] Hroom. unfold insert_api_key.
  destruct (negb (fits_key k)); simpl; [now split|].
  destruct (existsb _ (api_keys db)) eqn:Hdup; simpl; [now split|].
  split; simpl.
  - rewrite map_app. simpl.
    apply (Permutation_NoDup (Permutation_cons_append _ _)).
    constructor; [|exact Hnd].
    intros Hin. apply in_map_iff in Hin. destruct Hin as [x [Hx Hl]].
    assert (Hex : existsb
                    (fun x => String.eqb (ApiKey.id x) (ApiKey.id k)
                              || String.eqb (ApiKey.key_hash x) (ApiKey.key_hash k))
                    (api_keys db) = true).
    { apply existsb_exists. exists x. split; [exact Hl|].
      rewrite Hx, String.eqb_refl. reflexivity. }
    rewrite Hex in Hdup. discriminate Hdup.
  - intros uid. unfold active_keys in *. simpl.
    rewrite filter_app, length_app. simpl.
    destruct (owns_active uid k) eqn:Hown; simpl.
    + unfold owns_active in Hown. apply andb_true_iff in Hown.
      destruct Hown as [Hu _]. apply String.eqb_eq in Hu. subst uid. lia.
    + specialize (Hcap uid). unfold active_keys in Hcap. lia.
Qed.

(** *** The handlers that write keys *)

Lemma keys_inv_after {A B : Type} (m : M A) (k : A -> M B) (db : Db) :
  keys_inv (snd (m db)) -> (forall a, keeps_keys (k a)) -> keys_inv (snd (bind m k db)).
Proof.
  intros Hm Hk. unfold bind.
  destruct (m db) as [[a|s d| |e] db']; simpl in *; try assumption.
  exact (keys_inv_same_table db' _ (Hk a db') Hm).
Qed.

Lemma selected_row {A : Type} (p : A -> bool) (l r : list A) (x : A) :
  filter p l = x :: r -> In x l /\ p x = true.
Proof.
  intros Hsel. apply filter_In. rewrite Hsel. now left.
Qed.

Lemma preserves_from_api_key (sha256_hexdigest : string -> string)
    (api_key : option string) (now : datetime) :
  preserves (get_current_user_from_api_key sha256_hexdigest api_key now).
Proof.
  intros db Hinv. unfold get_current_user_from_api_key.
  destruct (negb (truthy_opt truthy_str api_key)); [exact Hinv|].
  destruct api_key as [s|]; [|exact Hinv].
  cbv zeta. unfold bind at 1 2. unfold select_api_keys.
  destruct (filter _ (api_keys db)) as [|k [|k2 r]] eqn:Hsel; simpl; try exact Hinv.
  destruct (selected_row _ _ _ _ Hsel) as [Hk _].
  destruct (match ApiKey.expires_at k with
            | Some expires_at => expires_at <? now
            | None => false
            end); [exact Hinv|].
  apply keys_inv_after.
  - now apply (update_api_key_inv k).
  - intros _. keeps_keys_steps.
Qed.

(** [revoke_api_key] on a text the driver refuses, and on one it reads. *)
Lemma revoke_api_key_unfold (uuid_of_str : string -> option uuid) (key_id : string)
    (u : User.t) (db : Db) :
  revoke_api_key uuid_of_str key_id u db
  = match uuid_of_str key_id with
    | None => (Unhandled DBAPIError, db)
    | Some id =>
      match filter (fun k => String.eqb (ApiKey.id k) id
                             && String.eqb (ApiKey.user_id k) (User.id u)) (api_keys db) with
      | [] => (HTTPException 404 "API key not found", db)
      | [k] => update_api_key (ApiKey.set_is_active false k) db
      | _ :: _ :: _ => (Unhandled MultipleResultsFound, db)
      end
    end.
Proof.
  unfold revoke_api_key, bind_uuid. unfold bind at 1.
  destruct (uuid_of_str key_id) as [id|]; [|reflexivity].
  unfold ret, bind, select_api_keys.
  now destruct (filter _ (api_keys db)) as [|k [|k2 r]].
Qed.

Lemma preserves_revoke (uuid_of_str : string -> option uuid) (key_id : string) (u : User.t) :
  preserves (revoke_api_key uuid_of_str key_id u).
Proof.
  intros db Hinv. rewrite revoke_api_key_unfold.
  destruct (uuid_of_str key_id) as [id|]; [|exact Hinv].
  destruct (filter _ (api_keys db)) as [|k [|k2 r]] eqn:Hsel; simpl; try exact Hinv.
  destruct (selected_row _ _ _ _ Hsel) as [Hk _].
  apply (update_api_key_inv k (ApiKey.set_is_active false k)); auto. discriminate.
Qed.

Lemma preserves_create (sha256_hexdigest : string -> string) (payload : ApiKeyCreate.t)
    (u : User.t) (random_part : string) (new_id : uuid) (now : datetime) :
  preserves (create_api_key sha256_hexdigest payload u random_part new_id now).
Proof.
  intros db Hinv. unfold create_api_key.
  unfold bind at 1. unfold select_api_keys.
  fold (owns_active (User.id u)). fold (active_keys (User.id u) db).
  destruct (Nat.leb 10 (List.length (active_keys (User.id u) db))) eqn:Hfull;
    [exact Hinv|].
  apply Nat.leb_gt in Hfull. cbv zeta.
  apply keys_inv_after.
  - now apply insert_api_key_inv.
  - intros _. keeps_keys_steps.
Qed.

Section Sequential.

Variable jwt_decode : string -> option payload.
Variable jwt_encode : claims -> string.
Variable sha256_hexdigest : string -> string.
Variable hash_password : string -> string.
Variable verify_password : string -> string -> bool.
Variable uuid_of_str : string -> option uuid.
Variable lower : string -> string.
Variable str_float : float -> string.
Variable tostring : Element -> string.
Variable parseString_toprettyxml : string -> string -> option string.

Let serve_ : call -> M unit :=
  serve jwt_decode jwt_encode sha256_hexdigest hash_password verify_password uuid_of_str
    lower str_float tostring parseString_toprettyxml.

Let run_ : list call -> Db -> Db :=
  run jwt_decode jwt_encode sha256_hexdigest hash_password verify_password uuid_of_str
    lower str_float tostring parseString_toprettyxml.

Lemma preserves_dependency (credentials api_key : option string) (now : datetime) :
  preserves (current_user_dependency jwt_decode sha256_hexdigest credentials api_key now).
Proof.
  unfold current_user_dependency.
  apply preserves_bind; [apply keeps_keys_preserves, keeps_keys_from_token|intros token_user].
  apply preserves_bind; [apply preserves_from_api_key|intros api_key_user].
  apply keeps_keys_preserves, keeps_keys_get_current_user.
Qed.

Lemma preserves_done {A : Type} (m : M A) : preserves m -> preserves (done m).
Proof.
  intros Hm. unfold done. apply preserves_bind; [exact Hm|].
  intros _. apply keeps_keys_preserves. now intros db.
Qed.

(** Route by route: two handlers write keys, the others leave the table
    alone. *)
Lemma preserves_serve (c : call) : preserves (serve_ c).
Proof.
  unfold serve_, serve, authenticated.
  destruct (route c);
    try (apply preserves_bind; [apply preserves_dependency|intros current_user]).
  - apply preserves_done, keeps_keys_preserves. now intros db.
  - apply preserves_done, keeps_keys_preserves. now intros db.
  - apply preserves_done, keeps_keys_preserves, keeps_keys_register.
  - apply preserves_done, keeps_keys_preserves, keeps_keys_login.
  - apply preserves_done, keeps_keys_preserves. now intros db.
  - apply preserves_done, preserves_create.
  - apply preserves_done, keeps_keys_preserves, keeps_keys_list_api_keys.
  - apply preserves_revoke.
  - apply preserves_done, keeps_keys_preserves, keeps_keys_list_comics.
  - apply preserves_done, keeps_keys_preserves, keeps_keys_response_model,
      keeps_keys_create_comic.
  - apply preserves_done, keeps_keys_preserves, keeps_keys_response_model,
      keeps_keys_get_comic.
  - apply preserves_done, keeps_keys_preserves, keeps_keys_response_model,
      keeps_keys_update_comic.
  - apply keeps_keys_preserves, keeps_keys_delete_comic.
  - apply preserves_done, keeps_keys_preserves, keeps_keys_download_comicinfo.
  - apply preserves_done, keeps_keys_preserves, keeps_keys_get_cover_url.
Qed.

Lemma run_preserves (calls : list call) (db : Db) :
  keys_inv db -> keys_inv (run_ calls db).
Proof.
  revert db. induction calls as [|c calls IH]; intros db Hinv; simpl; [exact Hinv|].
  apply IH. now apply preserves_serve.
Qed.

End Sequential.


(** *** Creation at the cap, revocation, and creation again *)

Lemma revoke_selects (uuid_of_str : string -> option uuid) (key_id : string)
    (k : ApiKey.t) (u : User.t) (db : Db) :
  NoDup (map ApiKey.id (api_keys db)) -> In k (api_keys db) ->
  ApiKey.user_id k = User.id u ->
  uuid_of_str key_id = Some (ApiKey.id k) ->
  revoke_api_key uuid_of_str key_id u db
  = (Ok tt, set_api_keys (replaced (ApiKey.set_is_active false k) (api_keys db)) db).
Proof.
  intros Hnd Hk Howner Hread. rewrite revoke_api_key_unfold, Hread.
  pose proof (select_unique_key ApiKey.id
                (fun x => String.eqb (ApiKey.user_id x) (User.id u))
                (api_keys db) k Hnd Hk) as E.
  cbv beta in E. rewrite Howner, String.eqb_refl in E. rewrite E.
  reflexivity.
Qed.

Lemma replaced_fresh (k : ApiKey.t) (l : list ApiKey.t) (new_id key_hash : string) :
  NoDup (map ApiKey.id l) -> In k l ->
  (forall x, In x l -> ApiKey.id x <> new_id /\ ApiKey.key_hash x <> key_hash) ->
  existsb (fun x => String.eqb (ApiKey.id x) new_id
                    || String.eqb (ApiKey.key_hash x) key_hash)
    (replaced (ApiKey.set_is_active false k) l) = false.
Proof.
  intros Hnd Hk Hfresh.
  apply not_true_iff_false. intros Hex.
  apply existsb_exists in Hex. destruct Hex as [x [Hx Hhit]].
  unfold replaced in Hx. apply in_map_iff in Hx. destruct Hx as [y [Hy Hl]].
  assert (Hsame : ApiKey.id x = ApiKey.id y /\ ApiKey.key_hash x = ApiKey.key_hash y).
  { subst x. simpl.
    destruct (String.eqb_spec (ApiKey.id y) (ApiKey.id k)) as [E|_]; [|now split].
    now rewrite (same_id_same_row l k y Hnd Hk Hl E). }
  destruct Hsame as [Hid Hhash]. destruct (Hfresh y Hl) as [Hn1 Hn2].
  apply orb_true_iff in Hhit. rewrite !String.eqb_eq in Hhit.
  destruct Hhit; congruence.
Qed.

Section Cap.

Variable jwt_decode : string -> option payload.
Variable jwt_encode : claims -> string.
Variable sha256_hexdigest : string -> string.
Variable hash_password : string -> string.
Variable verify_password : string -> string -> bool.
Variable uuid_of_str : string -> option uuid.
Variable lower : string -> string.
Variable str_float : float -> string.
Variable tostring : Element -> string.
Variable parseString_toprettyxml : string -> string -> option string.

(** C7, as the code has it.  On a store within the cap: a creation by a user
    who has ten or more active keys is refused with status 400 and the store
    is left as it was; revoking a key of the user, named by a text the driver
    reads as its id, keeps the row and sets it inactive, and changes nothing
    else.  When the revoked key was active, a creation by the same user that
    follows (its primary key and its hash being new to the table) writes the
    row of the new key.  If a text of that row does not fit its column, as a
    name with a NUL character does not, the store refuses the row and the
    request fails, unhandled, with nothing written.  Otherwise the request
    is answered with the new key, which is stored as the last row of the
    table, active and owned by the user, who then has as many active keys as
    before the revocation.  And after any sequence of requests, on any of
    the routes of the application, the store is within the cap again. *)
Theorem active_key_cap (u : User.t) (db : Db) :
  keys_inv db ->
  ((10 <= List.length (active_keys (User.id u) db))%nat ->
   forall payload random_part new_id now,
     create_api_key sha256_hexdigest payload u random_part new_id now db
     = (HTTPException 400 "Maximum 10 active API keys per user", db))
  /\ (forall k key_id,
      In k (api_keys db) -> ApiKey.user_id k = User.id u ->
      uuid_of_str key_id = Some (ApiKey.id k) ->
      exists db',
        revoke_api_key uuid_of_str key_id u db = (Ok tt, db')
        /\ api_keys db' = replaced (ApiKey.set_is_active false k) (api_keys db)
        /\ In (ApiKey.set_is_active false k) (api_keys db')
        /\ List.length (api_keys db') = List.length (api_keys db)
        /\ users db' = users db /\ comics db' = comics db
        /\ (ApiKey.is_active k = true ->
            forall payload random_part new_id now,
              (forall x, In x (api_keys db) ->
                         ApiKey.id x <> new_id
                         /\ ApiKey.key_hash x
                            <> hash_api_key sha256_hexdigest (generate_api_key random_part)) ->
              let row :=
                ApiKey.mk new_id (User.id u) (ApiKeyCreate.name payload)
                  (hash_api_key sha256_hexdigest (generate_api_key random_part))
                  (substring 0 10 (generate_api_key random_part))
                  true None now (ApiKeyCreate.expires_at payload) in
              (fits_key row = false ->
               create_api_key sha256_hexdigest payload u random_part new_id now db'
               = (Unhandled DBAPIError, db'))
              /\ (fits_key row = true ->
                  exists created db'',
                    create_api_key sha256_hexdigest payload u random_part new_id now db'
                    = (Ok created, db'')
                    /\ ApiKeyCreated.full_key created = generate_api_key random_part
                    /\ ApiKeyCreated.is_active created = true
                    /\ ApiKeyCreated.id created = new_id
                    /\ ApiKeyCreated.name created = ApiKeyCreate.name payload
                    /\ api_keys db'' = api_keys db' ++ [row]
                    /\ users db'' = users db /\ comics db'' = comics db
                    /\ List.length (active_keys (User.id u) db'')
                       = List.length (active_keys (User.id u) db)
                    /\ keys_inv db'')))
  /\ (forall calls,
         keys_inv
           (run jwt_decode jwt_encode sha256_hexdigest hash_password verify_password
              uuid_of_str lower str_float tostring parseString_toprettyxml calls db)).
Proof.
  intros Hinv. split; [|split].
  - intros Hfull payload random_part new_id now.
    unfold create_api_key, bind, select_api_keys.
    fold (owns_active (User.id u)). fold (active_keys (User.id u) db).
    apply Nat.leb_le in Hfull. now rewrite Hfull.
  - intros k key_id Hk Howner Hread. destruct Hinv as [Hnd Hcap].
    set (k' := ApiKey.set_is_active false k).
    exists (set_api_keys (replaced k' (api_keys db)) db).
    split; [now apply revoke_selects|].
    split; [reflexivity|].
    split.
    { simpl. unfold replaced. apply in_map_iff. exists k. split; [|exact Hk].
      now rewrite String.eqb_refl. }
    split; [simpl; apply replaced_length|].
    split; [reflexivity|]. split; [reflexivity|].
    intros Hactive payload random_part new_id now Hfresh row.
    assert (Hinv' : keys_inv (set_api_keys (replaced k' (api_keys db)) db)).
    { apply (update_api_key_inv k k' db);
        [now split | exact Hk | reflexivity | reflexivity | discriminate]. }
    assert (Hcount : S (List.length
                          (active_keys (User.id u)
                             (set_api_keys (replaced k' (api_keys db)) db)))
                     = List.length (active_keys (User.id u) db)).
    { unfold active_keys. simpl.
      apply (replaced_count_pred _ k k'); auto.
      - unfold owns_active. now rewrite Howner, String.eqb_refl, Hactive.
      - unfold owns_active. simpl. now rewrite andb_false_r. }
    pose proof (preserves_create sha256_hexdigest payload u random_part new_id now _ Hinv')
      as Hafter.
    revert Hafter.
    unfold create_api_key, bind, select_api_keys.
    fold (owns_active (User.id u)).
    fold (active_keys (User.id u) (set_api_keys (replaced k' (api_keys db)) db)).
    assert (Hroom : Nat.leb 10
                      (List.length
                         (active_keys (User.id u)
                            (set_api_keys (replaced k' (api_keys db)) db))) = false).
    { apply Nat.leb_gt. specialize (Hcap (User.id u)). lia. }
    rewrite Hroom. cbv zeta. fold row. unfold insert_api_key.
    intros Hafter. split; intros Hfit; rewrite Hfit in Hafter |- *; [reflexivity|].
    revert Hafter. cbv beta iota delta [negb].
    simpl api_keys. simpl ApiKey.id. simpl ApiKey.key_hash.
    pose proof (replaced_fresh k (api_keys db) new_id _ Hnd Hk Hfresh) as Hnew.
    fold k' in Hnew. rewrite Hnew.
    simpl. intros Hafter.
    eexists _, _. split; [reflexivity|].
    do 4 (split; [reflexivity|]).
    split; [reflexivity|]. split; [reflexivity|]. split; [reflexivity|].
    split; [|exact Hafter].
    rewrite <- Hcount. unfold active_keys. simpl.
    rewrite filter_app, length_app. simpl.
    unfold owns_active at 2. simpl. rewrite String.eqb_refl. simpl. lia.
  - intros calls. now apply run_preserves.
Qed.

End Cap.

(** ** The ComicInfo exporter *)

Section ComicInfoFacts.

Variable str_float : float -> string.
Variable tostring : Element -> string.
Variable parseString_toprettyxml : string -> string -> option string.

Let add := _add_if_present str_float.
Let table := exported str_float.

Lemma add_children (r : Element) (t : string) (v : option value) :
  children (add r t v) = children r ++ entry (t, option_map (str str_float) v).
Proof. destruct v; destruct r; simpl; [reflexivity | now rewrite app_nil_r]. Qed.

Lemma add_str (r : Element) (t : string) (o : option string) :
  children (add r t (option_map VStr o)) = children r ++ entry (t, o).
Proof. rewrite add_children. now destruct o. Qed.

Lemma add_int (r : Element) (t : string) (o : option Z) :
  children (add r t (option_map VInt o)) = children r ++ entry (t, option_map str_int o).
Proof. rewrite add_children. now destruct o. Qed.

Lemma add_float (r : Element) (t : string) (o : option float) :
  children (add r t (option_map VFloat o)) = children r ++ entry (t, option_map str_float o).
Proof. rewrite add_children. now destruct o. Qed.

Lemma add_bw (r : Element) (t : string) (o : option bool) :
  children match o with
           | Some is_bw => add r t (Some (VStr (if is_bw then "Yes" else "No")))
           | None => r
           end
  = children r ++ entry (t, option_map yes_no o).
Proof.
  destruct o as [b|]; [rewrite add_children; reflexivity|].
  simpl. now rewrite app_nil_r.
Qed.

Lemma add_truthy (r : Element) (t : string) (o : option string) :
  children (if truthy_opt truthy_str o then add r t (option_map VStr o) else r)
  = children r ++ entry (t, drop_falsy truthy_str o).
Proof.
  destruct o as [s|]; unfold truthy_opt, drop_falsy.
  - destruct (truthy_str s); [apply add_str|].
    unfold entry. simpl snd. now rewrite app_nil_r.
  - unfold entry. simpl snd. now rewrite app_nil_r.
Qed.

(** The children the exporter appends, statement by statement. *)
Lemma comicinfo_children (c : Comic.t) :
  children (comicinfo_root str_float c) = flat_map entry (table c).
Proof.
  unfold comicinfo_root. cbv zeta. fold add.
  rewrite !add_truthy, add_int, add_str, add_float, add_bw.
  repeat first [rewrite add_str | rewrite add_int].
  unfold table, exported. simpl flat_map.
  rewrite <- !app_assoc, app_nil_r. reflexivity.
Qed.

(** The tag, attributes and text of the root are those it is created with. *)
Lemma head_add (r : Element) (t : string) (v : option value) :
  head (add r t v) = head r.
Proof. destruct v; destruct r; reflexivity. Qed.

Lemma head_add_bw (r : Element) (t : string) (o : option bool) :
  head match o with
       | Some is_bw => add r t (Some (VStr (if is_bw then "Yes" else "No")))
       | None => r
       end
  = head r.
Proof. destruct o; [apply head_add | reflexivity]. Qed.

Lemma head_add_truthy (r : Element) (t : string) (o : option string) :
  head (if truthy_opt truthy_str o then add r t (option_map VStr o) else r) = head r.
Proof. destruct (truthy_opt truthy_str o); [apply head_add | reflexivity]. Qed.

Lemma comicinfo_head (c : Comic.t) :
  head (comicinfo_root str_float c)
  = ("ComicInfo",
     [("xmlns:xsi", "http://www.w3.org/2001/XMLSchema-instance");
      ("xmlns:xsd", "http://www.w3.org/2001/XMLSchema")],
     None).
Proof.
  unfold comicinfo_root. cbv zeta. fold add.
  rewrite !head_add_truthy, !head_add, head_add_bw, !head_add.
  reflexivity.
Qed.

Lemma Element_eta (e : Element) :
  e = mkElement (tag e) (attrib e) (text e) (children e).
Proof. now destruct e. Qed.

Lemma comicinfo_root_table (c : Comic.t) :
  comicinfo_root str_float c
  = mkElement "ComicInfo"
      [("xmlns:xsi", "http://www.w3.org/2001/XMLSchema-instance");
       ("xmlns:xsd", "http://www.w3.org/2001/XMLSchema")]
      None (flat_map entry (table c)).
Proof.
  rewrite (Element_eta (comicinfo_root str_float c)), comicinfo_children.
  pose proof (comicinfo_head c) as H. unfold head in H.
  now inversion H.
Qed.

Lemma in_entries (l : list (string * option string)) (e : Element) :
  In e (flat_map entry l) <-> exists t s, In (t, Some s) l /\ e = leaf t s.
Proof.
  rewrite in_flat_map. split.
  - intros [[t [s|]] [Hl He]]; simpl in He; [|contradiction].
    destruct He as [<-|[]]. now exists t, s.
  - intros [t [s [Hl ->]]]. exists (t, Some s). split; [exact Hl | now left].
Qed.

Lemma entries_tag_text (l : list (string * option string)) :
  map (fun e => (tag e, text e)) (flat_map entry l)
  = filter (fun tv => is_set (snd tv)) l.
Proof.
  induction l as [|[t [s|]] l IH]; simpl; [reflexivity | now rewrite IH | exact IH].
Qed.

(** Leaving out the fields that are not set repeats no tag. *)
Lemma set_fields_tags_NoDup (fields : list (string * option string)) :
  NoDup (map fst fields) ->
  NoDup (map fst (filter (fun tv => is_set (snd tv)) fields)).
Proof.
  intros Hnd. induction fields as [|[t v] fields IH]; simpl; [constructor|].
  simpl in Hnd. apply NoDup_cons_iff in Hnd. destruct Hnd as [Hfresh Hnd].
  destruct v as [s|]; simpl; [|now apply IH].
  apply NoDup_cons; [|now apply IH].
  intros Hin. apply Hfresh. apply in_map_iff in Hin. destruct Hin as [x [Hx Hl]].
  apply filter_In in Hl. rewrite <- Hx. apply in_map. tauto.
Qed.

Lemma exported_tags_NoDup (c : Comic.t) : NoDup (map fst (table c)).
Proof.
  unfold table, exported. simpl.
  repeat (constructor; [simpl; intuition discriminate|]).
  constructor.
Qed.

(** C6, as the code has it.  The export is one root [ComicInfo]; its children
    are, in the order of the table [exported], one element for each exported
    field that is not [None] -- for ISBN and Barcode, not [None] and not empty
    -- carrying the field's text; a field that is [None] has no element, a
    field holding the empty string has one with empty text; the
    black-and-white flag is written "Yes" or "No"; no tag occurs twice; the
    document is determined by the table; and a comic with only the title
    "Watchmen" is exported as a single [Title] element with that text. *)
Theorem comicinfo_children_follow_export_table (c : Comic.t) :
  let root := comicinfo_root str_float c in
  root = mkElement "ComicInfo"
           [("xmlns:xsi", "http://www.w3.org/2001/XMLSchema-instance");
            ("xmlns:xsd", "http://www.w3.org/2001/XMLSchema")]
           None (children root)
  /\ map (fun e => (tag e, text e)) (children root)
     = filter (fun tv => is_set (snd tv)) (table c)
  /\ (forall e, In e (children root) <-> exists t s, In (t, Some s) (table c) /\ e = leaf t s)
  /\ NoDup (map tag (children root))
  /\ (forall s, In (leaf "BlackAndWhite" s) (children root)
                <-> exists b, Comic.is_bw c = Some b /\ s = (if b then "Yes" else "No"))
  /\ (forall s, In (leaf "ISBN" s) (children root) <-> Comic.isbn c = Some s /\ s <> "")
  /\ (forall c', table c' = table c ->
                 generate_comicinfo_xml str_float tostring parseString_toprettyxml c'
                 = generate_comicinfo_xml str_float tostring parseString_toprettyxml c)
  /\ children (comicinfo_root str_float Sample.watchmen) = [leaf "Title" "Watchmen"].
Proof.
  intros root. unfold root.
  assert (Hin : forall e, In e (children (comicinfo_root str_float c))
                          <-> exists t s, In (t, Some s) (table c) /\ e = leaf t s).
  { intros e. rewrite comicinfo_children. apply in_entries. }
  split.
  { rewrite comicinfo_root_table at 1. now rewrite comicinfo_children. }
  split; [rewrite comicinfo_children; apply entries_tag_text|].
  split; [exact Hin|].
  split.
  { replace (map tag (children (comicinfo_root str_float c)))
      with (map fst (map (fun e => (tag e, text e))
                       (children (comicinfo_root str_float c))))
      by (rewrite map_map; reflexivity).
    rewrite comicinfo_children, entries_tag_text.
    apply set_fields_tags_NoDup, exported_tags_NoDup. }
  split.
  { intros s. rewrite Hin. split.
    - intros [t [s' [Hl He]]]. inversion He; subst t s'.
      unfold table, exported in Hl. simpl in Hl.
      repeat (destruct Hl as [Hl|Hl]; [try discriminate Hl|]); try contradiction.
      assert (Hbw : option_map yes_no (Comic.is_bw c) = Some s) by congruence.
      clear Hl He. destruct (Comic.is_bw c) as [b|]; [|discriminate Hbw].
      exists b. injection Hbw as <-. now split.
    - intros [b [Hb ->]]. exists "BlackAndWhite", (yes_no b). split; [|reflexivity].
      unfold table, exported. rewrite Hb. simpl. tauto. }
  split.
  { intros s. rewrite Hin. split.
    - intros [t [s' [Hl He]]]. inversion He; subst t s'.
      unfold table, exported in Hl. simpl in Hl.
      repeat (destruct Hl as [Hl|Hl]; [try discriminate Hl|]); try contradiction.
      assert (Hisbn : drop_falsy truthy_str (Comic.isbn c) = Some s) by congruence.
      clear Hl He. unfold drop_falsy, truthy_str in Hisbn.
      destruct (Comic.isbn c) as [x|]; [|discriminate Hisbn].
      destruct (String.eqb_spec x ""); simpl in Hisbn; [discriminate Hisbn|].
      injection Hisbn as ->. now split.
    - intros [Hisbn Hne]. exists "ISBN", s. split; [|reflexivity].
      unfold table, exported. rewrite Hisbn. unfold drop_falsy, truthy_str.
      destruct (String.eqb_spec s ""); [contradiction|]. simpl. tauto. }
  split.
  { intros c' Hsame. unfold generate_comicinfo_xml. cbv zeta.
    now rewrite !comicinfo_root_table, Hsame. }
  reflexivity.
Qed.

End ComicInfoFacts.

(** A comic titled "Watchmen" whose [series] and [isbn] hold the empty string
    and whose [cover_url] is set has four fields set; the export has two
    children, [Title] and an empty [Series]: no [ISBN] element, none for the
    cover, and one element without text. *)
Lemma comicinfo_set_fields_without_element :
  Comic.series Sample.oddity = Some ""
  /\ Comic.isbn Sample.oddity = Some ""
  /\ Comic.cover_url Sample.oddity = Some "https://covers.example.com/c-3.png"
  /\ children (comicinfo_root Sample.str_float Sample.oddity)
     = [leaf "Title" "Watchmen"; leaf "Series" ""].
Proof. repeat split. Qed.

(** ** Registration *)

Lemma two_rows_selected {A : Type} (p : A -> bool) (l : list A) (a b : A) :
  In a l -> In b l -> a <> b -> p a = true -> p b = true ->
  exists x y r, filter p l = x :: y :: r.
Proof.
  intros Ha Hb Hab Hpa Hpb.
  assert (Fa : In a (filter p l)) by (apply filter_In; now split).
  assert (Fb : In b (filter p l)) by (apply filter_In; now split).
  destruct (filter p l) as [|x [|y r]].
  - contradiction.
  - destruct Fa as [<-|[]], Fb as [<-|[]]. contradiction.
  - now exists x, y, r.
Qed.

Lemma one_row_selected {A : Type} (p : A -> bool) (l : list A) (u : A) :
  NoDup l -> In u l -> p u = true ->
  (forall x, In x l -> p x = true -> x = u) ->
  filter p l = [u].
Proof.
  induction l as [|a l IH]; simpl; intros Hnd Hin Hpu Honly; [contradiction|].
  inversion Hnd as [|? ? Hfresh Hnd']; subst.
  assert (Hrest : forall x, In x l -> p x = true -> x = u) by (intros; apply Honly; auto).
  destruct Hin as [->|Hin].
  - rewrite Hpu. f_equal.
    destruct (filter p l) as [|x r] eqn:E; [reflexivity|].
    exfalso. apply Hfresh.
    destruct (selected_row p l r x E) as [Hx Hpx].
    now rewrite <- (Hrest x Hx Hpx).
  - destruct (p a) eqn:Hpa.
    + exfalso. apply Hfresh. rewrite (Honly a (or_introl eq_refl) Hpa). exact Hin.
    + now apply IH.
Qed.

Section RegisterFacts.

Variable hash_password : string -> string.

(** The conflict answers of [register], when one user holds the name or the
    address. *)
Lemma register_conflict_of_one_user (payload : UserRegister.t) (new_id : uuid)
    (now : datetime) (db : Db) (u : User.t) :
  db_wf db -> In u (users db) ->
  User.username u = UserRegister.username payload
  \/ User.email u = UserRegister.email payload ->
  (forall x, In x (users db) ->
             User.username x = UserRegister.username payload
             \/ User.email x = UserRegister.email payload -> x = u) ->
  register hash_password payload new_id now db
  = (HTTPException 400
       (if String.eqb (User.username u) (UserRegister.username payload)
        then "Username already taken" else "Email already registered"),
     db).
Proof.
  intros Hwf Hin Hhit Honly.
  unfold register, bind, select_users.
  rewrite (one_row_selected _ (users db) u).
  - simpl. now destruct (String.eqb _ _).
  - exact (NoDup_map_inv _ _ (wf_user_id db Hwf)).
  - exact Hin.
  - apply orb_true_iff. rewrite !String.eqb_eq. exact Hhit.
  - intros x Hx Hp. apply Honly; [exact Hx|].
    apply orb_true_iff in Hp. now rewrite !String.eqb_eq in Hp.
Qed.

(** When the name is held by one user and the address by another, the
    lookup selects both rows and [scalar_one_or_none] raises. *)
Lemma register_conflict_of_two_users (payload : UserRegister.t) (new_id : uuid)
    (now : datetime) (db : Db) (a b : User.t) :
  In a (users db) -> In b (users db) -> a <> b ->
  User.username a = UserRegister.username payload ->
  User.email b = UserRegister.email payload ->
  register hash_password payload new_id now db = (Unhandled MultipleResultsFound, db).
Proof.
  intros Ha Hb Hab Hname Hmail.
  unfold register, bind, select_users.
  destruct (two_rows_selected
              (fun u => String.eqb (User.username u) (UserRegister.username payload)
                        || String.eqb (User.email u) (UserRegister.email payload))
              (users db) a b Ha Hb Hab) as [x [y [r E]]].
  - rewrite Hname, String.eqb_refl. reflexivity.
  - rewrite Hmail, String.eqb_refl. apply orb_true_r.
  - now rewrite E.
Qed.

End RegisterFacts.

(** C8, on the code.  "alice" is the name of one user and "bob@example.org"
    the address of another; registering with both is answered by neither
    conflict error: the lookup raises [MultipleResultsFound]. *)
Theorem register_name_and_address_of_two_users :
  valid_register (UserRegister.mk "alice" "bob@example.org" "correct horse") = true
  /\ In Sample.alice (users Sample.db) /\ In Sample.bob (users Sample.db)
  /\ register Sample.hash_password
       (UserRegister.mk "alice" "bob@example.org" "correct horse") "u-new" 100 Sample.db
     = (Unhandled MultipleResultsFound, Sample.db).
Proof.
  split; [reflexivity|].
  split; [simpl; tauto|].
  split; [simpl; tauto|].
  apply (register_conflict_of_two_users Sample.hash_password _ _ _ _ Sample.alice Sample.bob);
    try reflexivity; try (simpl; tauto).
  discriminate.
Qed.

(** * The statements on the sample store *)

Lemma sample_db_wf : db_wf Sample.db.
Proof.
  constructor; simpl;
    repeat (constructor; [simpl; intuition discriminate|]); constructor.
Qed.

Lemma token_principal_takes_precedence_witness :
  fst (current_user_dependency Sample.jwt_decode Sample.sha256_hexdigest
         (Some "token-of-alice") (Some "mng_bob") 100 Sample.db)
  = Ok Sample.alice
  /\ fst (get_current_user_from_api_key Sample.sha256_hexdigest (Some "mng_bob") 100
            Sample.db)
     = Ok (Some Sample.bob)
  /\ current_user_dependency Sample.jwt_decode Sample.sha256_hexdigest
       (Some "forged") (Some "mng_nobody") 100 Sample.db
     = (HTTPException 401 "Not authenticated", Sample.db).
Proof.
  split; [|split].
  - destruct (token_principal_takes_precedence Sample.jwt_decode Sample.sha256_hexdigest
                "token-of-alice" "mng_bob" 100 Sample.db sample_db_wf) as [H _].
    apply (H [("sub", JString "u-alice"); ("exp", JNumber 2000)] "u-alice" Sample.alice);
      [reflexivity | reflexivity | discriminate | simpl; tauto | reflexivity | reflexivity].
  - reflexivity.
  - destruct (token_principal_takes_precedence Sample.jwt_decode Sample.sha256_hexdigest
                "forged" "mng_nobody" 100 Sample.db sample_db_wf) as [_ H].
    apply (H Sample.db Sample.db); reflexivity.
Defined.

Lemma revoked_expired_or_orphaned_key_resolves_to_none_witness :
  fst (get_current_user_from_api_key Sample.sha256_hexdigest (Some "mng_off") 100
         Sample.db) = Ok None
  /\ fst (get_current_user_from_api_key Sample.sha256_hexdigest (Some "mng_old") 100
            Sample.db) = Ok None
  /\ fst (get_current_user_from_api_key Sample.sha256_hexdigest (Some "mng_carol") 100
            Sample.db) = Ok None.
Proof.
  split; [|split].
  - apply (revoked_expired_or_orphaned_key_resolves_to_none Sample.sha256_hexdigest
             "mng_off" 100 Sample.db Sample.key_revoked sample_db_wf);
      [simpl; tauto | reflexivity | left; reflexivity].
  - apply (revoked_expired_or_orphaned_key_resolves_to_none Sample.sha256_hexdigest
             "mng_old" 100 Sample.db Sample.key_expired sample_db_wf);
      [simpl; tauto | reflexivity |].
    right; left. exists 50. split; [reflexivity | lia].
  - apply (revoked_expired_or_orphaned_key_resolves_to_none Sample.sha256_hexdigest
             "mng_carol" 100 Sample.db Sample.key_carol sample_db_wf);
      [simpl; tauto | reflexivity |].
    right; right. exists Sample.carol. split; [simpl; tauto | split; reflexivity].
Defined.

(** Page 2 of size 20 of the forty-five comics that match [q=saga]; and a
    year bound of 2^31, which the store refuses. *)
Lemma list_comics_pagination_witness :
  (exists r ordered skipped returned rest,
      list_comics Sample.lower (Some "saga") None None None None None None None None None
        (Some 2) (Some 20) None None Sample.db50
      = (Ok r, Sample.db50)
      /\ ordered = skipped ++ returned ++ rest
      /\ List.length skipped = 20%nat /\ List.length returned = 20%nat
      /\ List.length rest = 5%nat
      /\ PaginatedComics.results r = map ComicListOut.model_validate returned
      /\ PaginatedComics.total r = 45
      /\ map ComicListOut.id (PaginatedComics.results r)
         = map (fun i => str_int (Z.of_nat i)) (seq 21 20))
  /\ list_comics Sample.lower None None None None None None (Some 2147483648) None None
       None (Some 2) (Some 20) None None Sample.db50
     = (Unhandled DBAPIError, Sample.db50).
Proof.
  split.
  - destruct (list_comics_pagination Sample.lower (Some "saga") None None None None None
                None None None None (Some 2) (Some 20) None None Sample.db50
                eq_refl eq_refl) as [H _].
    destruct H as [_ H]; [simpl; lia|].
    destruct (H eq_refl) as [r [ordered [skipped [returned [rest H']]]]].
    destruct H' as [Hrun [_ [Hcut [_ [_ [Hres [_ [_ [_ Hpage]]]]]]]]].
    destruct Hpage as [Hs [Hr [Hrest Htotal]]]; [reflexivity | reflexivity | reflexivity|].
    exists r, ordered, skipped, returned, rest.
    repeat (split; [assumption|]).
    assert (E : Ok r = fst (list_comics Sample.lower (Some "saga") None None None None None
                              None None None None (Some 2) (Some 20) None None
                              Sample.db50))
      by now rewrite Hrun.
    vm_compute in E. injection E as ->. reflexivity.
  - destruct (list_comics_pagination Sample.lower None None None None None None
                (Some 2147483648) None None None (Some 2) (Some 20) None None Sample.db50
                eq_refl eq_refl) as [H _].
    destruct H as [H _]; [simpl; lia|].
    apply H. reflexivity.
Defined.

(** A page and a page size the handler admits, with an offset the store
    does not take; a year bound that is no signed 32-bit number; and a [q]
    with a NUL character.  None of the three requests gets a page. *)
Lemma list_comics_outside_the_range_of_the_store :
  list_comics Sample.lower None None None None None None None None None None
    (Some 9223372036854775807) (Some 100) None None Sample.db50
  = (Unhandled DBAPIError, Sample.db50)
  /\ list_comics Sample.lower None None None None None None (Some 2147483648) None None
       None None None None None Sample.db50
     = (Unhandled DBAPIError, Sample.db50)
  /\ list_comics Sample.lower (Some Demo.nul_text) None None None None None None None None
       None None None None None Sample.db50
     = (Unhandled DBAPIError, Sample.db50).
Proof. repeat split; vm_compute; reflexivity. Qed.



(** The body names [summary] only; [updated_at] of the comic goes from 30 to
    the time of the request. *)
Lemma patch_of_summary_changes_updated_at :
  update_comic "c-1" Sample.only_summary Sample.alice 500 Sample.db
  = (Ok Sample.patched_watchmen, Sample.db_after_patch)
  /\ model_dump_exclude_none Sample.only_summary
     = [(Attr.summary, VStr "Who watches the watchmen?")]
  /\ Comic.updated_at Sample.watchmen = 30
  /\ Comic.updated_at Sample.patched_watchmen = 500.
Proof. repeat split. Qed.

Lemma patch_changes_supplied_fields_and_updated_at_witness :
  Comic.getattr Sample.patched_watchmen Attr.summary
  = Some (VStr "Who watches the watchmen?")
  /\ Comic.getattr Sample.patched_watchmen Attr.title = Some (VStr "Watchmen")
  /\ Comic.created_by Sample.patched_watchmen = Some "u-alice"
  /\ Comic.updated_at Sample.patched_watchmen = 500
  /\ users Sample.db_after_patch = users Sample.db.
Proof.
  destruct (patch_changes_supplied_fields_and_updated_at "c-1" Sample.only_summary
              Sample.alice 500 Sample.db Sample.db_after_patch Sample.watchmen
              Sample.patched_watchmen sample_db_wf)
    as [Hattr [_ [_ [_ [Hby [Hupd [Husers _]]]]]]];
    [simpl; tauto | reflexivity | reflexivity|].
  split; [exact (Hattr Attr.summary)|].
  split; [exact (Hattr Attr.title)|].
  split; [exact Hby|].
  split; [exact Hupd | exact Husers].
Defined.

Lemma sample_db_full_inv : keys_inv Sample.db_full.
Proof.
  split.
  - vm_compute. repeat (constructor; [simpl; intuition discriminate|]). constructor.
  - intros uid. unfold active_keys.
    apply Nat.le_trans with (List.length (api_keys Sample.db_full)).
    + apply filter_length_le.
    + vm_compute. apply Nat.le_refl.
Qed.

(** dave holds ten active keys: an eleventh is refused; with key "1" revoked
    the next creation goes through, unless the name of the key has a NUL
    character. *)
Lemma active_key_cap_witness :
  create_api_key Sample.sha256_hexdigest (ApiKeyCreate.mk "eleventh" None) Sample.dave
    "r4nd0m" "k-new" 100 Sample.db_full
  = (HTTPException 400 "Maximum 10 active API keys per user", Sample.db_full)
  /\ exists db',
       revoke_api_key Sample.uuid_of_str "1" Sample.dave Sample.db_full = (Ok tt, db')
       /\ List.length (api_keys db') = 10%nat
       /\ create_api_key Sample.sha256_hexdigest (ApiKeyCreate.mk Demo.nul_text None)
            Sample.dave "r4nd0m" "k-new" 100 db'
          = (Unhandled DBAPIError, db')
       /\ exists created db'',
            create_api_key Sample.sha256_hexdigest (ApiKeyCreate.mk "eleventh" None)
              Sample.dave "r4nd0m" "k-new" 100 db'
            = (Ok created, db'')
            /\ ApiKeyCreated.full_key created = "mng_r4nd0m"
            /\ In (ApiKey.mk "k-new" "u-dave" "eleventh" "sha256:mng_r4nd0m" "mng_r4nd0m"
                     true None 100 None) (api_keys db'')
            /\ List.length (active_keys "u-dave" db'') = 10%nat
            /\ keys_inv db''.
Proof.
  destruct (active_key_cap Sample.jwt_decode Demo.jwt_encode Sample.sha256_hexdigest
              Sample.hash_password Demo.verify_password Sample.uuid_of_str Sample.lower
              Sample.str_float Demo.tostring Demo.parseString_toprettyxml
              Sample.dave Sample.db_full sample_db_full_inv) as [Hfull [Hrevoke _]].
  split.
  - apply Hfull. vm_compute. apply Nat.le_refl.
  - destruct (Hrevoke (Sample.key_of_dave 1) "1")
      as [db' [Hrun [_ [_ [Hlen [_ [_ Hnext]]]]]]];
      [simpl; tauto | reflexivity | reflexivity|].
    assert (Hfresh : forall x, In x (api_keys Sample.db_full) ->
                               ApiKey.id x <> "k-new"
                               /\ ApiKey.key_hash x <> "sha256:mng_r4nd0m").
    { intros x Hx. vm_compute in Hx.
      repeat (destruct Hx as [<-|Hx]; [split; discriminate|]). contradiction. }
    exists db'. split; [exact Hrun|]. split; [exact Hlen|].
    split.
    + pose proof (Hnext eq_refl (ApiKeyCreate.mk Demo.nul_text None) "r4nd0m" "k-new" 100
                    Hfresh) as Hnul.
      cbv zeta in Hnul. destruct Hnul as [Hrefused _].
      apply Hrefused. reflexivity.
    + pose proof (Hnext eq_refl (ApiKeyCreate.mk "eleventh" None) "r4nd0m" "k-new" 100
                    Hfresh) as Hkey.
      cbv zeta in Hkey. destruct Hkey as [_ Hcreated].
      destruct (Hcreated eq_refl)
        as [created [db'' [Hcreate [Hfull_key [_ [_ [_ [Hrows [_ [_ [Hcount Hinv]]]]]]]]]]].
      exists created, db''. split; [exact Hcreate|]. split; [exact Hfull_key|].
      split; [rewrite Hrows; apply in_or_app; right; left; reflexivity|].
      split; [exact Hcount | exact Hinv].
Defined.

(** dave holds ten active keys and revokes the first; the creation that
    follows names its key with a NUL character in the name: it does not
    succeed, the store refuses the row and nothing is written. *)
Lemma creation_after_revocation_refused_by_the_store :
  List.length (active_keys "u-dave" Sample.db_full) = 10%nat
  /\ revoke_api_key Sample.uuid_of_str "1" Sample.dave Sample.db_full
     = (Ok tt, Demo.db_nine)
  /\ List.length (active_keys "u-dave" Demo.db_nine) = 9%nat
  /\ create_api_key Sample.sha256_hexdigest (ApiKeyCreate.mk Demo.nul_text None)
       Sample.dave "r4nd0m" "k-new" 100 Demo.db_nine
     = (Unhandled DBAPIError, Demo.db_nine).
Proof. repeat split. Qed.

(** * Further properties of the handlers *)

(** ** Who the resolver returns *)

Lemma scalar_one_selected {A : Type} (p : A -> bool) (l : list A) (x : A) (db db' : Db) :
  scalar_one_or_none (filter p l) db = (Ok (Some x), db') ->
  filter p l = [x] /\ In x l /\ p x = true /\ db' = db.
Proof.
  destruct (filter p l) as [|a [|b r]] eqn:E; simpl; unfold ret, throw; intros H;
    inversion H; subst.
  destruct (selected_row _ _ _ _ E) as [Hin Hp]. auto.
Qed.

Lemma select_none {A : Type} (p : A -> bool) (l : list A) :
  (forall x, In x l -> p x = false) -> filter p l = [].
Proof.
  induction l as [|a l IH]; simpl; intros Hall; [reflexivity|].
  rewrite (Hall a (or_introl eq_refl)). apply IH. auto.
Qed.

Section ResolverFacts.

Variable jwt_decode : string -> option payload.
Variable sha256_hexdigest : string -> string.

Let from_token := get_current_user_from_token jwt_decode.
Let from_api_key := get_current_user_from_api_key sha256_hexdigest.
Let dependency := current_user_dependency jwt_decode sha256_hexdigest.

Lemma from_token_some (credentials : option string) (db db' : Db) (u : User.t) :
  from_token credentials db = (Ok (Some u), db') ->
  In u (users db) /\ User.is_active u = true /\ db' = db.
Proof.
  unfold from_token, get_current_user_from_token.
  destruct credentials as [token|]; [|discriminate].
  destruct (decode_access_token jwt_decode token) as [p|]; [|discriminate].
  destruct (truthy_payload p); simpl; [|discriminate].
  destruct (payload_get "sub" p) as [user_id|]; [|discriminate].
  destruct (truthy_jvalue user_id); simpl; [|discriminate].
  unfold bind, select_users. intros H.
  apply scalar_one_selected in H. destruct H as [_ [Hin [Hp ->]]].
  apply andb_true_iff in Hp. destruct Hp as [_ Hact].
  apply Bool.eqb_prop in Hact. auto.
Qed.

(** What a key lookup leaves in the store: the row it selected, stamped. *)
Lemma from_api_key_cases (api_key : option string) (now : datetime) (db : Db) :
  db_wf db ->
  from_api_key api_key now db = (Ok None, db)
  \/ exists k,
       In k (api_keys db)
       /\ api_key <> None
       /\ Some (ApiKey.key_hash k) = option_map (hash_api_key sha256_hexdigest) api_key
       /\ ApiKey.is_active k = true
       /\ (forall e, ApiKey.expires_at k = Some e -> now <= e)
       /\ let db' :=
            set_api_keys (replaced (ApiKey.set_last_used_at (Some now) k) (api_keys db)) db in
          (exists u, In u (users db) /\ User.id u = ApiKey.user_id k
                     /\ User.is_active u = true
                     /\ from_api_key api_key now db = (Ok (Some u), db'))
          \/ ((forall u, In u (users db) -> User.id u = ApiKey.user_id k ->
                         User.is_active u = false)
              /\ from_api_key api_key now db = (Ok None, db')).
Proof.
  intros Hwf.
  remember (from_api_key api_key now db) as answer eqn:Hrun.
  unfold from_api_key, get_current_user_from_api_key in Hrun.
  destruct api_key as [s|]; simpl in Hrun; [|now left].
  destruct (truthy_str s) eqn:Hs; simpl in Hrun; [|now left].
  unfold bind at 1 2 in Hrun. unfold select_api_keys in Hrun.
  destruct (select_at_most_one ApiKey.key_hash (fun k => Bool.eqb (ApiKey.is_active k) true)
              (hash_api_key sha256_hexdigest s) (api_keys db) (wf_key_hash db Hwf))
    as [E | [k [Hk [Hhash E]]]]; cbv beta in E; rewrite E in Hrun; simpl in Hrun;
    [now left|].
  assert (Hact : ApiKey.is_active k = true).
  { destruct (selected_row _ _ _ _ E) as [_ Hp].
    apply andb_true_iff in Hp. now apply Bool.eqb_prop. }
  destruct (match ApiKey.expires_at k with
            | Some expires_at => expires_at <? now
            | None => false
            end) eqn:Hexp; [now left|].
  right. exists k.
  split; [exact Hk|]. split; [discriminate|]. split; [now rewrite Hhash|].
  split; [exact Hact|].
  split.
  { intros e He. rewrite He in Hexp. apply Z.ltb_ge in Hexp. exact Hexp. }
  cbv zeta in *. unfold bind, update_api_key, select_users in Hrun. simpl in Hrun.
  fold (replaced (ApiKey.set_last_used_at (Some now) k) (api_keys db)) in Hrun.
  destruct (select_at_most_one User.id (fun x => Bool.eqb (User.is_active x) true)
              (ApiKey.user_id k) (users db) (wf_user_id db Hwf))
    as [E' | [u [Hu [Hid E']]]]; cbv beta in E'; rewrite E' in Hrun; simpl in Hrun.
  - right. split; [|exact Hrun].
    intros u Hu Hid.
    pose proof (select_unique_key User.id (fun x => Bool.eqb (User.is_active x) true)
                  (users db) u (wf_user_id db Hwf) Hu) as E2.
    cbv beta in E2. rewrite Hid, E' in E2.
    destruct (User.is_active u); [discriminate E2 | reflexivity].
  - left. exists u. repeat split; auto.
    destruct (selected_row _ _ _ _ E') as [_ Hp].
    apply andb_true_iff in Hp. now apply Bool.eqb_prop.
Qed.

Lemma from_api_key_some (api_key : option string) (now : datetime) (db db' : Db)
    (u : User.t) :
  db_wf db ->
  from_api_key api_key now db = (Ok (Some u), db') ->
  In u (users db) /\ User.is_active u = true
  /\ users db' = users db /\ comics db' = comics db.
Proof.
  intros Hwf H.
  destruct (from_api_key_cases api_key now db Hwf) as [E | [k [_ [_ [_ [_ [_ Hcase]]]]]]].
  - rewrite E in H. discriminate H.
  - cbv zeta in Hcase. destruct Hcase as [[u' [Hu [_ [Hact E]]]] | [_ E]];
      rewrite E in H; inversion H; subst; auto.
Qed.

Lemma from_api_key_frame (api_key : option string) (now : datetime) (db : Db) :
  db_wf db ->
  users (snd (from_api_key api_key now db)) = users db
  /\ comics (snd (from_api_key api_key now db)) = comics db.
Proof.
  intros Hwf.
  destruct (from_api_key_cases api_key now db Hwf) as [E | [k [_ [_ [_ [_ [_ Hcase]]]]]]].
  - rewrite E. auto.
  - cbv zeta in Hcase. destruct Hcase as [[u' [_ [_ [_ E]]]] | [_ E]]; rewrite E; auto.
Qed.

(** Which of the two lookups a resolved user comes from. *)
Lemma dependency_source
    (credentials api_key : option string) (now : datetime) (db db' : Db) (u : User.t) :
  dependency credentials api_key now db = (Ok u, db') ->
  exists r,
    from_api_key api_key now db = (Ok r, db')
    /\ (from_token credentials db = (Ok (Some u), db)
        \/ (from_token credentials db = (Ok None, db) /\ r = Some u)).
Proof.
  unfold dependency, current_user_dependency.
  fold from_token. fold from_api_key. unfold bind at 1.
  pose proof (from_token_reads_only jwt_decode credentials db) as Hro.
  cbv zeta in Hro. fold from_token in Hro.
  destruct (from_token credentials db) as [[token_user|s d| |e] db1] eqn:Htok;
    try discriminate.
  simpl in Hro. subst db1. unfold bind.
  destruct (from_api_key api_key now db) as [[api_key_user|s d| |e] db2] eqn:Hkey;
    try discriminate.
  unfold get_current_user, py_or.
  destruct token_user as [tu|]; simpl.
  - unfold ret. intros H. inversion H; subst. exists api_key_user. auto.
  - destruct api_key_user as [ku|]; simpl; [|discriminate].
    unfold ret. intros H. inversion H; subst. exists (Some u). auto.
Qed.

(** X1. Whoever the dependency of the protected routes resolves to is a row
    of [users] that is active; resolving writes neither to [users] nor to
    [comics]. *)
Theorem dependency_resolves_to_active_stored_user
    (credentials api_key : option string) (now : datetime) (db db' : Db) (u : User.t) :
  db_wf db ->
  dependency credentials api_key now db = (Ok u, db') ->
  In u (users db) /\ User.is_active u = true
  /\ users db' = users db /\ comics db' = comics db.
Proof.
  intros Hwf Hdep.
  destruct (dependency_source _ _ _ _ _ _ Hdep) as [r [Hkey Hsrc]].
  pose proof (from_api_key_frame api_key now db Hwf) as Hframe.
  rewrite Hkey in Hframe. simpl in Hframe.
  destruct Hsrc as [Htok | [_ ->]].
  - destruct (from_token_some _ _ _ _ Htok) as [Hin [Hact _]]. tauto.
  - destruct (from_api_key_some _ _ _ _ _ Hwf Hkey) as [Hin [Hact _]]. tauto.
Qed.

(** X2. A lookup by API key writes nothing but [last_used_at]: [users] and
    [comics] stay, and each row of [api_keys] is as it was or is the row the
    header hashes to, active and not expired, with [last_used_at] set to the
    time of the request. *)
Theorem api_key_lookup_writes_last_used_at_only
    (api_key : option string) (now : datetime) (db : Db) :
  db_wf db ->
  let db' := snd (from_api_key api_key now db) in
  users db' = users db /\ comics db' = comics db
  /\ Forall2
       (fun k k' =>
          k' = k
          \/ (k' = ApiKey.set_last_used_at (Some now) k
              /\ Some (ApiKey.key_hash k) = option_map (hash_api_key sha256_hexdigest) api_key
              /\ ApiKey.is_active k = true
              /\ forall e, ApiKey.expires_at k = Some e -> now <= e))
       (api_keys db) (api_keys db').
Proof.
  intros Hwf db'. subst db'.
  assert (Hsame : forall l : list ApiKey.t,
             Forall2
               (fun k k' =>
                  k' = k
                  \/ (k' = ApiKey.set_last_used_at (Some now) k
                      /\ Some (ApiKey.key_hash k)
                         = option_map (hash_api_key sha256_hexdigest) api_key
                      /\ ApiKey.is_active k = true
                      /\ forall e, ApiKey.expires_at k = Some e -> now <= e))
               l l).
  { induction l; constructor; auto. }
  destruct (from_api_key_cases api_key now db Hwf)
    as [E | [k [Hk [_ [Hhash [Hact [Hexp Hcase]]]]]]].
  - rewrite E. simpl. auto.
  - cbv zeta in Hcase.
    assert (Hrows :
              Forall2
                (fun k0 k' =>
                   k' = k0
                   \/ (k' = ApiKey.set_last_used_at (Some now) k0
                       /\ Some (ApiKey.key_hash k0)
                          = option_map (hash_api_key sha256_hexdigest) api_key
                       /\ ApiKey.is_active k0 = true
                       /\ forall e, ApiKey.expires_at k0 = Some e -> now <= e))
                (api_keys db)
                (replaced (ApiKey.set_last_used_at (Some now) k) (api_keys db))).
    { pose proof (wf_key_id db Hwf) as Hnd.
      assert (Hsub : forall l, (forall x, In x l -> In x (api_keys db)) ->
                 Forall2
                   (fun k0 k' =>
                      k' = k0
                      \/ (k' = ApiKey.set_last_used_at (Some now) k0
                          /\ Some (ApiKey.key_hash k0)
                             = option_map (hash_api_key sha256_hexdigest) api_key
                          /\ ApiKey.is_active k0 = true
                          /\ forall e, ApiKey.expires_at k0 = Some e -> now <= e))
                   l (replaced (ApiKey.set_last_used_at (Some now) k) l)).
      { induction l as [|a l IH]; intros Hl; simpl; constructor.
        - destruct (String.eqb_spec (ApiKey.id a) (ApiKey.id k)) as [Eid|_]; [|now left].
          right.
          assert (a = k) as ->.
          { apply (same_id_same_row (api_keys db)); auto. apply Hl. now left. }
          auto.
        - apply IH. intros x Hx. apply Hl. now right. }
      apply Hsub. auto. }
    destruct Hcase as [[u [_ [_ [_ E]]]] | [_ E]]; rewrite E; simpl; auto.
Qed.

(** With a live key the lookup comes down to loading the owner, on the
    store in which the use is recorded. *)
Lemma live_key_runs (api_key : string) (now : datetime) (db : Db) (k : ApiKey.t) :
  db_wf db ->
  api_key <> "" ->
  In k (api_keys db) ->
  ApiKey.key_hash k = hash_api_key sha256_hexdigest api_key ->
  ApiKey.is_active k = true ->
  (forall e, ApiKey.expires_at k = Some e -> now <= e) ->
  let db' :=
    set_api_keys (replaced (ApiKey.set_last_used_at (Some now) k) (api_keys db)) db in
  forall r,
    bind (select_users
            (fun u => String.eqb (User.id u) (ApiKey.user_id k)
                      && Bool.eqb (User.is_active u) true))
      scalar_one_or_none db' = (Ok r, db') ->
    from_api_key (Some api_key) now db = (Ok r, db').
Proof.
  intros Hwf Hne Hk Hhash Hact Hexp db' r Hr.
  unfold from_api_key, get_current_user_from_api_key. simpl.
  assert (Ht : truthy_str api_key = true).
  { unfold truthy_str. destruct (String.eqb_spec api_key ""); [contradiction | reflexivity]. }
  rewrite Ht. simpl. unfold bind at 1 2. unfold select_api_keys.
  pose proof (select_unique_key ApiKey.key_hash
                (fun x => Bool.eqb (ApiKey.is_active x) true)
                (api_keys db) k (wf_key_hash db Hwf) Hk) as E.
  cbv beta in E. rewrite Hhash, Hact in E. simpl in E. rewrite E. simpl.
  assert (Hlive : match ApiKey.expires_at k with
                  | Some expires_at => expires_at <? now
                  | None => false
                  end = false).
  { destruct (ApiKey.expires_at k) as [e|]; [|reflexivity].
    apply Z.ltb_ge. now apply Hexp. }
  rewrite Hlive. cbv zeta. unfold bind at 1. unfold update_api_key.
  fold (replaced (ApiKey.set_last_used_at (Some now) k) (api_keys db)).
  fold db'. exact Hr.
Qed.

(** X3. A header that hashes to an active key whose [expires_at] is not
    before the time of the request (the instant of expiry included) resolves
    to the owner when the owner is active, and to no user when not; in both
    cases the use is recorded in [last_used_at] of that row alone. *)
Theorem live_key_resolves_owner_and_records_use
    (api_key : string) (now : datetime) (db : Db) (k : ApiKey.t) :
  db_wf db ->
  api_key <> "" ->
  In k (api_keys db) ->
  ApiKey.key_hash k = hash_api_key sha256_hexdigest api_key ->
  ApiKey.is_active k = true ->
  (forall e, ApiKey.expires_at k = Some e -> now <= e) ->
  let db' :=
    set_api_keys (replaced (ApiKey.set_last_used_at (Some now) k) (api_keys db)) db in
  (forall u, In u (users db) -> User.id u = ApiKey.user_id k ->
             User.is_active u = true ->
             from_api_key (Some api_key) now db = (Ok (Some u), db'))
  /\ ((forall u, In u (users db) -> User.id u = ApiKey.user_id k ->
                 User.is_active u = false) ->
      from_api_key (Some api_key) now db = (Ok None, db')).
Proof.
  intros Hwf Hne Hk Hhash Hact Hexp db'.
  pose proof (live_key_runs api_key now db k Hwf Hne Hk Hhash Hact Hexp) as Hrun.
  cbv zeta in Hrun. fold db' in Hrun.
  split.
  - intros u Hu Hid Hua. apply Hrun. unfold bind, select_users.
    pose proof (select_unique_key User.id (fun x => Bool.eqb (User.is_active x) true)
                  (users db) u (wf_user_id db Hwf) Hu) as E.
    cbv beta in E. rewrite Hid, Hua in E. simpl in E.
    change (users db') with (users db). rewrite E. reflexivity.
  - intros Hnone. apply Hrun. unfold bind, select_users.
    change (users db') with (users db).
    rewrite (select_none _ (users db)); [reflexivity|].
    intros u Hu. destruct (String.eqb_spec (User.id u) (ApiKey.user_id k)) as [Hid|_];
      [|reflexivity].
    rewrite (Hnone u Hu Hid). reflexivity.
Qed.

(** X4. The admin dependency, chained after the resolver: it returns only
    users that are administrators (and active rows of [users]); a resolved
    user who is no administrator is refused with 403, and a request that does
    not resolve keeps its own refusal, the 401 coming before the 403. *)
Theorem admin_dependency_admits_administrators_only
    (credentials api_key : option string) (now : datetime) (db : Db) :
  db_wf db ->
  let chain := bind (dependency credentials api_key now) get_current_admin in
  (forall u db', chain db = (Ok u, db') ->
                 User.is_admin u = true /\ User.is_active u = true /\ In u (users db))
  /\ (forall u db', dependency credentials api_key now db = (Ok u, db') ->
                    User.is_admin u = false ->
                    chain db = (HTTPException 403 "Admin access required", db'))
  /\ (forall db', dependency credentials api_key now db
                  = (HTTPException 401 "Not authenticated", db') ->
                  chain db = (HTTPException 401 "Not authenticated", db')).
Proof.
  intros Hwf chain. unfold chain, bind.
  split; [|split].
  - intros u db'.
    destruct (dependency credentials api_key now db) as [[u0|s d| |e] db0] eqn:Hdep;
      try discriminate.
    unfold get_current_admin.
    destruct (User.is_admin u0) eqn:Hadm; simpl; [|discriminate].
    unfold ret. intros H. inversion H; subst.
    destruct (dependency_source _ _ _ _ _ _ Hdep) as [r [Hkey [Htok | [_ ->]]]].
    + destruct (from_token_some _ _ _ _ Htok) as [Hin [Hact _]]. auto.
    + destruct (from_api_key_some _ _ _ _ _ Hwf Hkey) as [Hin [Hact _]]. auto.
  - intros u db' -> Hadm. unfold get_current_admin. rewrite Hadm. reflexivity.
  - intros db' ->. reflexivity.
Qed.

(** X28. An API key alone authenticates: when the request carries no bearer
    token, or one that resolves to no user, a header that hashes to an
    active, unexpired key of an active user resolves the request to that
    user, and the use of the key is recorded. *)
Theorem api_key_alone_authenticates
    (credentials : option string) (api_key : string) (now : datetime) (db : Db)
    (k : ApiKey.t) (u : User.t) :
  db_wf db ->
  fst (from_token credentials db) = Ok None ->
  api_key <> "" ->
  In k (api_keys db) ->
  ApiKey.key_hash k = hash_api_key sha256_hexdigest api_key ->
  ApiKey.is_active k = true ->
  (forall e, ApiKey.expires_at k = Some e -> now <= e) ->
  In u (users db) -> User.id u = ApiKey.user_id k -> User.is_active u = true ->
  dependency credentials (Some api_key) now db
  = (Ok u,
     set_api_keys (replaced (ApiKey.set_last_used_at (Some now) k) (api_keys db)) db)
  /\ dependency None (Some api_key) now db
     = (Ok u,
        set_api_keys (replaced (ApiKey.set_last_used_at (Some now) k) (api_keys db)) db).
Proof.
  intros Hwf Htok Hne Hk Hhash Hact Hexp Hu Hid Hua.
  assert (Hkey : from_api_key (Some api_key) now db
                 = (Ok (Some u),
                    set_api_keys
                      (replaced (ApiKey.set_last_used_at (Some now) k) (api_keys db)) db)).
  { apply (live_key_runs api_key now db k Hwf Hne Hk Hhash Hact Hexp).
    unfold bind, select_users.
    pose proof (select_unique_key User.id (fun x => Bool.eqb (User.is_active x) true)
                  (users db) u (wf_user_id db Hwf) Hu) as E.
    cbv beta in E. rewrite Hid, Hua in E. simpl in E. simpl. rewrite E. reflexivity. }
  assert (Hrun : forall c, fst (from_token c db) = Ok None ->
             dependency c (Some api_key) now db
             = (Ok u,
                set_api_keys
                  (replaced (ApiKey.set_last_used_at (Some now) k) (api_keys db)) db)).
  { intros c Hc.
    pose proof (from_token_reads_only jwt_decode c db) as Hro.
    cbv zeta in Hro. fold from_token in Hro.
    unfold dependency, current_user_dependency. fold from_token. fold from_api_key.
    unfold bind at 1.
    destruct (from_token c db) as [o db1]. simpl in Hc, Hro. subst o db1.
    unfold bind. rewrite Hkey. reflexivity. }
  split; [now apply Hrun | now apply Hrun].
Qed.

(** X29. A deactivated user is locked out: a bearer token whose subject is
    the user, together with any API-key header that is no key of somebody
    else, is refused with 401, "Not authenticated"; [users] and [comics] are
    not written. *)
Theorem deactivated_user_is_locked_out
    (token : string) (api_key : option string) (now : datetime) (db : Db)
    (u : User.t) (p : payload) :
  db_wf db ->
  In u (users db) ->
  User.is_active u = false ->
  jwt_decode token = Some p ->
  payload_get "sub" p = Some (JString (User.id u)) ->
  (forall k, In k (api_keys db) ->
             Some (ApiKey.key_hash k) = option_map (hash_api_key sha256_hexdigest) api_key ->
             ApiKey.user_id k = User.id u) ->
  exists db',
    dependency (Some token) api_key now db = (HTTPException 401 "Not authenticated", db')
    /\ users db' = users db /\ comics db' = comics db.
Proof.
  intros Hwf Hu Hoff Hdec Hsub Hown.
  assert (Htok : from_token (Some token) db = (Ok None, db)).
  { unfold from_token, get_current_user_from_token, decode_access_token.
    rewrite Hdec.
    destruct (truthy_payload p); simpl; [|reflexivity].
    rewrite Hsub.
    destruct (truthy_jvalue (JString (User.id u))); simpl; [|reflexivity].
    unfold bind, select_users.
    pose proof (select_unique_key User.id (fun x => Bool.eqb (User.is_active x) true)
                  (users db) u (wf_user_id db Hwf) Hu) as E.
    cbv beta in E. rewrite Hoff in E. simpl in E. rewrite E. reflexivity. }
  assert (Hkey : exists db', from_api_key api_key now db = (Ok None, db')
                             /\ users db' = users db /\ comics db' = comics db).
  { destruct (from_api_key_cases api_key now db Hwf)
      as [E | [k [Hk [_ [Hhash [_ [_ Hcase]]]]]]].
    - exists db. auto.
    - cbv zeta in Hcase. destruct Hcase as [[u' [Hu' [Hid [Hact E]]]] | [_ E]].
      + exfalso. rewrite (Hown k Hk Hhash) in Hid.
        assert (u' = u).
        { pose proof (select_unique_key User.id (fun _ => true) (users db) u
                        (wf_user_id db Hwf) Hu) as E1.
          pose proof (select_unique_key User.id (fun _ => true) (users db) u'
                        (wf_user_id db Hwf) Hu') as E2.
          cbv beta in E1, E2. rewrite Hid, E1 in E2. now injection E2. }
        subst u'. congruence.
      + eexists. split; [exact E|]. auto. }
  destruct Hkey as [db' [Hkey Hframe]].
  exists db'. split; [|exact Hframe].
  unfold dependency, current_user_dependency. fold from_token. fold from_api_key.
  unfold bind at 1. rewrite Htok. unfold bind. rewrite Hkey. reflexivity.
Qed.

End ResolverFacts.

(** ** Minting a token *)

Lemma claims_get_update_same (key : string) (v : claim) (d : claims) :
  claims_get key (dict_update key v d) = Some v.
Proof.
  induction d as [|[k x] d IH]; simpl.
  - now rewrite String.eqb_refl.
  - destruct (String.eqb k key) eqn:E; simpl; rewrite E; [reflexivity | exact IH].
Qed.

Lemma claims_get_update_other (key key' : string) (v : claim) (d : claims) :
  key' <> key -> claims_get key' (dict_update key v d) = claims_get key' d.
Proof.
  intros Hne. induction d as [|[k x] d IH]; simpl.
  - destruct (String.eqb_spec key key'); [congruence | reflexivity].
  - destruct (String.eqb_spec k key) as [->|Hk]; simpl.
    + destruct (String.eqb_spec key key'); [congruence | reflexivity].
    + now rewrite IH.
Qed.

Lemma dict_update_keys (key : string) (v : claim) (d : claims) :
  claims_get key d <> None -> map fst (dict_update key v d) = map fst d.
Proof.
  induction d as [|[k x] d IH]; simpl; intros Hin; [congruence|].
  destruct (String.eqb k key); simpl; [reflexivity|].
  now rewrite IH.
Qed.

Section TokenFacts.

Variable jwt_encode : claims -> string.

(** X5. The claims [create_access_token] signs are those of [data] with
    [exp] set: to the clock plus [expires_delta] when one is given and is not
    zero, to the clock plus seven days when none is given or it is zero; an
    [exp] that [data] carries is overwritten in place, and no other claim is
    added, dropped or changed. *)
Theorem access_token_claims (data : claims) (expires_delta : option timedelta)
    (now : datetime) :
  exists to_encode,
    create_access_token jwt_encode data expires_delta now = jwt_encode to_encode
    /\ (forall d, expires_delta = Some d -> d <> 0 ->
                  claims_get "exp" to_encode = Some (CDatetime (now + d)))
    /\ (expires_delta = None \/ expires_delta = Some 0 ->
        claims_get "exp" to_encode
        = Some (CDatetime (now + 7 * 24 * 60 * 60 * 1000000)))
    /\ (forall key, key <> "exp" -> claims_get key to_encode = claims_get key data)
    /\ (claims_get "exp" data <> None -> map fst to_encode = map fst data)
    /\ (claims_get "exp" data = None -> map fst to_encode = map fst data ++ ["exp"]).
Proof.
  unfold create_access_token. cbv zeta.
  eexists. split; [reflexivity|].
  split; [|split; [|split; [|split]]].
  - intros d -> Hd. rewrite claims_get_update_same.
    unfold truthy_timedelta. destruct (Z.eqb_spec d 0); [contradiction | reflexivity].
  - intros [-> | ->]; rewrite claims_get_update_same; reflexivity.
  - intros key Hkey. now apply claims_get_update_other.
  - apply dict_update_keys.
  - intros Hnone. induction data as [|[k x] data IH]; simpl; [reflexivity|].
    simpl in Hnone. destruct (String.eqb k "exp"); [discriminate Hnone|].
    simpl. f_equal. exact (IH Hnone).
Qed.

End TokenFacts.

(** ** Logging in *)

Section LoginFacts.

Variable jwt_encode : claims -> string.
Variable verify_password : string -> string -> bool.

Let sign_in := login jwt_encode verify_password.
Let token_of := minted jwt_encode.

Lemma login_accepts (payload : UserLogin.t) (now : datetime) (db : Db) (u : User.t) :
  filter (fun x => String.eqb (User.username x) (UserLogin.username payload)
                   && Bool.eqb (User.is_active x) true) (users db) = [u] ->
  verify_password (UserLogin.password payload) (User.hashed_password u) = true ->
  sign_in payload now db = (Ok (token_of u now), db).
Proof.
  intros Hsel Hpw. unfold sign_in, login, bind, select_users.
  rewrite Hsel. simpl. rewrite Hpw. reflexivity.
Qed.



Section RoundTrips.

Variable hash_password : string -> string.
Variable jwt_decode : string -> option payload.

Lemma register_inv (p : UserRegister.t) (new_id : uuid) (now : datetime) (db db' : Db)
    (u : User.t) :
  register hash_password p new_id now db = (Ok u, db') ->
  u = User.mk new_id (UserRegister.username p) (UserRegister.email p)
        (hash_password (UserRegister.password p)) true false now now
  /\ db' = set_users (users db ++ [u]) db
  /\ (forall x, In x (users db) ->
                User.id x <> new_id
                /\ User.username x <> UserRegister.username p
                /\ User.email x <> UserRegister.email p).
Proof.
  unfold register, bind, select_users.
  destruct (filter _ (users db)) as [|x [|y r]] eqn:Hsel; simpl;
    [| destruct (String.eqb _ _); discriminate | discriminate].
  unfold insert_user. simpl.
  destruct (existsb _ (users db)) eqn:Hdup; [discriminate|].
  unfold ret. intros H. inversion H; subst. clear H.
  split; [reflexivity|]. split; [reflexivity|].
  intros x Hx.
  assert (Hx' : (String.eqb (User.id x) new_id
                 || String.eqb (User.username x) (UserRegister.username p)
                 || String.eqb (User.email x) (UserRegister.email p)) = false).
  { destruct (_ || _ || _) eqn:E; [|reflexivity].
    rewrite <- Hdup. symmetry. apply existsb_exists. exists x. split; [exact Hx | exact E]. }
  apply orb_false_iff in Hx'. destruct Hx' as [Hx' Hmail].
  apply orb_false_iff in Hx'. destruct Hx' as [Hid Hname].
  rewrite String.eqb_neq in Hid, Hname, Hmail. auto.
Qed.

(** X7. A user who has just registered can log in with the same name and
    password, provided the password library verifies a password against its
    own hash; the token is for the new user, who is no administrator. *)
Theorem registered_user_can_log_in
    (p : UserRegister.t) (new_id : uuid) (now now' : datetime) (db db' : Db) (u : User.t) :
  register hash_password p new_id now db = (Ok u, db') ->
  verify_password (UserRegister.password p) (hash_password (UserRegister.password p))
  = true ->
  sign_in (UserLogin.mk (UserRegister.username p) (UserRegister.password p)) now' db'
  = (Ok (token_of u now'), db')
  /\ UserOut.is_admin (Token.user (token_of u now')) = false
  /\ UserOut.username (Token.user (token_of u now')) = UserRegister.username p.
Proof.
  intros Hreg Hpw.
  destruct (register_inv _ _ _ _ _ _ Hreg) as [Hu [Hdb Hfresh]].
  split; [|subst u; split; reflexivity].
  apply login_accepts.
  - rewrite Hdb. simpl. rewrite filter_app.
    rewrite (select_none _ (users db)).
    + simpl. rewrite Hu. simpl. now rewrite String.eqb_refl.
    + intros x Hx. destruct (Hfresh x Hx) as [_ [Hname _]].
      apply String.eqb_neq in Hname. simpl. now rewrite Hname.
  - rewrite Hu. exact Hpw.
Qed.

(** X8. The token of a successful login resolves back to the user who
    logged in, provided the token library decodes what it encoded: the
    subject as text and the expiry as whole seconds. *)
Theorem login_token_resolves_to_its_user
    (payload : UserLogin.t) (now : datetime) (db : Db) (u : User.t) :
  db_wf db ->
  In u (users db) ->
  User.id u <> "" ->
  User.username u = UserLogin.username payload ->
  User.is_active u = true ->
  verify_password (UserLogin.password payload) (User.hashed_password u) = true ->
  (let exp := now + timedelta_of_minutes ACCESS_TOKEN_EXPIRE_MINUTES in
   jwt_decode (jwt_encode [("sub", CString (User.id u)); ("exp", CDatetime exp)])
   = Some [("sub", JString (User.id u)); ("exp", JNumber (exp / 1000000))]) ->
  exists token,
    sign_in payload now db = (Ok token, db)
    /\ Token.token_type token = "bearer"
    /\ Token.user token = UserOut.model_validate u
    /\ get_current_user_from_token jwt_decode (Some (Token.access_token token)) db
       = (Ok (Some u), db).
Proof.
  intros Hwf Hu Hid Hname Hact Hpw Hdec. cbv zeta in Hdec.
  exists (token_of u now).
  split; [|split; [reflexivity | split; [reflexivity|]]].
  - apply login_accepts; [|exact Hpw].
    pose proof (select_unique_key User.username (fun x => Bool.eqb (User.is_active x) true)
                  (users db) u (wf_username db Hwf) Hu) as E.
    cbv beta in E. rewrite Hname, Hact in E. exact E.
  - apply (from_token_resolves jwt_decode _ (User.id u) _ u db (wf_user_id db Hwf) Hdec);
      auto.
Qed.

End RoundTrips.


End LoginFacts.


(** ** Creating, revoking and listing keys *)

Lemma db_wf_set_api_keys (l : list ApiKey.t) (db : Db) :
  db_wf db ->
  NoDup (map ApiKey.id l) -> NoDup (map ApiKey.key_hash l) ->
  db_wf (set_api_keys l db).
Proof. intros [Hid Hname Hmail _ _ Hcid] Hk Hh. now split. Qed.

Lemma NoDup_map_snoc {A : Type} (f : A -> string) (l : list A) (a : A) :
  NoDup (map f l) -> (forall x, In x l -> f x <> f a) -> NoDup (map f (l ++ [a])).
Proof.
  intros Hnd Hfresh. rewrite map_app. simpl.
  apply (Permutation_NoDup (Permutation_cons_append _ _)).
  constructor; [|exact Hnd].
  intros Hin. apply in_map_iff in Hin. destruct Hin as [x [Heq Hx]].
  exact (Hfresh x Hx Heq).
Qed.

Lemma replaced_in (k' y : ApiKey.t) (l : list ApiKey.t) :
  In y (replaced k' l) -> y = k' \/ (In y l /\ ApiKey.id y <> ApiKey.id k').
Proof.
  unfold replaced. intros Hin. apply in_map_iff in Hin. destruct Hin as [x [Heq Hx]].
  destruct (String.eqb_spec (ApiKey.id x) (ApiKey.id k')); subst; auto.
Qed.

Lemma replaced_row_in (k k' : ApiKey.t) (l : list ApiKey.t) :
  In k l -> ApiKey.id k' = ApiKey.id k -> In k' (replaced k' l).
Proof.
  intros Hk Hid. unfold replaced. apply in_map_iff. exists k.
  split; [|exact Hk]. now rewrite Hid, String.eqb_refl.
Qed.

Lemma replaced_hashes (k k' : ApiKey.t) (l : list ApiKey.t) :
  NoDup (map ApiKey.id l) -> In k l ->
  ApiKey.id k' = ApiKey.id k -> ApiKey.key_hash k' = ApiKey.key_hash k ->
  map ApiKey.key_hash (replaced k' l) = map ApiKey.key_hash l.
Proof.
  intros Hnd Hk Hid Hhash. unfold replaced. rewrite map_map.
  apply map_ext_in. intros x Hx.
  destruct (String.eqb_spec (ApiKey.id x) (ApiKey.id k')) as [E|_]; [|reflexivity].
  rewrite Hhash. f_equal. symmetry.
  apply (same_id_same_row l); auto. congruence.
Qed.

Lemma replaced_twice (k' : ApiKey.t) (l : list ApiKey.t) :
  replaced k' (replaced k' l) = replaced k' l.
Proof.
  unfold replaced. rewrite map_map. apply map_ext. intros x.
  destruct (String.eqb_spec (ApiKey.id x) (ApiKey.id k')) as [E|E].
  - now rewrite String.eqb_refl.
  - apply String.eqb_neq in E. now rewrite E.
Qed.

(** The UPDATE of the row of [k], written on the primary key alone. *)
Lemma replaced_pointwise (f : ApiKey.t -> ApiKey.t) (k : ApiKey.t) (l : list ApiKey.t) :
  NoDup (map ApiKey.id l) -> In k l ->
  (forall x, ApiKey.id (f x) = ApiKey.id x) ->
  replaced (f k) l
  = map (fun x => if String.eqb (ApiKey.id x) (ApiKey.id k) then f x else x) l.
Proof.
  intros Hnd Hk Hf. unfold replaced. apply map_ext_in. intros x Hx. rewrite Hf.
  destruct (String.eqb_spec (ApiKey.id x) (ApiKey.id k)) as [E|_]; [|reflexivity].
  f_equal. symmetry. now apply (same_id_same_row l).
Qed.

Lemma db_wf_replaced (k k' : ApiKey.t) (db : Db) :
  db_wf db -> In k (api_keys db) ->
  ApiKey.id k' = ApiKey.id k -> ApiKey.key_hash k' = ApiKey.key_hash k ->
  db_wf (set_api_keys (replaced k' (api_keys db)) db).
Proof.
  intros Hwf Hk Hid Hhash. apply db_wf_set_api_keys; [exact Hwf| |].
  - rewrite replaced_ids. exact (wf_key_id db Hwf).
  - rewrite (replaced_hashes k); auto; [exact (wf_key_hash db Hwf) | exact (wf_key_id db Hwf)].
Qed.

Lemma length_substring_0 (n : nat) (s : string) :
  (n <= String.length s)%nat -> String.length (substring 0 n s) = n.
Proof.
  revert s. induction n as [|n IH]; intros s Hn.
  - now destruct s.
  - destruct s as [|c s]; simpl in *; [lia|]. rewrite IH; [reflexivity | lia].
Qed.

Section KeyFacts.

Variable sha256_hexdigest : string -> string.
Variable uuid_of_str : string -> option uuid.

Let from_api_key := get_current_user_from_api_key sha256_hexdigest.
Let create := create_api_key sha256_hexdigest.
Let revoke := revoke_api_key uuid_of_str.

(** The row [create_api_key] stores. *)
Let row (payload : ApiKeyCreate.t) (u : User.t) (random_part : string) (new_id : uuid)
    (now : datetime) : ApiKey.t :=
  ApiKey.mk new_id (User.id u) (ApiKeyCreate.name payload)
    (sha256_hexdigest ("mng_" ++ random_part)) (substring 0 10 ("mng_" ++ random_part))
    true None now (ApiKeyCreate.expires_at payload).

Lemma create_api_key_inv (payload : ApiKeyCreate.t) (u : User.t) (random_part : string)
    (new_id : uuid) (now : datetime) (db db' : Db) (created : ApiKeyCreated.t) :
  create payload u random_part new_id now db = (Ok created, db') ->
  db' = set_api_keys (api_keys db ++ [row payload u random_part new_id now]) db
  /\ created
     = ApiKeyCreated.mk new_id (ApiKeyCreate.name payload)
         (substring 0 10 ("mng_" ++ random_part)) true None now
         (ApiKeyCreate.expires_at payload) ("mng_" ++ random_part)
  /\ (forall x, In x (api_keys db) ->
                ApiKey.id x <> new_id
                /\ ApiKey.key_hash x <> sha256_hexdigest ("mng_" ++ random_part))
  /\ (List.length (active_keys (User.id u) db) < 10)%nat.
Proof.
  unfold create, create_api_key. unfold bind at 1. unfold select_api_keys.
  fold (owns_active (User.id u)). fold (active_keys (User.id u) db).
  destruct (Nat.leb 10 (List.length (active_keys (User.id u) db))) eqn:Hfull;
    [discriminate|].
  apply Nat.leb_gt in Hfull. cbv zeta. unfold bind, insert_api_key.
  destruct (negb (fits_key _)); [discriminate|].
  destruct (existsb _ (api_keys db)) eqn:Hdup; [discriminate|].
  unfold ret. intros H. inversion H; subst. clear H.
  split; [reflexivity|]. split; [reflexivity|]. split; [|exact Hfull].
  intros x Hx.
  assert (Hx' : (String.eqb (ApiKey.id x) new_id
                 || String.eqb (ApiKey.key_hash x)
                      (sha256_hexdigest ("mng_" ++ random_part))) = false).
  { destruct (_ || _) eqn:E; [|reflexivity].
    rewrite <- Hdup. symmetry. apply existsb_exists. exists x. split; [exact Hx | exact E]. }
  apply orb_false_iff in Hx'. destruct Hx' as [Hid Hhash].
  rewrite String.eqb_neq in Hid, Hhash. auto.
Qed.

(** X10. A key that has just been created authenticates its creator: sent
    as the header of a later request, the full key of the response resolves
    to the user who created it, as long as that user is an active row and the
    key has not expired by then. *)
Theorem created_key_authenticates_its_creator
    (payload : ApiKeyCreate.t) (u : User.t) (random_part : string) (new_id : uuid)
    (now now' : datetime) (db db' : Db) (created : ApiKeyCreated.t) :
  db_wf db ->
  In u (users db) ->
  User.is_active u = true ->
  create payload u random_part new_id now db = (Ok created, db') ->
  (forall e, ApiKeyCreate.expires_at payload = Some e -> now' <= e) ->
  exists db'',
    from_api_key (Some (ApiKeyCreated.full_key created)) now' db' = (Ok (Some u), db'')
    /\ users db'' = users db /\ comics db'' = comics db.
Proof.
  intros Hwf Hu Hact Hcreate Hexp.
  destruct (create_api_key_inv _ _ _ _ _ _ _ _ Hcreate) as [Hdb [Hcreated [Hfresh _]]].
  set (k := row payload u random_part new_id now) in *.
  assert (Hwf' : db_wf db').
  { rewrite Hdb. apply db_wf_set_api_keys; [exact Hwf| |].
    - apply NoDup_map_snoc; [exact (wf_key_id db Hwf)|].
      intros x Hx. now destruct (Hfresh x Hx).
    - apply NoDup_map_snoc; [exact (wf_key_hash db Hwf)|].
      intros x Hx. now destruct (Hfresh x Hx). }
  assert (Hk : In k (api_keys db')).
  { rewrite Hdb. simpl. apply in_or_app. right. now left. }
  eexists. split.
  - rewrite Hcreated. simpl.
    apply (live_key_runs sha256_hexdigest ("mng_" ++ random_part) now' db' k Hwf');
      [discriminate | exact Hk | reflexivity | reflexivity | exact Hexp |].
    cbv zeta. unfold bind, select_users. simpl.
    assert (Husers : users db' = users db) by (now rewrite Hdb).
    rewrite Husers.
    pose proof (select_unique_key User.id (fun x => Bool.eqb (User.is_active x) true)
                  (users db) u (wf_user_id db Hwf) Hu) as E.
    cbv beta in E. rewrite Hact in E. simpl in E. rewrite E. reflexivity.
  - rewrite Hdb. auto.
Qed.

(** X11. A key that has been revoked no longer authenticates: after
    [revoke_api_key] has answered for the key, named by a text the driver
    reads as its id, a header that hashes to its [key_hash] resolves to no
    user, and the lookup writes nothing. *)
Theorem revoked_key_no_longer_authenticates
    (key_id : string) (u : User.t) (api_key : option string) (now : datetime)
    (db db' : Db) (k : ApiKey.t) :
  db_wf db ->
  In k (api_keys db) ->
  uuid_of_str key_id = Some (ApiKey.id k) ->
  Some (ApiKey.key_hash k) = option_map (hash_api_key sha256_hexdigest) api_key ->
  revoke key_id u db = (Ok tt, db') ->
  from_api_key api_key now db' = (Ok None, db').
Proof.
  intros Hwf Hk Hid Hhash Hrevoke.
  unfold revoke in Hrevoke. rewrite revoke_api_key_unfold, Hid in Hrevoke.
  destruct (filter _ (api_keys db)) as [|x [|y r]] eqn:Hsel; simpl in Hrevoke;
    try discriminate.
  destruct (selected_row _ _ _ _ Hsel) as [Hx Hp].
  apply andb_true_iff in Hp. destruct Hp as [Hxid _]. apply String.eqb_eq in Hxid.
  assert (x = k) as -> by (apply (same_id_same_row (api_keys db)); auto;
                           exact (wf_key_id db Hwf)).
  unfold update_api_key in Hrevoke. inversion Hrevoke as [Hdb]. clear Hrevoke.
  fold (replaced (ApiKey.set_is_active false k) (api_keys db)).
  set (db1 := set_api_keys (replaced (ApiKey.set_is_active false k) (api_keys db)) db).
  unfold from_api_key, get_current_user_from_api_key.
  destruct api_key as [s|]; [|discriminate Hhash]. simpl.
  destruct (truthy_str s); simpl; [|reflexivity].
  unfold bind, select_api_keys.
  rewrite (select_none _ (api_keys db1)); [reflexivity|].
  intros y Hy. simpl in Hy. simpl in Hhash. injection Hhash as Hhash.
  destruct (replaced_in _ _ _ Hy) as [-> | [Hyl Hyid]]; simpl.
  - apply andb_false_r.
  - destruct (String.eqb_spec (ApiKey.key_hash y) (hash_api_key sha256_hexdigest s))
      as [E|_]; [|reflexivity].
    exfalso. apply Hyid. simpl. f_equal.
    apply (same_id_same_row (api_keys db)); auto; [exact (wf_key_id db Hwf)|].
    assert (Hsame : y = k); [|now rewrite Hsame].
    pose proof (select_unique_key ApiKey.key_hash (fun _ => true) (api_keys db) k
                  (wf_key_hash db Hwf) Hk) as E1.
    pose proof (select_unique_key ApiKey.key_hash (fun _ => true) (api_keys db) y
                  (wf_key_hash db Hwf) Hyl) as E2.
    cbv beta in E1, E2. rewrite E, <- Hhash in E2. rewrite E1 in E2.
    now injection E2.
Qed.

(** X12. Nobody revokes a key of another user.  The path parameter is a
    text.  When the driver reads it as an id and no key with that id belongs
    to the caller, administrator or not, the answer is 404, as for an id
    that names no key, and nothing is written.  When the driver does not
    read it as a UUID the statement is refused, unhandled, and nothing is
    written either. *)
Theorem revoke_refuses_a_key_of_another_user (key_id : string) (u : User.t) (db : Db) :
  (forall id,
      uuid_of_str key_id = Some id ->
      (forall k, In k (api_keys db) -> ApiKey.id k = id -> ApiKey.user_id k <> User.id u) ->
      revoke key_id u db = (HTTPException 404 "API key not found", db))
  /\ (uuid_of_str key_id = None -> revoke key_id u db = (Unhandled DBAPIError, db)).
Proof.
  unfold revoke. rewrite revoke_api_key_unfold. split.
  - intros id Hread Hforeign. rewrite Hread.
    rewrite (select_none _ (api_keys db)); [reflexivity|].
    intros k Hk. destruct (String.eqb_spec (ApiKey.id k) id) as [Hid|_]; [|reflexivity].
    pose proof (Hforeign k Hk Hid) as Hne.
    apply String.eqb_neq in Hne. now rewrite Hne.
  - now intros ->.
Qed.

(** X13. A revocation that is answered changes one thing: [is_active] of the
    row with the id the text is read as, a key of the caller, becomes false;
    the row stays in the table, no other row and no other table changes, and
    revoking again is answered again and changes nothing. *)
Theorem revoke_deactivates_one_row_and_is_idempotent
    (key_id : string) (u : User.t) (db db' : Db) :
  NoDup (map ApiKey.id (api_keys db)) ->
  revoke key_id u db = (Ok tt, db') ->
  exists id,
    uuid_of_str key_id = Some id
    /\ (exists k, In k (api_keys db) /\ ApiKey.id k = id /\ ApiKey.user_id k = User.id u)
    /\ api_keys db'
       = map (fun x => if String.eqb (ApiKey.id x) id
                       then ApiKey.set_is_active false x else x) (api_keys db)
    /\ users db' = users db /\ comics db' = comics db
    /\ revoke key_id u db' = (Ok tt, db').
Proof.
  intros Hnd Hrevoke.
  unfold revoke in *. rewrite revoke_api_key_unfold in Hrevoke.
  destruct (uuid_of_str key_id) as [id|] eqn:Hread; [|discriminate Hrevoke].
  exists id. split; [reflexivity|].
  destruct (filter _ (api_keys db)) as [|k [|y r]] eqn:Hsel; simpl in Hrevoke;
    try discriminate.
  destruct (selected_row _ _ _ _ Hsel) as [Hk Hp].
  apply andb_true_iff in Hp. destruct Hp as [Hid Huser].
  apply String.eqb_eq in Hid, Huser.
  unfold update_api_key in Hrevoke. inversion Hrevoke as [Hdb]. clear Hrevoke Hdb.
  set (k' := ApiKey.set_is_active false k).
  change (map (fun x => if String.eqb (ApiKey.id x) (ApiKey.id k) then k' else x)
            (api_keys db))
    with (replaced k' (api_keys db)).
  split; [now exists k|].
  split.
  { simpl. unfold k'. rewrite (replaced_pointwise (ApiKey.set_is_active false) k); auto.
    now rewrite Hid. }
  split; [reflexivity|]. split; [reflexivity|].
  rewrite revoke_api_key_unfold, Hread. simpl.
  assert (Hsel' : filter (fun x => String.eqb (ApiKey.id x) id
                                   && String.eqb (ApiKey.user_id x) (User.id u))
                    (replaced k' (api_keys db)) = [k']).
  { pose proof (select_unique_key ApiKey.id
                  (fun x => String.eqb (ApiKey.user_id x) (User.id u))
                  (replaced k' (api_keys db)) k') as E.
    cbv beta in E. simpl in E. rewrite Hid, Huser, String.eqb_refl in E.
    apply E.
    - now rewrite replaced_ids.
    - now apply (replaced_row_in k). }
  rewrite Hsel'. simpl. unfold update_api_key. simpl.
  f_equal. unfold set_api_keys. simpl. f_equal.
  exact (replaced_twice k' (api_keys db)).
Qed.

(** X15. What a created key looks like: the full key of the response is the
    prefix [mng_] and the 48 drawn characters, 52 in all; the stored row holds
    its SHA-256 digest and, as [key_prefix], its first ten characters, [mng_]
    and six of the drawn ones; the row is appended, active, never used, owned
    by the caller, and no other row changes. *)
Theorem created_key_shape
    (payload : ApiKeyCreate.t) (u : User.t) (random_part : string) (new_id : uuid)
    (now : datetime) (db db' : Db) (created : ApiKeyCreated.t) :
  String.length random_part = 48%nat ->
  create payload u random_part new_id now db = (Ok created, db') ->
  ApiKeyCreated.full_key created = ("mng_" ++ random_part)%string
  /\ String.length (ApiKeyCreated.full_key created) = 52%nat
  /\ ApiKeyCreated.key_prefix created = ("mng_" ++ substring 0 6 random_part)%string
  /\ String.length (ApiKeyCreated.key_prefix created) = 10%nat
  /\ ApiKeyCreated.id created = new_id
  /\ exists k,
       api_keys db' = api_keys db ++ [k]
       /\ ApiKey.id k = new_id
       /\ ApiKey.user_id k = User.id u
       /\ ApiKey.name k = ApiKeyCreate.name payload
       /\ ApiKey.key_hash k = sha256_hexdigest (ApiKeyCreated.full_key created)
       /\ ApiKey.key_prefix k = ApiKeyCreated.key_prefix created
       /\ ApiKey.is_active k = true
       /\ ApiKey.last_used_at k = None
       /\ ApiKey.created_at k = now
       /\ ApiKey.expires_at k = ApiKeyCreate.expires_at payload.
Proof.
  intros Hlen Hcreate.
  destruct (create_api_key_inv _ _ _ _ _ _ _ _ Hcreate) as [Hdb [Hcreated _]].
  rewrite Hcreated, Hdb. simpl.
  split; [reflexivity|].
  split; [now rewrite Hlen|].
  split; [reflexivity|].
  split; [rewrite length_substring_0; [reflexivity | lia]|].
  split; [reflexivity|].
  eexists. split; [reflexivity|]. repeat split.
Qed.

End KeyFacts.

(** *** The list of keys *)

Lemma insert_key_perm (leb : ApiKey.t -> ApiKey.t -> bool) (x : ApiKey.t)
    (l : list ApiKey.t) :
  Permutation (insert_key leb x l) (x :: l).
Proof.
  induction l as [|y l IH]; simpl; [reflexivity|].
  destruct (leb x y); [reflexivity|].
  rewrite IH. apply perm_swap.
Qed.

Lemma sort_keys_perm (leb : ApiKey.t -> ApiKey.t -> bool) (l : list ApiKey.t) :
  Permutation (sort_keys leb l) l.
Proof.
  induction l as [|x l IH]; simpl; [reflexivity|].
  unfold sort_keys in *. simpl. rewrite insert_key_perm. now constructor.
Qed.

Lemma insert_key_sorted (leb : ApiKey.t -> ApiKey.t -> bool) (x : ApiKey.t)
    (l : list ApiKey.t) :
  (forall a b, leb a b = false -> leb b a = true) ->
  Sorted (fun a b => leb a b = true) l ->
  Sorted (fun a b => leb a b = true) (insert_key leb x l).
Proof.
  intros Htotal Hs. induction Hs as [|y l Hs IH Hhd]; simpl.
  - repeat constructor.
  - destruct (leb x y) eqn:Hxy.
    + repeat constructor; assumption.
    + constructor; [exact IH|].
      destruct l as [|z l]; simpl.
      * constructor. now apply Htotal.
      * destruct (leb x z); constructor; [now apply Htotal | now inversion Hhd].
Qed.

Lemma sort_keys_sorted (leb : ApiKey.t -> ApiKey.t -> bool) (l : list ApiKey.t) :
  (forall a b, leb a b = false -> leb b a = true) ->
  Sorted (fun a b => leb a b = true) (sort_keys leb l).
Proof.
  intros Htotal. induction l as [|x l IH]; [constructor|].
  unfold sort_keys in *. simpl. now apply insert_key_sorted.
Qed.

(** X14. The list of keys a user gets: exactly the keys of that user, the
    revoked ones included, each once, newest first; listing writes nothing. *)
Theorem list_api_keys_own_keys_newest_first (u : User.t) (db : Db) :
  exists keys,
    list_api_keys u db = (Ok keys, db)
    /\ Permutation keys
         (filter (fun k => String.eqb (ApiKey.user_id k) (User.id u)) (api_keys db))
    /\ (forall k, In k keys <-> In k (api_keys db) /\ ApiKey.user_id k = User.id u)
    /\ Sorted (fun a b => ApiKey.created_at b <= ApiKey.created_at a) keys.
Proof.
  eexists. split; [reflexivity|].
  split; [apply sort_keys_perm|].
  split.
  - intros k. split.
    + intros Hin. apply (Permutation_in _ (sort_keys_perm _ _)) in Hin.
      apply filter_In in Hin. now rewrite String.eqb_eq in Hin.
    + intros [Hin Huser].
      apply (Permutation_in _ (Permutation_sym (sort_keys_perm _ _))).
      apply filter_In. now rewrite String.eqb_eq.
  - match goal with
    | |- Sorted _ ?l =>
      assert (Hs : Sorted (fun a b => created_at_desc a b = true) l)
    end.
    { apply sort_keys_sorted. unfold created_at_desc. intros a b Hab.
      apply Z.leb_gt in Hab. apply Z.leb_le. lia. }
    induction Hs as [|a l Hs IH Hhd]; constructor; [exact IH|].
    destruct Hhd as [|b l Hab]; constructor.
    unfold created_at_desc in Hab. now apply Z.leb_le.
Qed.

(** ** Equality and order of column values *)


Lemma SFeqb_same (a b : SpecFloat.spec_float) :
  SpecFloat.SFeqb a b = true ->
  SpecFloat.SFeqb b (SpecFloat.S754_zero false) = false ->
  a = b.
Proof.
  unfold SpecFloat.SFeqb.
  destruct a as [sa|sa| |sa ma ea], b as [sb|sb| |sb mb eb]; simpl;
    try discriminate; try (destruct sa; discriminate); try (destruct sb; discriminate);
    try (destruct sa, sb; simpl; congruence).
  destruct sa, sb; simpl; try discriminate;
    destruct (Z.compare_spec ea eb); simpl; try discriminate; subst;
    destruct (Pos.compare_cont Eq ma mb) eqn:E; simpl; try discriminate;
    apply Pos.compare_eq in E; subst; reflexivity.
Qed.



Lemma float_eqb_same (x y : float) :
  PrimFloat.eqb x y = true -> PrimFloat.eqb y 0 = false -> x = y.
Proof.
  rewrite !FloatAxioms.eqb_spec. intros H H0.
  apply FloatAxioms.Prim2SF_inj. now apply SFeqb_same.
Qed.

(** Python's [==] on two values of a column is the identity of the values,
    but for a float that is zero. *)
Lemma value_eqb_same (a b : value) :
  value_eqb a b = true ->
  (forall f, b = VFloat f -> PrimFloat.eqb f 0 = false) ->
  a = b.
Proof.
  destruct a as [x|x|x|x], b as [y|y|y|y]; simpl; try discriminate; intros H Hz.
  - apply String.eqb_eq in H. now subst.
  - apply Z.eqb_eq in H. now subst.
  - f_equal. apply float_eqb_same; [exact H | now apply Hz].
  - apply Bool.eqb_prop in H. now subst.
Qed.

Lemma value_eqb_self (a : value) :
  (forall f, a = VFloat f -> is_number f = true) -> value_eqb a a = true.
Proof.
  destruct a as [x|x|x|x]; simpl; intros Hn.
  - apply String.eqb_refl.
  - apply Z.eqb_refl.
  - now apply Hn.
  - now destruct x.
Qed.

(** ** Assigning what is there *)

Lemma getattr_float (c : Comic.t) (key : Attr.t) (f : float) :
  Comic.getattr c key = Some (VFloat f) -> Comic.community_rating c = Some f.
Proof.
  destruct key; simpl;
    try match goal with
        | |- option_map _ ?o = _ -> _ => destruct o; simpl
        end;
    intros H; inversion H; reflexivity.
Qed.

Lemma payload_float (p : ComicUpdate.t) (key : Attr.t) (f : float) :
  ComicUpdate.get p key = Some (VFloat f) -> ComicUpdate.community_rating p = Some f.
Proof.
  destruct key; simpl;
    match goal with
    | |- option_map _ ?o = _ -> _ => destruct o; simpl
    end;
    intros H; inversion H; reflexivity.
Qed.

Lemma setattr_same (c : Comic.t) (key : Attr.t) (v : value) :
  Comic.getattr c key = Some v -> Comic.setattr c key v = c.
Proof.
  destruct c. destruct key; simpl;
    try match goal with
        | |- option_map _ ?o = _ -> _ => destruct o; simpl
        end;
    intros H; inversion H; reflexivity.
Qed.

Lemma apply_items_same (items : list (Attr.t * value)) (c : Comic.t) :
  (forall key v, In (key, v) items -> Comic.getattr c key = Some v) ->
  apply_items items c = c.
Proof.
  induction items as [|[key v] items IH]; intros Hall; [reflexivity|].
  unfold apply_items. simpl.
  rewrite (setattr_same c key v) by (apply Hall; now left).
  apply IH. intros key' v' Hin. apply Hall. now right.
Qed.

Lemma in_model_dump (p : ComicUpdate.t) (key : Attr.t) (v : value) :
  In (key, v) (model_dump_exclude_none p) <-> ComicUpdate.get p key = Some v.
Proof.
  unfold model_dump_exclude_none. rewrite in_flat_map. split.
  - intros [k [_ Hin]]. destruct (ComicUpdate.get p k) eqn:E; [|contradiction].
    destruct Hin as [Heq|[]]. inversion Heq; subst. exact E.
  - intros Hget. exists key. split; [apply Attr_all_complete|].
    rewrite Hget. now left.
Qed.

Lemma unmodified_attr (c c' : Comic.t) (key : Attr.t) :
  modified c c' = false ->
  opt_eqb value_eqb (Comic.getattr c key) (Comic.getattr c' key) = true.
Proof.
  unfold modified. intros Hm.
  destruct (opt_eqb value_eqb (Comic.getattr c key) (Comic.getattr c' key)) eqn:E;
    [reflexivity|].
  rewrite <- Hm. apply existsb_exists. exists key.
  split; [apply Attr_all_complete|]. now rewrite E.
Qed.

(** A body that changes no column leaves the loaded row as it is. *)
Lemma unmodified_same (p : ComicUpdate.t) (c : Comic.t) :
  rating_not_zero p = true ->
  modified c (apply_items (model_dump_exclude_none p) c) = false ->
  apply_items (model_dump_exclude_none p) c = c.
Proof.
  intros Hz Hm. apply apply_items_same. intros key v Hin.
  apply in_model_dump in Hin.
  pose proof (unmodified_attr _ _ key Hm) as E.
  rewrite patch_getattr, Hin in E.
  destruct (Comic.getattr c key) as [v'|]; simpl in E; [|discriminate E].
  f_equal. apply value_eqb_same; [exact E|].
  intros f ->. apply payload_float in Hin.
  unfold rating_not_zero in Hz. rewrite Hin in Hz.
  now apply negb_true_iff in Hz.
Qed.

Lemma modified_self (c : Comic.t) :
  (forall f, Comic.community_rating c = Some f -> is_number f = true) ->
  modified c c = false.
Proof.
  intros Hn. unfold modified. apply not_true_iff_false. intros Hex.
  apply existsb_exists in Hex. destruct Hex as [key [_ Hne]].
  apply negb_true_iff in Hne.
  destruct (Comic.getattr c key) as [v|] eqn:E; simpl in Hne; [|discriminate Hne].
  rewrite value_eqb_self in Hne; [discriminate Hne|].
  intros f ->. apply Hn. now apply (getattr_float c key).
Qed.

(** ** Creating, reading and deleting comics *)

Lemma db_wf_set_comics (l : list Comic.t) (db : Db) :
  db_wf db -> NoDup (map Comic.id l) -> db_wf (set_comics l db).
Proof. intros [Hid Hname Hmail Hkid Hkh _] Hc. now split. Qed.

Lemma get_comic_present (c : Comic.t) (db : Db) :
  db_wf db -> In c (comics db) -> get_comic (Comic.id c) db = (Ok c, db).
Proof.
  intros Hwf Hin. unfold get_comic, bind, select_comics.
  now rewrite (select_by_key_present Comic.id (comics db) c (wf_comic_id db Hwf) Hin).
Qed.

Lemma get_comic_absent (comic_id : uuid) (db : Db) :
  (forall c, In c (comics db) -> Comic.id c <> comic_id) ->
  get_comic comic_id db = (HTTPException 404 "Comic not found", db).
Proof.
  intros Hnone. unfold get_comic, bind, select_comics.
  now rewrite (select_by_key_absent Comic.id comic_id (comics db) Hnone).
Qed.

Lemma create_comic_runs (payload : ComicCreate.t) (u : User.t) (new_id : uuid)
    (created_at updated_at : datetime) (db : Db) :
  In u (users db) ->
  (forall c, In c (comics db) -> Comic.id c <> new_id) ->
  fits_columns (Comic_of_dump payload (User.id u) new_id created_at updated_at) = true ->
  let c := Comic_of_dump payload (User.id u) new_id created_at updated_at in
  create_comic payload u new_id created_at updated_at db
  = (Ok c, set_comics (comics db ++ [c]) db).
Proof.
  intros Hu Hfresh Hfits c. unfold create_comic. cbv zeta. fold c.
  unfold bind, insert_comic. fold c in Hfits. rewrite Hfits. cbv iota beta delta [negb].
  assert (Hnew : existsb (fun x => String.eqb (Comic.id x) (Comic.id c)) (comics db) = false).
  { apply not_true_iff_false. intros Hex. apply existsb_exists in Hex.
    destruct Hex as [x [Hx Heq]]. apply String.eqb_eq in Heq.
    exact (Hfresh x Hx Heq). }
  assert (Hfk : existsb (fun x => String.eqb (User.id x) (User.id u)) (users db) = true).
  { apply existsb_exists. exists u. split; [exact Hu | apply String.eqb_refl]. }
  rewrite Hnew. change (Comic.created_by c) with (Some (User.id u)). cbv iota beta.
  rewrite Hfk. reflexivity.
Qed.

(** X16. A comic that is created is stored and found: for a caller who is a
    row of [users], a primary key that is new and values that fit their
    columns, [create_comic] appends one row that holds the fields of the
    body, the caller as [created_by] and no [cover_image_path]; [get_comic]
    with the new id then returns that row, and the uniqueness constraints
    still hold. *)
Theorem created_comic_is_stored_and_found
    (payload : ComicCreate.t) (u : User.t) (new_id : uuid)
    (created_at updated_at : datetime) (db : Db) :
  db_wf db ->
  In u (users db) ->
  (forall c, In c (comics db) -> Comic.id c <> new_id) ->
  fits_columns (Comic_of_dump payload (User.id u) new_id created_at updated_at) = true ->
  let c := Comic_of_dump payload (User.id u) new_id created_at updated_at in
  let db' := set_comics (comics db ++ [c]) db in
  create_comic payload u new_id created_at updated_at db = (Ok c, db')
  /\ get_comic new_id db' = (Ok c, db')
  /\ Comic.title c = ComicCreate.title payload
  /\ Comic.created_by c = Some (User.id u)
  /\ Comic.cover_image_path c = None
  /\ db_wf db'.
Proof.
  intros Hwf Hu Hfresh Hfits c db'.
  assert (Hwf' : db_wf db').
  { apply db_wf_set_comics; [exact Hwf|].
    apply NoDup_map_snoc; [exact (wf_comic_id db Hwf)|].
    intros x Hx. now apply Hfresh. }
  split; [now apply create_comic_runs|].
  split.
  - change new_id with (Comic.id c). apply get_comic_present; [exact Hwf'|].
    simpl. apply in_or_app. right. now left.
  - split; [reflexivity|]. split; [reflexivity|]. split; [reflexivity | exact Hwf'].
Qed.

Lemma delete_comic_runs (c : Comic.t) (u : User.t) (db : Db) :
  db_wf db -> In c (comics db) -> forbidden c u = false ->
  delete_comic (Comic.id c) u db
  = (Ok tt,
     set_comics (filter (fun x => negb (String.eqb (Comic.id x) (Comic.id c))) (comics db))
       db).
Proof.
  intros Hwf Hin Hallowed. rewrite delete_comic_unfold.
  rewrite (lookup_present c db Hwf Hin). now rewrite Hallowed.
Qed.

Lemma filter_all {A : Type} (p : A -> bool) (l : list A) :
  (forall x, In x l -> p x = true) -> filter p l = l.
Proof.
  induction l as [|a l IH]; simpl; intros Hall; [reflexivity|].
  rewrite (Hall a (or_introl eq_refl)). f_equal. apply IH. auto.
Qed.

(** X17. Creating a comic and deleting it again leaves the store as it was:
    the creator, administrator or not, may delete what they created, and the
    deletion removes that row alone. *)
Theorem create_then_delete_restores_the_store
    (payload : ComicCreate.t) (u : User.t) (new_id : uuid)
    (created_at updated_at : datetime) (db db' : Db) (c : Comic.t) :
  db_wf db ->
  In u (users db) ->
  (forall x, In x (comics db) -> Comic.id x <> new_id) ->
  fits_columns (Comic_of_dump payload (User.id u) new_id created_at updated_at) = true ->
  create_comic payload u new_id created_at updated_at db = (Ok c, db') ->
  delete_comic new_id u db' = (Ok tt, db).
Proof.
  intros Hwf Hu Hfresh Hfits Hcreate.
  rewrite (create_comic_runs payload u new_id created_at updated_at db Hu Hfresh Hfits)
    in Hcreate.
  cbv zeta in Hcreate. inversion Hcreate as [[Hc Hdb]]. clear Hcreate.
  set (c0 := Comic_of_dump payload (User.id u) new_id created_at updated_at) in *.
  assert (Hwf' : db_wf (set_comics (comics db ++ [c0]) db)).
  { apply db_wf_set_comics; [exact Hwf|].
    apply NoDup_map_snoc; [exact (wf_comic_id db Hwf)|].
    intros x Hx. now apply Hfresh. }
  change new_id with (Comic.id c0).
  rewrite (delete_comic_runs c0 u _ Hwf').
  - simpl. rewrite filter_app. simpl. rewrite String.eqb_refl. simpl.
    rewrite app_nil_r, filter_all.
    + unfold set_comics. simpl. now destruct db.
    + intros x Hx. apply negb_true_iff. apply String.eqb_neq. now apply Hfresh.
  - simpl. apply in_or_app. right. now left.
  - apply forbidden_false. left. reflexivity.
Qed.

(** X18. After a comic has been deleted it is gone for every route that
    looks it up, and the other comics are served as before: the id answers
    404 to [get_comic], [update_comic] and [delete_comic], and every other
    comic of the table is still returned by [get_comic]. *)
Theorem deleted_comic_is_gone_and_the_others_stay
    (comic_id : uuid) (u : User.t) (db db' : Db) :
  db_wf db ->
  delete_comic comic_id u db = (Ok tt, db') ->
  get_comic comic_id db' = (HTTPException 404 "Comic not found", db')
  /\ (forall p v now,
         update_comic comic_id p v now db' = (HTTPException 404 "Comic not found", db'))
  /\ (forall v, delete_comic comic_id v db' = (HTTPException 404 "Comic not found", db'))
  /\ (forall c, In c (comics db) -> Comic.id c <> comic_id ->
                get_comic (Comic.id c) db' = (Ok c, db'))
  /\ users db' = users db /\ api_keys db' = api_keys db.
Proof.
  intros Hwf Hdel. rewrite delete_comic_unfold in Hdel.
  unfold bind, select_comics in Hdel.
  destruct (filter _ (comics db)) as [|c0 [|c1 r]] eqn:Hsel; simpl in Hdel;
    try discriminate.
  destruct (selected_row _ _ _ _ Hsel) as [Hc0 Hid]. apply String.eqb_eq in Hid.
  destruct (forbidden c0 u); [discriminate|].
  unfold delete_comic_row in Hdel. inversion Hdel as [Hdb]. clear Hdel.
  rewrite Hid.
  set (rest := filter (fun x => negb (String.eqb (Comic.id x) comic_id)) (comics db)).
  assert (Hgone : forall c, In c (comics (set_comics rest db)) -> Comic.id c <> comic_id).
  { intros c Hc. simpl in Hc. apply filter_In in Hc. destruct Hc as [_ Hne].
    apply negb_true_iff in Hne. now apply String.eqb_neq. }
  assert (Hwf' : db_wf (set_comics rest db)).
  { apply db_wf_set_comics; [exact Hwf|].
    pose proof (wf_comic_id db Hwf) as Hnd. unfold rest. clear - Hnd.
    induction (comics db) as [|a l IH]; simpl; [constructor|].
    inversion Hnd as [|? ? Hfresh Hnd']; subst.
    destruct (negb _); simpl; [|now apply IH].
    constructor; [|now apply IH].
    intros Hin. apply Hfresh. apply in_map_iff in Hin. destruct Hin as [x [Hx Hl]].
    apply filter_In in Hl. rewrite <- Hx. apply in_map. tauto. }
  split; [now apply get_comic_absent|].
  split.
  { intros p v now. rewrite update_comic_unfold. now rewrite (lookup_absent _ _ Hgone). }
  split.
  { intros v. rewrite delete_comic_unfold. now rewrite (lookup_absent _ _ Hgone). }
  split; [|split; reflexivity].
  intros c Hc Hne. apply get_comic_present; [exact Hwf'|].
  simpl. apply filter_In. split; [exact Hc|].
  apply negb_true_iff. now apply String.eqb_neq.
Qed.

(** ** What is read after a PATCH *)

Lemma updated_rows_ids (c : Comic.t) (l : list Comic.t) :
  map Comic.id (map (fun x => if String.eqb (Comic.id x) (Comic.id c) then c else x) l)
  = map Comic.id l.
Proof.
  rewrite map_map. apply map_ext. intros x.
  destruct (String.eqb_spec (Comic.id x) (Comic.id c)); congruence.
Qed.

(** A PATCH that is answered: the row it loaded, and what it stored. *)
Lemma update_comic_inv (comic_id : uuid) (p : ComicUpdate.t) (u : User.t) (now : datetime)
    (db db' : Db) (c : Comic.t) :
  update_comic comic_id p u now db = (Ok c, db') ->
  exists c0,
    In c0 (comics db) /\ Comic.id c0 = comic_id /\ forbidden c0 u = false
    /\ ((modified c0 (apply_items (model_dump_exclude_none p) c0) = true
         /\ c = Comic.set_updated_at now (apply_items (model_dump_exclude_none p) c0)
         /\ db' = set_comics
                    (map (fun x => if String.eqb (Comic.id x) (Comic.id c) then c else x)
                       (comics db))
                    db)
        \/ (modified c0 (apply_items (model_dump_exclude_none p) c0) = false
            /\ c = apply_items (model_dump_exclude_none p) c0
            /\ db' = db)).
Proof.
  rewrite update_comic_unfold. unfold bind, select_comics.
  destruct (filter _ (comics db)) as [|c0 [|c1 r]] eqn:Hsel; simpl; try discriminate.
  destruct (selected_row _ _ _ _ Hsel) as [Hc0 Hid]. apply String.eqb_eq in Hid.
  destruct (forbidden c0 u) eqn:Hallowed; [discriminate|].
  rewrite commit_comic_runs.
  destruct (update_fits c0 _); [|discriminate].
  destruct (modified c0 (apply_items (model_dump_exclude_none p) c0)) eqn:Hm.
  - intros H. inversion H; subst.
    exists c0. repeat split; auto.
  - intros H. inversion H; subst.
    exists c0. repeat split; auto.
Qed.

(** The comic a PATCH answers with is the row of the table afterwards. *)
Lemma update_comic_stores (comic_id : uuid) (p : ComicUpdate.t) (u : User.t)
    (now : datetime) (db db' : Db) (c : Comic.t) :
  db_wf db ->
  rating_not_zero p = true ->
  update_comic comic_id p u now db = (Ok c, db') ->
  db_wf db' /\ In c (comics db') /\ Comic.id c = comic_id.
Proof.
  intros Hwf Hz Hup.
  destruct (update_comic_inv _ _ _ _ _ _ _ Hup)
    as [c0 [Hc0 [Hid [_ [[_ [Hc Hdb]] | [Hm [Hc Hdb]]]]]]].
  - assert (Hcid : Comic.id c = Comic.id c0).
    { rewrite Hc. simpl.
      now destruct (apply_items_keeps_unpatchable (model_dump_exclude_none p) c0). }
    split; [|split; [|congruence]].
    + rewrite Hdb. apply db_wf_set_comics; [exact Hwf|].
      rewrite updated_rows_ids. exact (wf_comic_id db Hwf).
    + rewrite Hdb. simpl. apply in_map_iff. exists c0.
      split; [|exact Hc0]. now rewrite Hcid, String.eqb_refl.
  - rewrite (unmodified_same p c0 Hz Hm) in Hc. subst. auto.
Qed.

Section AfterPatch.

Variable str_float : float -> string.
Variable tostring : Element -> string.
Variable parseString_toprettyxml : string -> string -> option string.

Let download := download_comicinfo str_float tostring parseString_toprettyxml.
Let xml := generate_comicinfo_xml str_float tostring parseString_toprettyxml.

Lemma download_present (c : Comic.t) (db : Db) :
  db_wf db -> In c (comics db) ->
  download (Comic.id c) db
  = match xml c with
    | Some document => (Ok (attachment c document), db)
    | None => (Unhandled ExpatError, db)
    end.
Proof.
  intros Hwf Hin. unfold download, download_comicinfo, bind, select_comics.
  rewrite (select_by_key_present Comic.id (comics db) c (wf_comic_id db Hwf) Hin).
  simpl. fold xml. now destruct (xml c).
Qed.

(** X19. What a PATCH answered is what is served afterwards: [get_comic]
    returns the comic of the answer; when the document of that comic is
    read back by the parser, the ComicInfo download is that document, sent
    as [application/xml] with the file name [ComicInfo-<id>.xml]; when the
    parser refuses the text the exporter wrote, as it does for a control
    character in a field, the download fails with the error of the parser,
    unhandled, and the store stays as it is.  The body is taken to set no
    rating of zero. *)
Theorem patched_comic_is_served
    (comic_id : uuid) (p : ComicUpdate.t) (u : User.t) (now : datetime)
    (db db' : Db) (c : Comic.t) :
  db_wf db ->
  rating_not_zero p = true ->
  update_comic comic_id p u now db = (Ok c, db') ->
  get_comic comic_id db' = (Ok c, db')
  /\ (forall document,
         xml c = Some document ->
         download comic_id db' = (Ok (attachment c document), db')
         /\ Response.content (attachment c document) = document
         /\ Response.media_type (attachment c document) = "application/xml"
         /\ Response.headers (attachment c document)
            = [("Content-Disposition",
                ("attachment; filename=" ++ double_quote
                 ++ ("ComicInfo-" ++ comic_id ++ ".xml") ++ double_quote)%string)])
  /\ (xml c = None -> download comic_id db' = (Unhandled ExpatError, db')).
Proof.
  intros Hwf Hz Hup.
  destruct (update_comic_stores _ _ _ _ _ _ _ Hwf Hz Hup) as [Hwf' [Hin Hid]].
  rewrite <- Hid.
  split; [now apply get_comic_present|].
  rewrite (download_present c db' Hwf' Hin).
  split.
  - intros document ->. repeat split.
  - now intros ->.
Qed.

End AfterPatch.

Lemma patched_cover (p : ComicUpdate.t) (c0 : Comic.t) (now : datetime) (url : string) :
  ComicUpdate.cover_url p = Some url ->
  Comic.cover_url (apply_items (model_dump_exclude_none p) c0) = Some url
  /\ Comic.cover_url (Comic.set_updated_at now (apply_items (model_dump_exclude_none p) c0))
     = Some url.
Proof.
  intros Hurl.
  pose proof (patch_getattr p c0 Attr.cover_url) as E. simpl in E. rewrite Hurl in E.
  simpl in E.
  destruct (Comic.cover_url (apply_items (model_dump_exclude_none p) c0)) as [x|] eqn:Ec;
    simpl in E; inversion E; subst.
  split; [reflexivity | exact Ec].
Qed.

(** X20. The cover a PATCH sets is the cover that is served: after a body
    with a non-empty [cover_url], [get_cover_url] answers with the id and that
    URL; after a body whose [cover_url] is the empty string it answers 404,
    "No cover image set for this comic", as for a comic without cover; the
    body is taken to set no rating of zero. *)
Theorem patched_cover_is_served
    (comic_id : uuid) (p : ComicUpdate.t) (u : User.t) (now : datetime)
    (db db' : Db) (c : Comic.t) (url : string) :
  db_wf db ->
  rating_not_zero p = true ->
  update_comic comic_id p u now db = (Ok c, db') ->
  ComicUpdate.cover_url p = Some url ->
  (url <> "" ->
   get_cover_url comic_id db'
   = (Ok [("comic_id", Some comic_id); ("cover_url", Some url)], db'))
  /\ (url = "" ->
      get_cover_url comic_id db'
      = (HTTPException 404 "No cover image set for this comic", db')).
Proof.
  intros Hwf Hz Hup Hurl.
  destruct (update_comic_stores _ _ _ _ _ _ _ Hwf Hz Hup) as [Hwf' [Hin Hid]].
  assert (Hcover : Comic.cover_url c = Some url).
  { destruct (update_comic_inv _ _ _ _ _ _ _ Hup)
      as [c0 [_ [_ [_ [[_ [Hc _]] | [_ [Hc _]]]]]]];
      destruct (patched_cover p c0 now url Hurl) as [H1 H2]; rewrite Hc; assumption. }
  assert (Hrun : get_cover_url comic_id db'
                 = (if negb (truthy_str url)
                    then (HTTPException 404 "No cover image set for this comic", db')
                    else (Ok [("comic_id", Some comic_id); ("cover_url", Some url)], db'))).
  { rewrite <- Hid. unfold get_cover_url, bind, select_comics.
    rewrite (select_by_key_present Comic.id (comics db') c (wf_comic_id db' Hwf') Hin).
    simpl. rewrite Hcover. simpl. now destruct (truthy_str url). }
  rewrite Hrun. unfold truthy_str. split.
  - intros Hne. destruct (String.eqb_spec url ""); [contradiction | reflexivity].
  - intros ->. reflexivity.
Qed.

(** X21. Sending the same PATCH again changes nothing: the second request is
    answered with the same comic, [updated_at] included, and the store stays
    as the first request left it; the rating of the comic, if it has one, is
    taken to be a number. *)
Theorem patch_is_idempotent
    (comic_id : uuid) (p : ComicUpdate.t) (u : User.t) (now now' : datetime)
    (db db' : Db) (c : Comic.t) :
  db_wf db ->
  (forall f, Comic.community_rating c = Some f -> is_number f = true) ->
  update_comic comic_id p u now db = (Ok c, db') ->
  update_comic comic_id p u now' db' = (Ok c, db').
Proof.
  intros Hwf Hn Hup.
  destruct (update_comic_inv _ _ _ _ _ _ _ Hup)
    as [c0 [Hc0 [Hid [Hallowed [[Hm [Hc Hdb]] | [Hm [Hc Hdb]]]]]]].
  - set (c1 := apply_items (model_dump_exclude_none p) c0) in *.
    destruct (apply_items_keeps_unpatchable (model_dump_exclude_none p) c0)
      as [Hk1 [_ [_ [_ Hk5]]]]. fold c1 in Hk1, Hk5.
    assert (Hcid : Comic.id c = comic_id) by (rewrite Hc; simpl; congruence).
    assert (Hwf' : db_wf db').
    { rewrite Hdb. apply db_wf_set_comics; [exact Hwf|].
      rewrite updated_rows_ids. exact (wf_comic_id db Hwf). }
    assert (Hin : In c (comics db')).
    { rewrite Hdb. simpl. apply in_map_iff. exists c0.
      split; [|exact Hc0]. now rewrite Hcid, Hid, String.eqb_refl. }
    rewrite update_comic_unfold. rewrite <- Hcid.
    rewrite (lookup_present c db' Hwf' Hin).
    assert (Hallowed' : forbidden c u = false).
    { unfold forbidden in *. rewrite Hc. simpl. now rewrite Hk5. }
    rewrite Hallowed'.
    assert (Hsame : apply_items (model_dump_exclude_none p) c = c).
    { apply apply_items_same. intros key v Hinv. apply in_model_dump in Hinv.
      rewrite Hc, getattr_set_updated_at. fold c1. unfold c1.
      now rewrite patch_getattr, Hinv. }
    rewrite Hsame. unfold commit_comic. now rewrite (modified_self c Hn).
  - subst db'. rewrite update_comic_unfold.
    rewrite <- Hid. rewrite (lookup_present c0 db Hwf Hc0).
    rewrite Hallowed. unfold commit_comic. rewrite Hm. now rewrite Hc.
Qed.

(** ** Routes that only read *)

Section Readers.

Variable jwt_decode : string -> option payload.
Variable jwt_encode : claims -> string.
Variable verify_password : string -> string -> bool.
Variable lower : string -> string.
Variable str_float : float -> string.
Variable tostring : Element -> string.
Variable parseString_toprettyxml : string -> string -> option string.

Let download := download_comicinfo str_float tostring parseString_toprettyxml.

Lemma lookup_reads_only {A : Type} (comic_id : uuid) (k : option Comic.t -> M A) (db : Db) :
  (forall o db0, snd (k o db0) = db0) ->
  snd (bind (select_comics (fun c => String.eqb (Comic.id c) comic_id))
         (fun result => bind (scalar_one_or_none result) k) db) = db.
Proof.
  intros Hk. unfold bind, select_comics.
  destruct (filter _ (comics db)) as [|c [|c' r]]; simpl; try reflexivity; apply Hk.
Qed.

(** X22. The routes that read leave the store alone, whatever they answer:
    [get_comic], the ComicInfo download, [get_cover_url], [list_comics],
    [list_api_keys], [login], [get_me], and the lookup by bearer token.  And
    the three routes that look a comic up agree on a missing one: an id that
    names no comic is answered 404, "Comic not found", by each. *)
Theorem reading_routes_write_nothing (db : Db) :
  (forall comic_id, snd (get_comic comic_id db) = db)
  /\ (forall comic_id, snd (download comic_id db) = db)
  /\ (forall comic_id, snd (get_cover_url comic_id db) = db)
  /\ (forall q series publisher writer genre year_from year_to language manga age_rating
             page page_size sort_by sort_order,
         snd (list_comics lower q series publisher writer genre year_from year_to language manga
                age_rating page page_size sort_by sort_order db) = db)
  /\ (forall u, snd (list_api_keys u db) = db)
  /\ (forall payload now, snd (login jwt_encode verify_password payload now db) = db)
  /\ (forall u, snd (get_me u db) = db)
  /\ (forall credentials, snd (get_current_user_from_token jwt_decode credentials db) = db)
  /\ (forall comic_id,
         (forall c, In c (comics db) -> Comic.id c <> comic_id) ->
         get_comic comic_id db = (HTTPException 404 "Comic not found", db)
         /\ download comic_id db = (HTTPException 404 "Comic not found", db)
         /\ get_cover_url comic_id db = (HTTPException 404 "Comic not found", db)).
Proof.
  split.
  { intros comic_id. unfold get_comic. apply lookup_reads_only.
    intros [c|] db0; reflexivity. }
  split.
  { intros comic_id. unfold download, download_comicinfo. apply lookup_reads_only.
    intros [c|] db0; [|reflexivity].
    now destruct (generate_comicinfo_xml _ _ _ c). }
  split.
  { intros comic_id. unfold get_cover_url. apply lookup_reads_only.
    intros [c|] db0; [|reflexivity].
    now destruct (negb (truthy_opt truthy_str (Comic.cover_url c))). }
  split.
  { intros. unfold list_comics. cbv zeta.
    destruct (negb _); [reflexivity|].
    unfold bind, execute_count, execute.
    destruct (accepted _); [|reflexivity].
    now destruct (accepted _). }
  split; [reflexivity|].
  split.
  { intros payload now. unfold login, bind, select_users.
    destruct (filter _ (users db)) as [|x [|y r]]; simpl; try reflexivity.
    now destruct (negb _). }
  split; [reflexivity|].
  split; [intros credentials; apply from_token_reads_only|].
  intros comic_id Hnone.
  split; [now apply get_comic_absent|].
  split.
  - unfold download, download_comicinfo, bind, select_comics.
    now rewrite (select_by_key_absent Comic.id comic_id (comics db) Hnone).
  - unfold get_cover_url, bind, select_comics.
    now rewrite (select_by_key_absent Comic.id comic_id (comics db) Hnone).
Qed.

End Readers.

(** ** The order of a listing *)




Section Sorting.

Variable leb : Comic.t -> Comic.t -> bool.




End Sorting.





(** ** The uniqueness constraints are kept *)

Lemma kc_read {A : Type} (m : M A) : (forall db, snd (m db) = db) -> keeps_constraints m.
Proof. intros Hread db Hwf. now rewrite Hread. Qed.

Lemma kc_bind {A B : Type} (m : M A) (k : A -> M B) :
  keeps_constraints m -> (forall a, keeps_constraints (k a)) ->
  keeps_constraints (bind m k).
Proof.
  intros Hm Hk db Hwf. unfold bind.
  specialize (Hm db Hwf).
  destruct (m db) as [[a|s d| |e] db']; simpl in *; try assumption.
  now apply Hk.
Qed.

Lemma kc_scalar {A : Type} (rows : list A) : keeps_constraints (scalar_one_or_none rows).
Proof. apply kc_read. intros db. now destruct rows as [|x [|y r]]. Qed.

Lemma existsb_none {A : Type} (p : A -> bool) (l : list A) :
  existsb p l = false -> forall x, In x l -> p x = false.
Proof.
  intros Hnone x Hx. destruct (p x) eqn:E; [|reflexivity].
  rewrite <- Hnone. symmetry. apply existsb_exists. now exists x.
Qed.

Lemma kc_insert_user (u : User.t) : keeps_constraints (insert_user u).
Proof.
  intros db Hwf. unfold insert_user.
  destruct (existsb _ (users db)) eqn:Hdup; simpl; [exact Hwf|].
  pose proof (existsb_none _ _ Hdup) as Hfresh. cbv beta in Hfresh.
  destruct Hwf as [Hid Hname Hmail Hkid Hkh Hcid].
  split; simpl; try assumption; apply NoDup_map_snoc; try assumption;
    intros x Hx; specialize (Hfresh x Hx);
    apply orb_false_iff in Hfresh; destruct Hfresh as [Hfresh H3];
    apply orb_false_iff in Hfresh; destruct Hfresh as [H1 H2];
    now apply String.eqb_neq.
Qed.

Lemma kc_insert_api_key (k : ApiKey.t) : keeps_constraints (insert_api_key k).
Proof.
  intros db Hwf. unfold insert_api_key.
  destruct (negb (fits_key k)); simpl; [exact Hwf|].
  destruct (existsb _ (api_keys db)) eqn:Hdup; simpl; [exact Hwf|].
  pose proof (existsb_none _ _ Hdup) as Hfresh. cbv beta in Hfresh.
  apply db_wf_set_api_keys; [exact Hwf| |]; apply NoDup_map_snoc;
    try (apply (wf_key_id db Hwf)); try (apply (wf_key_hash db Hwf));
    intros x Hx; specialize (Hfresh x Hx);
    apply orb_false_iff in Hfresh; destruct Hfresh as [H1 H2];
    now apply String.eqb_neq.
Qed.

Lemma kc_insert_comic (c : Comic.t) : keeps_constraints (insert_comic c).
Proof.
  intros db Hwf. unfold insert_comic.
  destruct (negb (fits_columns c)); simpl; [exact Hwf|].
  destruct (existsb _ (comics db)) eqn:Hdup; simpl; [exact Hwf|].
  destruct (negb _); simpl; [exact Hwf|].
  pose proof (existsb_none _ _ Hdup) as Hfresh. cbv beta in Hfresh.
  apply db_wf_set_comics; [exact Hwf|].
  apply NoDup_map_snoc; [exact (wf_comic_id db Hwf)|].
  intros x Hx. apply String.eqb_neq. now apply Hfresh.
Qed.

Lemma kc_update_comic_row (loaded c : Comic.t) :
  keeps_constraints (update_comic_row loaded c).
Proof.
  intros db Hwf. unfold update_comic_row.
  destruct (update_fits loaded c); simpl; [|exact Hwf].
  apply db_wf_set_comics; [exact Hwf|].
  rewrite updated_rows_ids. exact (wf_comic_id db Hwf).
Qed.

Lemma NoDup_map_filter_id (p : Comic.t -> bool) (l : list Comic.t) :
  NoDup (map Comic.id l) -> NoDup (map Comic.id (filter p l)).
Proof.
  induction l as [|a l IH]; simpl; intros Hnd; [constructor|].
  inversion Hnd as [|? ? Hfresh Hnd']; subst.
  destruct (p a); simpl; [|now apply IH].
  constructor; [|now apply IH].
  intros Hin. apply Hfresh. apply in_map_iff in Hin. destruct Hin as [x [Hx Hl]].
  apply filter_In in Hl. rewrite <- Hx. apply in_map. tauto.
Qed.

Lemma kc_delete_comic_row (c : Comic.t) : keeps_constraints (delete_comic_row c).
Proof.
  intros db Hwf. unfold delete_comic_row. simpl.
  apply db_wf_set_comics; [exact Hwf|].
  apply NoDup_map_filter_id. exact (wf_comic_id db Hwf).
Qed.

(** Breaks a handler into its statements; what remains are the UPDATEs of
    [api_keys], which need the row they replace. *)
Ltac kc_steps :=
  repeat match goal with
         | |- keeps_constraints (bind _ _) => apply kc_bind; [|intros ?]
         | |- keeps_constraints (scalar_one_or_none _) => apply kc_scalar
         | |- keeps_constraints (insert_user _) => apply kc_insert_user
         | |- keeps_constraints (insert_api_key _) => apply kc_insert_api_key
         | |- keeps_constraints (insert_comic _) => apply kc_insert_comic
         | |- keeps_constraints (update_comic_row _ _) => apply kc_update_comic_row
         | |- keeps_constraints (delete_comic_row _) => apply kc_delete_comic_row
         | |- keeps_constraints (match ?x with _ => _ end) => destruct x
         | |- keeps_constraints (fun _ => _) => apply kc_read; intros ?; reflexivity
         | |- keeps_constraints (ret _) => apply kc_read; intros ?; reflexivity
         | |- keeps_constraints (raise _ _) => apply kc_read; intros ?; reflexivity
         | |- keeps_constraints (throw _) => apply kc_read; intros ?; reflexivity
         | |- keeps_constraints (select_users _) => apply kc_read; intros ?; reflexivity
         | |- keeps_constraints (select_api_keys _) => apply kc_read; intros ?; reflexivity
         | |- keeps_constraints (select_api_keys_order_by _ _) =>
           apply kc_read; intros ?; reflexivity
         | |- keeps_constraints (select_comics _) => apply kc_read; intros ?; reflexivity
         | |- keeps_constraints (execute ?f ?s) =>
           apply kc_read; intros ?; unfold execute; destruct (accepted s); reflexivity
         | |- keeps_constraints (execute_count ?f ?s) =>
           apply kc_read; intros ?; unfold execute_count; destruct (accepted s); reflexivity
         end.

Lemma kc_register (hash_password : string -> string) (payload : UserRegister.t)
    (new_id : uuid) (now : datetime) :
  keeps_constraints (register hash_password payload new_id now).
Proof. unfold register. kc_steps. Qed.

Lemma kc_create_api_key (sha256_hexdigest : string -> string) (payload : ApiKeyCreate.t)
    (u : User.t) (random_part : string) (new_id : uuid) (now : datetime) :
  keeps_constraints (create_api_key sha256_hexdigest payload u random_part new_id now).
Proof. unfold create_api_key. kc_steps. Qed.

Lemma kc_revoke_api_key (uuid_of_str : string -> option uuid) (key_id : string)
    (u : User.t) :
  keeps_constraints (revoke_api_key uuid_of_str key_id u).
Proof.
  intros db Hwf. rewrite revoke_api_key_unfold.
  destruct (uuid_of_str key_id) as [id|]; [|exact Hwf].
  destruct (filter _ (api_keys db)) as [|k [|k2 r]] eqn:Hsel; simpl; try exact Hwf.
  destruct (selected_row _ _ _ _ Hsel) as [Hk _].
  exact (db_wf_replaced k (ApiKey.set_is_active false k) db Hwf Hk eq_refl eq_refl).
Qed.

Lemma kc_create_comic (payload : ComicCreate.t) (u : User.t) (new_id : uuid)
    (created_at updated_at : datetime) :
  keeps_constraints (create_comic payload u new_id created_at updated_at).
Proof. unfold create_comic. cbv zeta. kc_steps. Qed.

Lemma kc_update_comic (comic_id : uuid) (payload : ComicUpdate.t) (u : User.t)
    (now : datetime) :
  keeps_constraints (update_comic comic_id payload u now).
Proof. unfold update_comic, commit_comic. kc_steps. Qed.

Lemma kc_delete_comic (comic_id : uuid) (u : User.t) :
  keeps_constraints (delete_comic comic_id u).
Proof. unfold delete_comic. kc_steps. Qed.

Lemma kc_get_comic (comic_id : uuid) : keeps_constraints (get_comic comic_id).
Proof. unfold get_comic. kc_steps. Qed.

Lemma kc_list_comics (lower : string -> string)
    (q series publisher writer genre : option string) (year_from year_to : option Z)
    (language manga age_rating : option string) (page page_size : option Z)
    (sort_by sort_order : option string) :
  keeps_constraints
    (list_comics lower q series publisher writer genre year_from year_to language manga
       age_rating page page_size sort_by sort_order).
Proof. unfold list_comics. cbv zeta. kc_steps. Qed.

Lemma kc_login (jwt_encode : claims -> string) (verify_password : string -> string -> bool)
    (payload : UserLogin.t) (now : datetime) :
  keeps_constraints (login jwt_encode verify_password payload now).
Proof. unfold login. kc_steps. Qed.

Lemma kc_list_api_keys (u : User.t) : keeps_constraints (list_api_keys u).
Proof. unfold list_api_keys. kc_steps. Qed.

Lemma kc_download_comicinfo (str_float : float -> string) (tostring : Element -> string)
    (parseString_toprettyxml : string -> string -> option string) (comic_id : uuid) :
  keeps_constraints (download_comicinfo str_float tostring parseString_toprettyxml comic_id).
Proof. unfold download_comicinfo. kc_steps. Qed.

Lemma kc_get_cover_url (comic_id : uuid) : keeps_constraints (get_cover_url comic_id).
Proof. unfold get_cover_url. kc_steps. Qed.

Lemma kc_response_model {A : Type} (validates : A -> bool) (m : M A) :
  keeps_constraints m -> keeps_constraints (response_model validates m).
Proof.
  intros Hm. unfold response_model. apply kc_bind; [exact Hm|].
  intros a. kc_steps.
Qed.

Section Served.

Variable jwt_decode : string -> option payload.
Variable jwt_encode : claims -> string.
Variable sha256_hexdigest : string -> string.
Variable hash_password : string -> string.
Variable verify_password : string -> string -> bool.
Variable uuid_of_str : string -> option uuid.
Variable lower : string -> string.
Variable str_float : float -> string.
Variable tostring : Element -> string.
Variable parseString_toprettyxml : string -> string -> option string.

Let serve_ :=
  serve jwt_decode jwt_encode sha256_hexdigest hash_password verify_password uuid_of_str
    lower str_float tostring parseString_toprettyxml.

Lemma kc_from_api_key (api_key : option string) (now : datetime) :
  keeps_constraints (get_current_user_from_api_key sha256_hexdigest api_key now).
Proof.
  intros db Hwf.
  destruct (from_api_key_cases sha256_hexdigest api_key now db Hwf)
    as [E | [k [Hk [_ [_ [_ [_ Hcase]]]]]]].
  - now rewrite E.
  - cbv zeta in Hcase.
    assert (Hwf' : db_wf (set_api_keys
                            (replaced (ApiKey.set_last_used_at (Some now) k) (api_keys db))
                            db))
      by now apply (db_wf_replaced k).
    destruct Hcase as [[u [_ [_ [_ E]]]] | [_ E]]; now rewrite E.
Qed.

Lemma kc_dependency (credentials api_key : option string) (now : datetime) :
  keeps_constraints
    (current_user_dependency jwt_decode sha256_hexdigest credentials api_key now).
Proof.
  unfold current_user_dependency.
  apply kc_bind; [apply kc_read; apply from_token_reads_only | intros token_user].
  apply kc_bind; [apply kc_from_api_key | intros api_key_user].
  unfold get_current_user. kc_steps.
Qed.

Lemma kc_done {A : Type} (m : M A) : keeps_constraints m -> keeps_constraints (done m).
Proof. intros Hm. unfold done. apply kc_bind; [exact Hm|]. intros _. kc_steps. Qed.

Lemma kc_serve (c : call) : keeps_constraints (serve_ c).
Proof.
  unfold serve_, serve, authenticated.
  destruct (route c);
    try (apply kc_bind; [apply kc_dependency | intros current_user]).
  - apply kc_done, kc_read. now intros db.
  - apply kc_done, kc_read. now intros db.
  - apply kc_done, kc_register.
  - apply kc_done, kc_login.
  - apply kc_done, kc_read. now intros db.
  - apply kc_done, kc_create_api_key.
  - apply kc_done, kc_list_api_keys.
  - apply kc_revoke_api_key.
  - apply kc_done, kc_list_comics.
  - apply kc_done, kc_response_model, kc_create_comic.
  - apply kc_done, kc_response_model, kc_get_comic.
  - apply kc_done, kc_response_model, kc_update_comic.
  - apply kc_delete_comic.
  - apply kc_done, kc_download_comicinfo.
  - apply kc_done, kc_get_cover_url.
Qed.

(** X24. The uniqueness constraints of the tables are an invariant of the
    service: whatever requests are served, on whatever routes, in whatever
    order and whatever each is answered, user ids, user names, addresses, key
    ids, key hashes and comic ids stay unique; and so they do when a comic is
    created. *)
Theorem served_requests_keep_the_uniqueness_constraints (calls : list call) (db : Db) :
  db_wf db ->
  db_wf (run jwt_decode jwt_encode sha256_hexdigest hash_password verify_password
           uuid_of_str lower str_float tostring parseString_toprettyxml calls db)
  /\ (forall payload u new_id created_at updated_at,
         db_wf (snd (create_comic payload u new_id created_at updated_at db))).
Proof.
  intros Hwf. split.
  - revert db Hwf. induction calls as [|c calls IH]; intros db Hwf; simpl; [exact Hwf|].
    apply IH. now apply kc_serve.
  - intros. now apply kc_create_comic.
Qed.

End Served.

(** ** The database URL *)

Lemma replace_absent (old new s : string) :
  occurs old s = false -> replace old new s = s.
Proof.
  unfold replace. induction s as [|c s IH]; intros Hno; [reflexivity|].
  cbn [occurs] in Hno. apply orb_false_iff in Hno. destruct Hno as [Hp Hrest].
  cbn [replace_from]. rewrite Hp. f_equal. now apply IH.
Qed.

Lemma replace_from_skips (skipped old new rest : string) :
  replace_from (String.length skipped) old new (skipped ++ rest)
  = replace_from 0 old new rest.
Proof.
  induction skipped as [|c skipped IH]; simpl; [reflexivity | exact IH].
Qed.

Lemma prefix_append (a rest : string) : prefix a (a ++ rest) = true.
Proof.
  induction a as [|c a IH]; simpl; [now destruct rest|].
  destruct (ascii_dec c c) as [_|Hne]; [exact IH | contradiction].
Qed.

(** X25. The module rewrites the scheme of a [postgres://] URL to
    [postgresql+asyncpg://] and with it every further occurrence of
    [postgres://] in the URL; a URL with no further occurrence keeps
    everything after the scheme; a URL with another scheme, [postgresql://]
    among them, is kept as it is; and without the environment variable the
    import fails. *)
Theorem database_url_scheme_is_rewritten (rest : string) :
  DATABASE_URL (Some ("postgres://" ++ rest)%string)
  = Imported ("postgresql+asyncpg://"
              ++ replace "postgres://" "postgresql+asyncpg://" rest)%string
  /\ (occurs "postgres://" rest = false ->
      DATABASE_URL (Some ("postgres://" ++ rest)%string)
      = Imported ("postgresql+asyncpg://" ++ rest)%string)
  /\ (forall url, prefix "postgres://" url = false -> DATABASE_URL (Some url) = Imported url)
  /\ DATABASE_URL (Some ("postgresql://" ++ rest)%string)
     = Imported ("postgresql://" ++ rest)%string
  /\ DATABASE_URL None = AttributeError.
Proof.
  assert (Hrun : DATABASE_URL (Some ("postgres://" ++ rest)%string)
                 = Imported ("postgresql+asyncpg://"
                             ++ replace "postgres://" "postgresql+asyncpg://" rest)%string).
  { unfold DATABASE_URL. rewrite prefix_append. f_equal.
    unfold replace.
    change ("postgres://" ++ rest)%string
      with (String "p" ("ostgres://" ++ rest))%string.
    cbn [replace_from].
    change (String "p" ("ostgres://" ++ rest))%string with ("postgres://" ++ rest)%string.
    rewrite prefix_append.
    change (String.length "postgres://" - 1)%nat with (String.length "ostgres://").
    now rewrite replace_from_skips. }
  split; [exact Hrun|].
  split; [intros Hno; rewrite Hrun; now rewrite replace_absent|].
  split; [intros url Hp; unfold DATABASE_URL; now rewrite Hp|].
  split; [|reflexivity].
  unfold DATABASE_URL.
  assert (Hp : prefix "postgres://" ("postgresql://" ++ rest) = false).
  { simpl.
    repeat match goal with
           | |- context [ascii_dec ?a ?b] =>
             destruct (ascii_dec a b) as [E|E]; [try discriminate E | try congruence];
             clear E
           end.
    reflexivity. }
  now rewrite Hp.
Qed.

(** ** What is created is listed *)

Lemma sort_keys_length (leb : ApiKey.t -> ApiKey.t -> bool) (l : list ApiKey.t) :
  List.length (sort_keys leb l) = List.length l.
Proof. apply Permutation_length, sort_keys_perm. Qed.

(** X26. A key that has been created is in the list of its creator: the
    list is one entry longer than before, and holds an active entry with the
    id and the prefix of the response. *)
Theorem created_key_is_listed
    (sha256_hexdigest : string -> string) (payload : ApiKeyCreate.t) (u : User.t)
    (random_part : string) (new_id : uuid) (now : datetime) (db db' : Db)
    (created : ApiKeyCreated.t) :
  create_api_key sha256_hexdigest payload u random_part new_id now db = (Ok created, db') ->
  exists keys keys',
    list_api_keys u db = (Ok keys, db)
    /\ list_api_keys u db' = (Ok keys', db')
    /\ List.length keys' = S (List.length keys)
    /\ exists k,
         In k keys'
         /\ ApiKey.id k = ApiKeyCreated.id created
         /\ ApiKey.name k = ApiKeyCreated.name created
         /\ ApiKey.key_prefix k = ApiKeyCreated.key_prefix created
         /\ ApiKey.is_active k = true.
Proof.
  intros Hcreate.
  destruct (create_api_key_inv _ _ _ _ _ _ _ _ _ Hcreate) as [Hdb [Hcreated _]].
  do 2 eexists. split; [reflexivity|]. split; [reflexivity|].
  rewrite Hdb, Hcreated. simpl.
  rewrite filter_app. simpl. rewrite String.eqb_refl.
  split.
  - rewrite !sort_keys_length, length_app. simpl. lia.
  - eexists. split.
    + apply (Permutation_in _ (Permutation_sym (sort_keys_perm _ _))).
      apply in_or_app. right. left. reflexivity.
    + repeat split.
Qed.

(** ** A listing without filters *)

(** X27. A listing without search parameters counts every comic of the
    table, whatever page and order are asked for; so a comic that has just
    been created makes the total one more. *)
Theorem unfiltered_listing_counts_every_comic
    (lower : string -> string)
    (page page_size : option Z) (sort_by sort_order : option string)
    (db db' : Db) (r : PaginatedComics.t) :
  list_comics lower None None None None None None None None None None page page_size
    sort_by sort_order db = (Ok r, db') ->
  PaginatedComics.total r = Z.of_nat (List.length (comics db))
  /\ (forall payload u new_id created_at updated_at c db1,
         create_comic payload u new_id created_at updated_at db = (Ok c, db1) ->
         exists r1,
           list_comics lower None None None None None None None None None None page
             page_size sort_by sort_order db1 = (Ok r1, db1)
           /\ PaginatedComics.total r1 = PaginatedComics.total r + 1).
Proof.
  intros Hrun.
  destruct ((default 1 page >=? 1) && (default 20 page_size >=? 1)
            && (default 20 page_size <=? 100)
            && sort_by_pattern (default "title" sort_by)
            && sort_order_pattern (default "asc" sort_order)) eqn:Hgood.
  - rewrite (list_comics_reaches_the_store lower None None None None None None None None
               None None page page_size sort_by sort_order db Hgood) in Hrun.
    destruct (forallb binds _ && int64 _) eqn:Hrange; [|discriminate Hrun].
    injection Hrun as Hr Hdb. subst db' r. simpl PaginatedComics.total.
    assert (Hall : forall l : list Comic.t, filter (fun _ => true) l = l)
      by (intros l; apply filter_all; reflexivity).
    rewrite !Hall.
    split; [reflexivity|].
    intros payload u new_id created_at updated_at c db1 Hcreate.
    eexists. split.
    + rewrite (list_comics_reaches_the_store lower None None None None None None None None
                 None None page page_size sort_by sort_order db1 Hgood).
      rewrite Hrange. reflexivity.
    + simpl PaginatedComics.total. rewrite Hall.
      unfold create_comic, bind, insert_comic in Hcreate. cbv zeta in Hcreate.
      destruct (negb (fits_columns _)); [discriminate Hcreate|].
      destruct (existsb _ (comics db) || negb _); [discriminate Hcreate|].
      unfold ret in Hcreate. injection Hcreate as _ Hdb1. subst db1.
      simpl. rewrite length_app. simpl. lia.
  - rewrite (list_comics_rejects lower None None None None None None None None None None
               page page_size sort_by sort_order db Hgood) in Hrun.
    discriminate Hrun.
Qed.

(** * The further statements on the sample store *)

(** alice's token and bob's key on one request: the request is alice's. *)
Lemma dependency_resolves_to_active_stored_user_witness :
  exists db',
    current_user_dependency Sample.jwt_decode Sample.sha256_hexdigest
      (Some "token-of-alice") (Some "mng_bob") 100 Sample.db
    = (Ok Sample.alice, db')
    /\ In Sample.alice (users Sample.db) /\ User.is_active Sample.alice = true
    /\ users db' = users Sample.db /\ comics db' = comics Sample.db.
Proof.
  eexists. split; [reflexivity|].
  apply (dependency_resolves_to_active_stored_user Sample.jwt_decode
           Sample.sha256_hexdigest (Some "token-of-alice") (Some "mng_bob") 100 Sample.db);
    [exact sample_db_wf | reflexivity].
Defined.

(** bob's key is used at time 100: its row is stamped, the others stay. *)
Lemma api_key_lookup_writes_last_used_at_only_witness :
  users (snd (get_current_user_from_api_key Sample.sha256_hexdigest (Some "mng_bob") 100
                Sample.db)) = users Sample.db
  /\ api_keys (snd (get_current_user_from_api_key Sample.sha256_hexdigest (Some "mng_bob")
                      100 Sample.db))
     = [ApiKey.set_last_used_at (Some 100) Sample.key_bob; Sample.key_expired;
        Sample.key_revoked; Sample.key_carol].
Proof.
  destruct (api_key_lookup_writes_last_used_at_only Sample.sha256_hexdigest
              (Some "mng_bob") 100 Sample.db sample_db_wf) as [Husers _].
  split; [exact Husers | reflexivity].
Defined.

(** bob's key resolves to bob; carol's, whose owner is deactivated, to no
    user, and is stamped all the same; alice's old key at the very instant
    of its expiry still resolves to her. *)
Lemma live_key_resolves_owner_and_records_use_witness :
  get_current_user_from_api_key Sample.sha256_hexdigest (Some "mng_bob") 100 Sample.db
  = (Ok (Some Sample.bob),
     set_api_keys
       [ApiKey.set_last_used_at (Some 100) Sample.key_bob; Sample.key_expired;
        Sample.key_revoked; Sample.key_carol]
       Sample.db)
  /\ get_current_user_from_api_key Sample.sha256_hexdigest (Some "mng_carol") 100 Sample.db
     = (Ok None,
        set_api_keys
          [Sample.key_bob; Sample.key_expired; Sample.key_revoked;
           ApiKey.set_last_used_at (Some 100) Sample.key_carol]
          Sample.db)
  /\ fst (get_current_user_from_api_key Sample.sha256_hexdigest (Some "mng_old") 50
            Sample.db)
     = Ok (Some Sample.alice).
Proof.
  split; [|split].
  - destruct (live_key_resolves_owner_and_records_use Sample.sha256_hexdigest "mng_bob" 100
                Sample.db Sample.key_bob sample_db_wf) as [H _];
      [discriminate | simpl; tauto | reflexivity | reflexivity | discriminate|].
    apply (H Sample.bob); [simpl; tauto | reflexivity | reflexivity].
  - destruct (live_key_resolves_owner_and_records_use Sample.sha256_hexdigest "mng_carol"
                100 Sample.db Sample.key_carol sample_db_wf) as [_ H];
      [discriminate | simpl; tauto | reflexivity | reflexivity | discriminate|].
    apply H. intros u [<-|[<-|[<-|[<-|[]]]]]; try discriminate. reflexivity.
  - destruct (live_key_resolves_owner_and_records_use Sample.sha256_hexdigest "mng_old" 50
                Sample.db Sample.key_expired sample_db_wf) as [H _];
      [discriminate | simpl; tauto | reflexivity | reflexivity | |].
    + intros e He. injection He as <-. lia.
    + now rewrite (H Sample.alice); [|simpl; tauto | reflexivity | reflexivity].
Defined.

(** bob is an administrator and passes; alice is none and gets 403; a
    request without credentials gets 401. *)
Lemma admin_dependency_admits_administrators_only_witness :
  fst (bind (current_user_dependency Sample.jwt_decode Sample.sha256_hexdigest
               None (Some "mng_bob") 100)
         get_current_admin Sample.db)
  = Ok Sample.bob
  /\ User.is_admin Sample.bob = true
  /\ bind (current_user_dependency Sample.jwt_decode Sample.sha256_hexdigest
             (Some "token-of-alice") None 100)
       get_current_admin Sample.db
     = (HTTPException 403 "Admin access required", Sample.db)
  /\ bind (current_user_dependency Sample.jwt_decode Sample.sha256_hexdigest None None 100)
       get_current_admin Sample.db
     = (HTTPException 401 "Not authenticated", Sample.db).
Proof.
  split; [reflexivity|].
  split.
  - destruct (admin_dependency_admits_administrators_only Sample.jwt_decode
                Sample.sha256_hexdigest None (Some "mng_bob") 100 Sample.db sample_db_wf)
      as [H _].
    now destruct (H Sample.bob _ eq_refl).
  - destruct (admin_dependency_admits_administrators_only Sample.jwt_decode
                Sample.sha256_hexdigest (Some "token-of-alice") None 100 Sample.db
                sample_db_wf) as [_ [H403 _]].
    destruct (admin_dependency_admits_administrators_only Sample.jwt_decode
                Sample.sha256_hexdigest None None 100 Sample.db sample_db_wf)
      as [_ [_ H401]].
    split; [apply (H403 Sample.alice); reflexivity | apply H401; reflexivity].
Defined.

(** bob's key with a forged token, and with no token at all. *)
Lemma api_key_alone_authenticates_witness :
  fst (current_user_dependency Sample.jwt_decode Sample.sha256_hexdigest
         (Some "forged") (Some "mng_bob") 100 Sample.db)
  = Ok Sample.bob
  /\ fst (current_user_dependency Sample.jwt_decode Sample.sha256_hexdigest
            None (Some "mng_bob") 100 Sample.db)
     = Ok Sample.bob.
Proof.
  destruct (api_key_alone_authenticates Sample.jwt_decode Sample.sha256_hexdigest
              (Some "forged") "mng_bob" 100 Sample.db Sample.key_bob Sample.bob
              sample_db_wf) as [H1 H2];
    [reflexivity | discriminate | simpl; tauto | reflexivity | reflexivity | discriminate
    | simpl; tauto | reflexivity | reflexivity|].
  split; [now rewrite H1 | now rewrite H2].
Defined.

(** carol is deactivated: neither a token for her nor her key lets her in. *)
Lemma deactivated_user_is_locked_out_witness :
  fst (current_user_dependency Demo.jwt_plain Sample.sha256_hexdigest
         (Some "u-carol") (Some "mng_carol") 100 Sample.db)
  = HTTPException 401 "Not authenticated"
  /\ fst (current_user_dependency Demo.jwt_plain Sample.sha256_hexdigest
            (Some "u-carol") None 100 Sample.db)
     = HTTPException 401 "Not authenticated".
Proof.
  split.
  - destruct (deactivated_user_is_locked_out Demo.jwt_plain Sample.sha256_hexdigest
                "u-carol" (Some "mng_carol") 100 Sample.db Sample.carol
                [("sub", JString "u-carol"); ("exp", JNumber 604900)] sample_db_wf)
      as [db' [Hrun _]];
      [simpl; tauto | reflexivity | reflexivity | reflexivity | | now rewrite Hrun].
    intros k [<-|[<-|[<-|[<-|[]]]]]; try discriminate. reflexivity.
  - destruct (deactivated_user_is_locked_out Demo.jwt_plain Sample.sha256_hexdigest
                "u-carol" None 100 Sample.db Sample.carol
                [("sub", JString "u-carol"); ("exp", JNumber 604900)] sample_db_wf)
      as [db' [Hrun _]];
      [simpl; tauto | reflexivity | reflexivity | reflexivity | | now rewrite Hrun].
    intros k _. discriminate.
Defined.


(** erin registers and logs in. *)
Lemma registered_user_can_log_in_witness :
  register Sample.hash_password Demo.erin "u-erin" Demo.now Sample.db
  = (Ok Demo.user_erin, Demo.db_with_erin)
  /\ login Demo.jwt_encode Demo.verify_password (UserLogin.mk "erin" "tr0ub4dor-3") 200
       Demo.db_with_erin
     = (Ok (minted Demo.jwt_encode Demo.user_erin 200), Demo.db_with_erin).
Proof.
  split; [reflexivity|].
  now destruct (registered_user_can_log_in Demo.jwt_encode Demo.verify_password
                  Sample.hash_password Demo.erin "u-erin" Demo.now 200 Sample.db
                  Demo.db_with_erin Demo.user_erin eq_refl eq_refl).
Defined.

(** The token alice gets at [Demo.now] is alice's on the next request. *)
Lemma login_token_resolves_to_its_user_witness :
  exists token,
    login Demo.jwt_encode Demo.verify_password (UserLogin.mk "alice" "correct horse")
      Demo.now Sample.db
    = (Ok token, Sample.db)
    /\ Token.access_token token = "jwt:u-alice:604900"
    /\ get_current_user_from_token Demo.jwt_decode (Some (Token.access_token token))
         Sample.db
       = (Ok (Some Sample.alice), Sample.db).
Proof.
  destruct (login_token_resolves_to_its_user Demo.jwt_encode Demo.verify_password
              Demo.jwt_decode (UserLogin.mk "alice" "correct horse") Demo.now Sample.db
              Sample.alice sample_db_wf)
    as [token [Hrun [_ [_ Hback]]]];
    [simpl; tauto | discriminate | reflexivity | reflexivity | reflexivity | reflexivity|].
  exists token. split; [exact Hrun|]. split; [|exact Hback].
  assert (E : Ok token
              = fst (login Demo.jwt_encode Demo.verify_password
                       (UserLogin.mk "alice" "correct horse") Demo.now Sample.db))
    by now rewrite Hrun.
  vm_compute in E. injection E as ->. reflexivity.
Defined.


(** alice creates a key and authenticates with it. *)
Lemma created_key_authenticates_its_creator_witness :
  create_api_key Sample.sha256_hexdigest (ApiKeyCreate.mk "ci" None) Sample.alice
    Demo.random_part "k-9" Demo.now Sample.db
  = (Ok Demo.created_ci, Demo.db_with_key)
  /\ exists db'',
       get_current_user_from_api_key Sample.sha256_hexdigest
         (Some "mng_abcdefghijklmnopqrstuvwxyzABCDEFGHIJKLMNOP012345") 200 Demo.db_with_key
       = (Ok (Some Sample.alice), db'')
       /\ users db'' = users Sample.db /\ comics db'' = comics Sample.db.
Proof.
  split; [reflexivity|].
  apply (created_key_authenticates_its_creator Sample.sha256_hexdigest
           (ApiKeyCreate.mk "ci" None) Sample.alice Demo.random_part "k-9" Demo.now 200
           Sample.db Demo.db_with_key Demo.created_ci sample_db_wf);
    [simpl; tauto | reflexivity | reflexivity | discriminate].
Defined.

(** bob revokes his key, spelling its id in capitals; the key is refused
    from then on. *)
Lemma revoked_key_no_longer_authenticates_witness :
  revoke_api_key Sample.uuid_of_str "K-1" Sample.bob Sample.db = (Ok tt, Demo.db_revoked)
  /\ get_current_user_from_api_key Sample.sha256_hexdigest (Some "mng_bob") 100
       Demo.db_revoked
     = (Ok None, Demo.db_revoked).
Proof.
  split; [reflexivity|].
  apply (revoked_key_no_longer_authenticates Sample.sha256_hexdigest Sample.uuid_of_str
           "K-1" Sample.bob (Some "mng_bob") 100 Sample.db Demo.db_revoked Sample.key_bob
           sample_db_wf);
    [simpl; tauto | reflexivity | reflexivity | reflexivity].
Defined.

(** alice may not revoke bob's key, nor may dave who holds keys of his own;
    and a text that is no id is refused by the store. *)
Lemma revoke_refuses_a_key_of_another_user_witness :
  revoke_api_key Sample.uuid_of_str "k-1" Sample.alice Sample.db
  = (HTTPException 404 "API key not found", Sample.db)
  /\ revoke_api_key Sample.uuid_of_str "K-1" Sample.dave Sample.db
     = (HTTPException 404 "API key not found", Sample.db)
  /\ revoke_api_key Sample.uuid_of_str "not a uuid" Sample.bob Sample.db
     = (Unhandled DBAPIError, Sample.db).
Proof.
  split; [|split].
  - destruct (revoke_refuses_a_key_of_another_user Sample.uuid_of_str "k-1" Sample.alice
                Sample.db) as [H _].
    apply (H "k-1"); [reflexivity|].
    intros k [<-|[<-|[<-|[<-|[]]]]]; discriminate.
  - destruct (revoke_refuses_a_key_of_another_user Sample.uuid_of_str "K-1" Sample.dave
                Sample.db) as [H _].
    apply (H "k-1"); [reflexivity|].
    intros k [<-|[<-|[<-|[<-|[]]]]]; discriminate.
  - destruct (revoke_refuses_a_key_of_another_user Sample.uuid_of_str "not a uuid"
                Sample.bob Sample.db) as [_ H].
    now apply H.
Defined.

Lemma revoke_deactivates_one_row_and_is_idempotent_witness :
  revoke_api_key Sample.uuid_of_str "k-1" Sample.bob Sample.db = (Ok tt, Demo.db_revoked)
  /\ revoke_api_key Sample.uuid_of_str "k-1" Sample.bob Demo.db_revoked
     = (Ok tt, Demo.db_revoked)
  /\ List.length (api_keys Demo.db_revoked) = 4%nat.
Proof.
  split; [reflexivity|].
  destruct (revoke_deactivates_one_row_and_is_idempotent Sample.uuid_of_str "k-1"
              Sample.bob Sample.db Demo.db_revoked (wf_key_id _ sample_db_wf) eq_refl)
    as [id [_ [_ [_ [_ [_ Hagain]]]]]].
  split; [exact Hagain | reflexivity].
Defined.

Lemma created_key_shape_witness :
  create_api_key Sample.sha256_hexdigest (ApiKeyCreate.mk "ci" None) Sample.alice
    Demo.random_part "k-9" Demo.now Sample.db
  = (Ok Demo.created_ci, Demo.db_with_key)
  /\ String.length (ApiKeyCreated.full_key Demo.created_ci) = 52%nat
  /\ ApiKeyCreated.key_prefix Demo.created_ci = "mng_abcdef"
  /\ String.length (ApiKeyCreated.key_prefix Demo.created_ci) = 10%nat.
Proof.
  split; [reflexivity|].
  destruct (created_key_shape Sample.sha256_hexdigest (ApiKeyCreate.mk "ci" None)
              Sample.alice Demo.random_part "k-9" Demo.now Sample.db Demo.db_with_key
              Demo.created_ci eq_refl eq_refl) as [_ [Hlen [Hprefix [Hplen _]]]].
  split; [exact Hlen|]. split; [exact Hprefix | exact Hplen].
Defined.

(** alice creates "Saga" and reads it back. *)
Lemma created_comic_is_stored_and_found_witness :
  create_comic Demo.saga Sample.alice "c-9" 150 151 Sample.db
  = (Ok Demo.comic_saga, Demo.db_with_saga)
  /\ get_comic "c-9" Demo.db_with_saga = (Ok Demo.comic_saga, Demo.db_with_saga)
  /\ Comic.created_by Demo.comic_saga = Some "u-alice"
  /\ db_wf Demo.db_with_saga.
Proof.
  destruct (created_comic_is_stored_and_found Demo.saga Sample.alice "c-9" 150 151
              Sample.db sample_db_wf) as [Hrun [Hget [_ [Hby [_ Hwf]]]]];
    [simpl; tauto | | reflexivity |].
  - intros c [<-|[<-|[]]]; discriminate.
  - split; [exact Hrun|]. split; [exact Hget|]. split; [exact Hby | exact Hwf].
Defined.

Lemma create_then_delete_restores_the_store_witness :
  create_comic Demo.saga Sample.alice "c-9" 150 151 Sample.db
  = (Ok Demo.comic_saga, Demo.db_with_saga)
  /\ delete_comic "c-9" Sample.alice Demo.db_with_saga = (Ok tt, Sample.db).
Proof.
  split; [reflexivity|].
  apply (create_then_delete_restores_the_store Demo.saga Sample.alice "c-9" 150 151
           Sample.db Demo.db_with_saga Demo.comic_saga sample_db_wf);
    [simpl; tauto | | reflexivity | reflexivity].
  intros c [<-|[<-|[]]]; discriminate.
Defined.

(** alice deletes "Watchmen"; "Akira" is still served. *)
Lemma deleted_comic_is_gone_and_the_others_stay_witness :
  delete_comic "c-1" Sample.alice Sample.db = (Ok tt, set_comics [Sample.akira] Sample.db)
  /\ get_comic "c-1" (set_comics [Sample.akira] Sample.db)
     = (HTTPException 404 "Comic not found", set_comics [Sample.akira] Sample.db)
  /\ get_comic "c-2" (set_comics [Sample.akira] Sample.db)
     = (Ok Sample.akira, set_comics [Sample.akira] Sample.db).
Proof.
  split; [reflexivity|].
  destruct (deleted_comic_is_gone_and_the_others_stay "c-1" Sample.alice Sample.db
              (set_comics [Sample.akira] Sample.db) sample_db_wf eq_refl)
    as [Hgone [_ [_ [Hothers _]]]].
  split; [exact Hgone|].
  apply (Hothers Sample.akira); [simpl; tauto | discriminate].
Defined.

(** The summary alice patches is in what is read and downloaded next; with
    a parser that takes no document the download fails. *)
Lemma patched_comic_is_served_witness :
  update_comic "c-1" Sample.only_summary Sample.alice 500 Sample.db
  = (Ok Sample.patched_watchmen, Sample.db_after_patch)
  /\ get_comic "c-1" Sample.db_after_patch
     = (Ok Sample.patched_watchmen, Sample.db_after_patch)
  /\ (exists document,
        generate_comicinfo_xml Sample.str_float Demo.tostring Demo.parseString_toprettyxml
          Sample.patched_watchmen = Some document
        /\ download_comicinfo Sample.str_float Demo.tostring Demo.parseString_toprettyxml
             "c-1" Sample.db_after_patch
           = (Ok (attachment Sample.patched_watchmen document), Sample.db_after_patch))
  /\ download_comicinfo Sample.str_float Demo.tostring Demo.parseString_raises
       "c-1" Sample.db_after_patch
     = (Unhandled ExpatError, Sample.db_after_patch).
Proof.
  split; [reflexivity|].
  destruct (patched_comic_is_served Sample.str_float Demo.tostring
              Demo.parseString_toprettyxml "c-1" Sample.only_summary Sample.alice 500
              Sample.db Sample.db_after_patch Sample.patched_watchmen sample_db_wf
              eq_refl eq_refl) as [Hget [Hxml _]].
  destruct (patched_comic_is_served Sample.str_float Demo.tostring
              Demo.parseString_raises "c-1" Sample.only_summary Sample.alice 500
              Sample.db Sample.db_after_patch Sample.patched_watchmen sample_db_wf
              eq_refl eq_refl) as [_ [_ Hraises]].
  split; [exact Hget|]. split.
  - eexists. split; [reflexivity|]. now apply Hxml.
  - now apply Hraises.
Defined.

(** alice sets a cover, which is then served; set to the empty string, the
    comic has no cover again. *)
Lemma patched_cover_is_served_witness :
  get_cover_url "c-1"
    (set_comics [Demo.covered_watchmen; Sample.akira] Sample.db)
  = (Ok [("comic_id", Some "c-1");
         ("cover_url", Some "https://covers.example.com/c-1.png")],
     set_comics [Demo.covered_watchmen; Sample.akira] Sample.db)
  /\ get_cover_url "c-1"
       (set_comics [Demo.uncovered_watchmen; Sample.akira] Sample.db)
     = (HTTPException 404 "No cover image set for this comic",
        set_comics [Demo.uncovered_watchmen; Sample.akira] Sample.db).
Proof.
  split.
  - destruct (patched_cover_is_served "c-1" Demo.with_cover Sample.alice 500 Sample.db
                (set_comics [Demo.covered_watchmen; Sample.akira] Sample.db)
                Demo.covered_watchmen "https://covers.example.com/c-1.png" sample_db_wf
                eq_refl eq_refl eq_refl) as [H _].
    apply H. discriminate.
  - destruct (patched_cover_is_served "c-1" Demo.without_cover Sample.alice 500 Sample.db
                (set_comics [Demo.uncovered_watchmen; Sample.akira] Sample.db)
                Demo.uncovered_watchmen "" sample_db_wf eq_refl eq_refl eq_refl)
      as [_ H].
    now apply H.
Defined.

(** The same summary sent again at time 900: [updated_at] stays at 500. *)
Lemma patch_is_idempotent_witness :
  update_comic "c-1" Sample.only_summary Sample.alice 500 Sample.db
  = (Ok Sample.patched_watchmen, Sample.db_after_patch)
  /\ update_comic "c-1" Sample.only_summary Sample.alice 900 Sample.db_after_patch
     = (Ok Sample.patched_watchmen, Sample.db_after_patch)
  /\ Comic.updated_at Sample.patched_watchmen = 500.
Proof.
  split; [reflexivity|]. split; [|reflexivity].
  apply (patch_is_idempotent "c-1" Sample.only_summary Sample.alice 500 900 Sample.db
           Sample.db_after_patch Sample.patched_watchmen sample_db_wf);
    [discriminate | reflexivity].
Defined.


(** The sample session leaves the constraints in force. *)
Lemma served_requests_keep_the_uniqueness_constraints_witness :
  db_wf (run Sample.jwt_decode Demo.jwt_encode Sample.sha256_hexdigest Sample.hash_password
           Demo.verify_password Sample.uuid_of_str Sample.lower Sample.str_float
           Demo.tostring Demo.parseString_toprettyxml Demo.session Sample.db)
  /\ List.length
       (users (run Sample.jwt_decode Demo.jwt_encode Sample.sha256_hexdigest
                 Sample.hash_password Demo.verify_password Sample.uuid_of_str Sample.lower
                 Sample.str_float Demo.tostring Demo.parseString_toprettyxml Demo.session
                 Sample.db)) = 5%nat
  /\ map Comic.id
       (comics (run Sample.jwt_decode Demo.jwt_encode Sample.sha256_hexdigest
                  Sample.hash_password Demo.verify_password Sample.uuid_of_str Sample.lower
                  Sample.str_float Demo.tostring Demo.parseString_toprettyxml Demo.session
                  Sample.db)) = ["c-2"; "c-9"]
  /\ map ApiKey.is_active
       (api_keys (run Sample.jwt_decode Demo.jwt_encode Sample.sha256_hexdigest
                    Sample.hash_password Demo.verify_password Sample.uuid_of_str
                    Sample.lower Sample.str_float Demo.tostring
                    Demo.parseString_toprettyxml Demo.session Sample.db))
     = [false; true; false; true; true].
Proof.
  destruct (served_requests_keep_the_uniqueness_constraints Sample.jwt_decode
              Demo.jwt_encode Sample.sha256_hexdigest Sample.hash_password
              Demo.verify_password Sample.uuid_of_str Sample.lower Sample.str_float
              Demo.tostring Demo.parseString_toprettyxml Demo.session Sample.db
              sample_db_wf) as [Hwf _].
  split; [exact Hwf|]. repeat split; reflexivity.
Defined.

(** alice had one key; the new one comes first in her list. *)
Lemma created_key_is_listed_witness :
  list_api_keys Sample.alice Sample.db = (Ok [Sample.key_expired], Sample.db)
  /\ list_api_keys Sample.alice Demo.db_with_key
     = (Ok [Demo.key_ci; Sample.key_expired], Demo.db_with_key)
  /\ exists keys keys',
       list_api_keys Sample.alice Sample.db = (Ok keys, Sample.db)
       /\ list_api_keys Sample.alice Demo.db_with_key = (Ok keys', Demo.db_with_key)
       /\ List.length keys' = S (List.length keys).
Proof.
  split; [reflexivity|]. split; [reflexivity|].
  destruct (created_key_is_listed Sample.sha256_hexdigest (ApiKeyCreate.mk "ci" None)
              Sample.alice Demo.random_part "k-9" Demo.now Sample.db Demo.db_with_key
              Demo.created_ci eq_refl) as [keys [keys' [H1 [H2 [Hlen _]]]]].
  now exists keys, keys'.
Defined.

(** Two comics are counted, and three once "Saga" is created. *)
Lemma unfiltered_listing_counts_every_comic_witness :
  exists r r1,
    list_comics Sample.lower None None None None None None None None None None None None
      None None Sample.db = (Ok r, Sample.db)
    /\ PaginatedComics.total r = 2
    /\ list_comics Sample.lower None None None None None None None None None None None
         None None None Demo.db_with_saga = (Ok r1, Demo.db_with_saga)
    /\ PaginatedComics.total r1 = 3.
Proof.
  exists (PaginatedComics.mk 2 1 20
            (map ComicListOut.model_validate [Sample.akira; Sample.watchmen])).
  destruct (unfiltered_listing_counts_every_comic Sample.lower None None None None
              Sample.db Sample.db
              (PaginatedComics.mk 2 1 20
                 (map ComicListOut.model_validate [Sample.akira; Sample.watchmen]))
              eq_refl) as [Htotal Hnext].
  destruct (Hnext Demo.saga Sample.alice "c-9" 150 151 Demo.comic_saga Demo.db_with_saga
              eq_refl) as [r1 [Hrun1 Htotal1]].
  exists r1. split; [reflexivity|]. split; [exact Htotal|].
  split; [exact Hrun1 | exact Htotal1].
Defined.
